(** * io_pdx_mesh: the binary tree codec of [pdx_data.py]

    A shallow embedding of the reader ([read_meshfile] and the [parse*]
    helpers) and of the mesh writer ([write_meshfile] and the [write*]
    helpers), followed by the properties of the codec.

    Conventions of the embedding.
    - A byte buffer is a [list byte].
    - A Python [str] is the list of its code points ([pystr]); Latin-1
      encoding fails on a code point above 255.
    - [struct.pack] / [struct.unpack_from] are modelled for the formats the
      module uses ("c", "b", "i", "f", "x", "Ns"), little-endian as the file
      format has it.  The conversion between a Python float and its four
      bytes belongs to [struct]; it is kept abstract in [FloatPacking].
    - Python exceptions are values of [pyerr]; every [while] loop takes a
      fuel argument and answers [OutOfFuel] when it is exhausted.  What the
      specification calls FormatError and SchemaError is, in the code,
      [NotImplementedError]; [not_implemented] tells the [raise] sites apart.
    - An [xml.etree] element is a tree [Element]; a reference to an element
      of the document under construction is its path from the root, so that
      every alias of an element observes the mutations made through another. *)

From Stdlib.Strings Require Import String Ascii Byte.
From Stdlib Require Import ZArith NArith List Permutation Lia Bool.
Import ListNotations.
Open Scope Z_scope.

(** ** Results of possibly failing, possibly looping code *)

Inductive not_implemented : Type :=
| UnknownFileHeader     (* read_meshfile: "Unknown file header." *)
| UnknownObject         (* read_meshfile: "Unknown object encountered." *)
| UnknownDataTypeRead   (* parseData: "Unknown data type encountered." *)
| NameTooLong           (* writeObject: "Object name is longer than 64 characters" *)
| MixedDataTypes        (* writeData: "Mixed data types encountered." *)
| UnknownDataTypeWrite  (* writeData: "Unknown data type encountered." *)
| UnknownXMLRoot.       (* write_meshfile: "Unknown XML root encountered." *)

Inductive pyerr : Type :=
| NotImplementedError (why : not_implemented)
| StructError
| UnicodeDecodeError
| UnicodeEncodeError
| IndexError
| TypeError
| OverflowError
| ValueError
| IOError.

Inductive res (A : Type) : Type :=
| Ok (a : A)
| Err (e : pyerr)
| OutOfFuel.

Arguments Ok {A} a.
Arguments Err {A} e.
Arguments OutOfFuel {A}.

Definition bind {A B : Type} (c : res A) (k : A -> res B) : res B :=
  match c with
  | Ok a => k a
  | Err e => Err e
  | OutOfFuel => OutOfFuel
  end.

Declare Scope res_scope.
Delimit Scope res_scope with res.
Notation "x <- c ;; k" := (bind c (fun x => k))
  (at level 61, c at next level, right associativity) : res_scope.
Notation "' p <- c ;; k" := (bind c (fun x => let 'p := x in k))
  (at level 61, p pattern, c at next level, right associativity) : res_scope.
Open Scope res_scope.

(** ** Bytes, strings and [struct] *)

Abbreviation bytes := (list byte).

(** A Python [str]: its code points. *)
Abbreviation pystr := (list N).

(** A reference to an element of a document: the child indices that lead
    to it from the root. *)
Abbreviation path := (list nat).

Definition str_of (s : string) : pystr :=
  map N_of_ascii (list_ascii_of_string s).

Definition pystr_eq_dec : forall a b : pystr, {a = b} + {a <> b} :=
  list_eq_dec N.eq_dec.

Definition pystr_eqb (a b : pystr) : bool :=
  if pystr_eq_dec a b then true else false.

Definition Z_of_byte (b : byte) : Z := Z.of_N (Byte.to_N b).

Definition byte_of_Z (z : Z) : byte :=
  match Byte.of_N (Z.to_N (z mod 256)) with
  | Some b => b
  | None => x00
  end.

(** [bytes.decode("latin-1")] and [str.encode("latin-1")]. *)
Definition decode_latin1 (bs : bytes) : pystr := map Byte.to_N bs.

Fixpoint encode_latin1 (s : pystr) : res bytes :=
  match s with
  | [] => Ok []
  | c :: s' =>
      match Byte.of_N c with
      | Some b => bs <- encode_latin1 s' ;; Ok (b :: bs)
      | None => Err UnicodeEncodeError
      end
  end.

(** [bytes.decode()] of the single byte an unpacked "c" holds: the default
    codec rejects every byte above 0x7f. *)
Definition decode_c (b : byte) : res N :=
  if (Byte.to_N b <? 128)%N then Ok (Byte.to_N b) else Err UnicodeDecodeError.

(** [struct.unpack_from(fmt, bdata, offset)] for a format of [size] bytes:
    a negative offset counts from the end of the buffer, and the format
    must fit between the offset and the end. *)
Definition unpack_from (size : nat) (bdata : bytes) (offset : Z) : res bytes :=
  let len := Z.of_nat (length bdata) in
  let off := if offset <? 0 then offset + len else offset in
  if (off <? 0) || (len - off <? Z.of_nat size) then Err StructError
  else Ok (firstn size (skipn (Z.to_nat off) bdata)).

Definition unpack_c (bdata : bytes) (offset : Z) : res byte :=
  bs <- unpack_from 1 bdata offset ;;
  match bs with
  | [b] => Ok b
  | _ => Err StructError
  end.

(** Format "b": a signed byte. *)
Definition signed_byte (b : byte) : Z :=
  let u := Z_of_byte b in if u <? 128 then u else u - 256.

Definition unpack_b (bdata : bytes) (offset : Z) : res Z :=
  b <- unpack_c bdata offset ;; Ok (signed_byte b).

(** Format "i": a signed 32-bit integer, least significant byte first. *)
Definition le32 (z : Z) : bytes :=
  [byte_of_Z z; byte_of_Z (z / 256); byte_of_Z (z / 65536); byte_of_Z (z / 16777216)].

Definition int_of_le32 (bs : bytes) : Z :=
  match bs with
  | [b0; b1; b2; b3] =>
      let u := Z_of_byte b0 + 256 * Z_of_byte b1 + 65536 * Z_of_byte b2
               + 16777216 * Z_of_byte b3 in
      if u <? 2147483648 then u else u - 4294967296
  | _ => 0
  end.

Definition unpack_i (bdata : bytes) (offset : Z) : res Z :=
  bs <- unpack_from 4 bdata offset ;; Ok (int_of_le32 bs).

(** The groups of four bytes of a buffer whose length is [4 * n]. *)
Fixpoint chunks4 (n : nat) (bs : bytes) : list bytes :=
  match n with
  | O => []
  | S n' => firstn 4 bs :: chunks4 n' (skipn 4 bs)
  end.

(** Format ["i" * count]; a count below one gives the empty format. *)
Definition unpack_is (count : Z) (bdata : bytes) (offset : Z) : res (list Z) :=
  let n := Z.to_nat count in
  bs <- unpack_from (4 * n) bdata offset ;;
  Ok (map int_of_le32 (chunks4 n bs)).

Definition pack_c (b : byte) : bytes := [b].

Definition pack_x : bytes := [x00].

Definition pack_b (n : Z) : res bytes :=
  if (-128 <=? n) && (n <=? 127) then Ok [byte_of_Z n] else Err StructError.

Definition pack_i (z : Z) : res bytes :=
  if (-2147483648 <=? z) && (z <=? 2147483647) then Ok (le32 z) else Err StructError.

(** [for x in l: datastring += body(x)], stopping at the first exception. *)
Fixpoint for_bytes {A : Type} (l : list A) (body : A -> res bytes) : res bytes :=
  match l with
  | [] => Ok []
  | x :: l' =>
      b <- body x ;;
      bs <- for_bytes l' body ;;
      Ok (b ++ bs)
  end.

(** The float format of [struct]: [pack_f x] is [pack("f", x)], [None] when
    it raises [OverflowError]; [unpack_f] reads the four bytes back. *)
Class FloatPacking : Type := {
  pyfloat : Type;
  pack_f : pyfloat -> option bytes;
  unpack_f : bytes -> pyfloat;
  pack_f_length : forall x bs, pack_f x = Some bs -> length bs = 4%nat
}.

(** A packing in which a float is named by the 32-bit pattern it packs to;
    it serves to run the codec on concrete documents. *)
Definition bits_pack (x : Z) : option bytes :=
  if (0 <=? x) && (x <? 4294967296) then Some (le32 x) else None.

Definition bits_unpack (bs : bytes) : Z :=
  match bs with
  | [b0; b1; b2; b3] =>
      Z_of_byte b0 + 256 * Z_of_byte b1 + 65536 * Z_of_byte b2
      + 16777216 * Z_of_byte b3
  | _ => 0
  end.

(** A file system: the content of each path that names a file. *)
Definition filesystem := string -> option bytes.

Definition fs_write (fs : filesystem) (filepath : string) (data : bytes) : filesystem :=
  fun p => if String.eqb p filepath then Some data else fs p.

Section Codec.

Context {FP : FloatPacking}.

(** ** The tree model *)

(** The element values the codec distinguishes: [int], [float], [str], and
    [None] standing for a value of any other type. *)
Inductive pyval : Type :=
| PInt (z : Z)
| PFloat (x : pyfloat)
| PStr (s : pystr)
| PNone.

Inductive pytype : Type := TInt | TFloat | TStr | TNoneType.

Definition type_of (v : pyval) : pytype :=
  match v with
  | PInt _ => TInt
  | PFloat _ => TFloat
  | PStr _ => TStr
  | PNone => TNoneType
  end.

Definition pytype_eq_dec : forall a b : pytype, {a = b} + {a <> b}.
Proof. decide equality. Defined.

Definition is_int (v : pyval) : bool := match v with PInt _ => true | _ => false end.
Definition is_float (v : pyval) : bool := match v with PFloat _ => true | _ => false end.
Definition is_str (v : pyval) : bool := match v with PStr _ => true | _ => false end.

(** An [xml.etree] element: tag, attributes in insertion order, children.
    An attribute value is a Python list. *)
#[warnings="-register-all"]
Inductive Element : Type :=
| mkElement (tag : pystr) (attrib : list (pystr * list pyval)) (children : list Element).

Definition tag (e : Element) : pystr := let 'mkElement t _ _ := e in t.
Definition attrib (e : Element) : list (pystr * list pyval) := let 'mkElement _ a _ := e in a.
Definition children (e : Element) : list Element := let 'mkElement _ _ c := e in c.

(** [dict.get]: [None] for a missing key. *)
Fixpoint dict_get (d : list (pystr * list pyval)) (key : pystr) : option (list pyval) :=
  match d with
  | [] => None
  | (k, v) :: d' => if pystr_eqb k key then Some v else dict_get d' key
  end.

(** [d[key] = value]: an existing key keeps its place, a new one goes last. *)
Fixpoint dict_set (d : list (pystr * list pyval)) (key : pystr) (value : list pyval)
  : list (pystr * list pyval) :=
  match d with
  | [] => [(key, value)]
  | (k, v) :: d' =>
      if pystr_eqb k key then (k, value) :: d' else (k, v) :: dict_set d' key value
  end.

(** [Element.get], [Element.set], [Element.find] with a plain tag, and
    [SubElement] seen from the parent. *)
Definition get (e : Element) (key : pystr) : option (list pyval) :=
  dict_get (attrib e) key.

Definition set (key : pystr) (value : list pyval) (e : Element) : Element :=
  mkElement (tag e) (dict_set (attrib e) key value) (children e).

Definition find (e : Element) (name : pystr) : option Element :=
  List.find (fun c => pystr_eqb (tag c) name) (children e).

Definition append (child : Element) (e : Element) : Element :=
  mkElement (tag e) (attrib e) (children e ++ [child]).

(** ** Writing the tree to binary data *)

Definition writeString (s : pystr) : res bytes := encode_latin1 s.

Definition writeObject (obj_xml : Element) (obj_depth : nat) : res bytes :=
  let datastring := repeat "["%byte obj_depth in
  let obj_name := tag obj_xml in
  if negb (Z.of_nat (length obj_name) <? 64) then Err (NotImplementedError NameTooLong)
  else
    name <- writeString obj_name ;;
    Ok (datastring ++ name ++ pack_x).

Definition pack_int (v : pyval) : res bytes :=
  match v with
  | PInt z => pack_i z
  | _ => Err StructError
  end.

Definition pack_float (v : pyval) : res bytes :=
  match v with
  | PFloat x => match pack_f x with Some bs => Ok bs | None => Err OverflowError end
  | _ => Err StructError
  end.

(** [writeData(data_array)]; [None] is what [Element.get] gives for a
    missing attribute, and iterating over it raises [TypeError]. *)
Definition writeData (data_array : option (list pyval)) : res bytes :=
  match data_array with
  | None => Err TypeError
  | Some data_array =>
      match nodup pytype_eq_dec (map type_of data_array) with
      | [] => Ok []
      | [_] =>
          if forallb is_int data_array then
            size <- pack_i (Z.of_nat (length data_array)) ;;
            values <- for_bytes data_array pack_int ;;
            Ok (pack_c "i"%byte ++ size ++ values)
          else if forallb is_float data_array then
            size <- pack_i (Z.of_nat (length data_array)) ;;
            values <- for_bytes data_array pack_float ;;
            Ok (pack_c "f"%byte ++ size ++ values)
          else if forallb is_str data_array then
            match data_array with
            | PStr s :: _ =>
                size <- pack_i 1 ;;
                str_data_length <- pack_i (Z.of_nat (length s) + 1) ;;
                str <- writeString s ;;
                Ok (pack_c "s"%byte ++ size ++ str_data_length ++ str ++ pack_x)
            | _ => Err IndexError
            end
          else Err (NotImplementedError UnknownDataTypeWrite)
      | _ => Err (NotImplementedError MixedDataTypes)
      end
  end.

Definition writeProperty (prop_name : pystr) (prop_data : option (list pyval)) : res bytes :=
  prop_name_length <- pack_b (Z.of_nat (length prop_name)) ;;
  name <- writeString prop_name ;;
  data <- writeData prop_data ;;
  Ok (pack_c "!"%byte ++ prop_name_length ++ name ++ data).

(** [for prop in props: if xml.get(prop) is not None:
       datastring += writeProperty(prop, xml.get(prop))] *)
Definition write_props (props : list pystr) (xml : Element) : res bytes :=
  for_bytes props (fun prop =>
    match get xml prop with
    | Some value => writeProperty prop (Some value)
    | None => Ok []
    end).

(** [xml = parent.find(name)]; when found, the object at [depth] and its
    properties. *)
Definition write_sub (parent : Element) (name : pystr) (depth : nat) (props : list pystr)
  : res bytes :=
  match find parent name with
  | Some xml =>
      o <- writeObject xml depth ;;
      p <- write_props props xml ;;
      Ok (o ++ p)
  | None => Ok []
  end.

Definition mesh_props : list pystr :=
  map str_of ["p"; "n"; "ta"; "u0"; "u1"; "u2"; "u3"; "tri"; "boundingsphere"]%string.

Definition write_mesh_child (child_xml : Element) : res bytes :=
  o <- writeObject child_xml 3 ;;
  rest <-
    (if pystr_eqb (tag child_xml) (str_of "mesh") then
       props <- write_props mesh_props child_xml ;;
       aabb <- write_sub child_xml (str_of "aabb") 4 (map str_of ["min"; "max"]%string) ;;
       material <- write_sub child_xml (str_of "material") 4
                     (map str_of ["shader"; "diff"; "n"; "spec"]%string) ;;
       skin <- write_sub child_xml (str_of "skin") 4
                 (map str_of ["bones"; "ix"; "w"]%string) ;;
       Ok (props ++ aabb ++ material ++ skin)
     else if pystr_eqb (tag child_xml) (str_of "skeleton") then
       for_bytes (children child_xml) (fun bone_xml =>
         b <- writeObject bone_xml 4 ;;
         p <- write_props (map str_of ["ix"; "pa"; "tx"]%string) bone_xml ;;
         Ok (b ++ p))
     else Ok []) ;;
  Ok (o ++ rest).

Definition write_shape (shape_xml : Element) : res bytes :=
  o <- writeObject shape_xml 2 ;;
  p <- write_props [str_of "lod"] shape_xml ;;
  cs <- for_bytes (children shape_xml) write_mesh_child ;;
  Ok (o ++ p ++ cs).

Definition header : bytes := ["@"; "@"; "b"; "@"]%byte.

(** The [datastring] that [write_meshfile] has built when it reaches
    [open(filepath, "wb")]. *)
Definition mesh_datastring (root_xml : Element) : res bytes :=
  pdxasset <-
    (if pystr_eqb (tag root_xml) (str_of "File") then
       writeProperty (str_of "pdxasset") (get root_xml (str_of "pdxasset"))
     else Err (NotImplementedError UnknownXMLRoot)) ;;
  objects <-
    match find root_xml (str_of "object") with
    | Some object_xml =>
        o <- writeObject object_xml 1 ;;
        shapes <- for_bytes (children object_xml) write_shape ;;
        Ok (o ++ shapes)
    | None => Ok []
    end ;;
  locators <-
    match find root_xml (str_of "locator") with
    | Some locator_xml =>
        o <- writeObject locator_xml 1 ;;
        nodes <- for_bytes (children locator_xml) (fun locnode_xml =>
          n <- writeObject locnode_xml 2 ;;
          p <- write_props (map str_of ["p"; "q"; "pa"; "tx"]%string) locnode_xml ;;
          Ok (n ++ p)) ;;
        Ok (o ++ nodes)
    | None => Ok []
    end ;;
  Ok (header ++ pdxasset ++ objects ++ locators).

(** [write_meshfile(filepath, root_xml)]: the file is opened and written
    only once the whole [datastring] exists. *)
Definition write_meshfile (fs : filesystem) (filepath : string) (root_xml : Element)
  : filesystem * res unit :=
  match mesh_datastring root_xml with
  | Ok datastring => (fs_write fs filepath datastring, Ok tt)
  | Err e => (fs, Err e)
  | OutOfFuel => (fs, OutOfFuel)
  end.


(** *** The calls the writer makes

    [mesh_tokens root_xml] lists, in order, the [writeObject] and
    [writeProperty] calls of [write_meshfile] on a document whose root is
    tagged "File"; the bytes written are the results of these calls, one
    after the other. *)
Inductive token : Type :=
| TObject (xml : Element) (depth : nat)
| TProperty (name : pystr) (data : option (list pyval)).

Definition write_token (t : token) : res bytes :=
  match t with
  | TObject xml depth => writeObject xml depth
  | TProperty name data => writeProperty name data
  end.

Definition props_tokens (props : list pystr) (xml : Element) : list token :=
  flat_map (fun prop =>
    match get xml prop with
    | Some value => [TProperty prop (Some value)]
    | None => []
    end) props.

Definition sub_tokens (parent : Element) (name : pystr) (depth : nat) (props : list pystr)
  : list token :=
  match find parent name with
  | Some xml => TObject xml depth :: props_tokens props xml
  | None => []
  end.

Definition mesh_child_tokens (child_xml : Element) : list token :=
  TObject child_xml 3 ::
  (if pystr_eqb (tag child_xml) (str_of "mesh") then
     props_tokens mesh_props child_xml
     ++ sub_tokens child_xml (str_of "aabb") 4 (map str_of ["min"; "max"]%string)
     ++ sub_tokens child_xml (str_of "material") 4
          (map str_of ["shader"; "diff"; "n"; "spec"]%string)
     ++ sub_tokens child_xml (str_of "skin") 4 (map str_of ["bones"; "ix"; "w"]%string)
   else if pystr_eqb (tag child_xml) (str_of "skeleton") then
     flat_map (fun bone_xml =>
       TObject bone_xml 4 :: props_tokens (map str_of ["ix"; "pa"; "tx"]%string) bone_xml)
       (children child_xml)
   else []).

Definition shape_tokens (shape_xml : Element) : list token :=
  TObject shape_xml 2 :: props_tokens [str_of "lod"] shape_xml
  ++ flat_map mesh_child_tokens (children shape_xml).

Definition mesh_tokens (root_xml : Element) : list token :=
  TProperty (str_of "pdxasset") (get root_xml (str_of "pdxasset"))
  :: match find root_xml (str_of "object") with
     | Some object_xml => TObject object_xml 1 :: flat_map shape_tokens (children object_xml)
     | None => []
     end
  ++ match find root_xml (str_of "locator") with
     | Some locator_xml =>
         TObject locator_xml 1 ::
         flat_map (fun locnode_xml =>
           TObject locnode_xml 2
           :: props_tokens (map str_of ["p"; "q"; "pa"; "tx"]%string) locnode_xml)
           (children locator_xml)
     | None => []
     end.

(** ** Reading and parsing binary data *)

(** First loop of [parseObject]: the run of "[" bytes. *)
Fixpoint parseObject_depth (fuel : nat) (bdata : bytes) (objdepth pos : Z) : res (Z * Z) :=
  match fuel with
  | O => OutOfFuel
  | S fuel' =>
      b <- unpack_c bdata pos ;;
      c <- decode_c b ;;
      if (c =? 91)%N then parseObject_depth fuel' bdata (objdepth + 1) (pos + 1)
      else Ok (objdepth, pos)
  end.

(** Second loop of [parseObject]: the name, up to a zero byte. *)
Fixpoint parseObject_name (fuel : nat) (bdata : bytes) (obj_name : pystr) (pos : Z)
  : res (pystr * Z) :=
  match fuel with
  | O => OutOfFuel
  | S fuel' =>
      b <- unpack_b bdata pos ;;
      if negb (b =? 0) then
        c <- unpack_c bdata pos ;;
        parseObject_name fuel' bdata (obj_name ++ decode_latin1 [c]) (pos + 1)
      else Ok (obj_name, pos)
  end.

Definition parseObject (fuel : nat) (bdata : bytes) (pos : Z) : res (pystr * Z * Z) :=
  '(objdepth, pos) <- parseObject_depth fuel bdata 0 pos ;;
  '(obj_name, pos) <- parseObject_name fuel bdata [] pos ;;
  Ok (obj_name, objdepth, pos + 1).

Definition parseString (bdata : bytes) (pos length : Z) : res pystr :=
  val_tuple <- unpack_from (Z.to_nat length) bdata pos ;;
  let string := decode_latin1 val_tuple in
  match rev string with
  | [] => Err IndexError
  | c :: _ => if (c =? 0)%N then Ok (removelast string) else Ok string
  end.

(** Format ["f" * count]. *)
Definition unpack_fs (count : Z) (bdata : bytes) (offset : Z) : res (list pyfloat) :=
  let n := Z.to_nat count in
  bs <- unpack_from (4 * n) bdata offset ;;
  Ok (map unpack_f (chunks4 n bs)).

Definition parseData (bdata : bytes) (pos : Z) : res (list pyval * Z) :=
  b <- unpack_c bdata pos ;;
  datatype <- decode_c b ;;
  let pos := pos + 1 in
  datacount <- unpack_i bdata pos ;;
  let pos := pos + 4 in
  if (datatype =? 105)%N then
    val <- unpack_is datacount bdata pos ;;
    Ok (map PInt val, pos + 4 * datacount)
  else if (datatype =? 102)%N then
    val <- unpack_fs datacount bdata pos ;;
    Ok (map PFloat val, pos + 4 * datacount)
  else if (datatype =? 115)%N then
    str_data_length <- unpack_i bdata pos ;;
    let pos := pos + 4 in
    val <- parseString bdata pos str_data_length ;;
    Ok ([PStr val], pos + str_data_length)
  else Err (NotImplementedError UnknownDataTypeRead).

Definition parseProperty (bdata : bytes) (pos : Z) : res (pystr * list pyval * Z) :=
  let pos := pos + 1 in
  prop_name_length <- unpack_b bdata pos ;;
  let pos := pos + 1 in
  prop_name <- parseString bdata pos prop_name_length ;;
  let pos := pos + prop_name_length in
  '(prop_values, pos) <- parseData bdata pos ;;
  Ok (prop_name, prop_values, pos).

(** *** References into the document under construction *)

Fixpoint update_nth {A : Type} (i : nat) (f : A -> A) (l : list A) : list A :=
  match l, i with
  | [], _ => []
  | x :: l', O => f x :: l'
  | x :: l', S i' => x :: update_nth i' f l'
  end.

(** The element a path refers to, and the document after the element at a
    path has been mutated by [f]. *)
Fixpoint get_at (p : path) (e : Element) : option Element :=
  match p with
  | [] => Some e
  | i :: p' =>
      match nth_error (children e) i with
      | Some c => get_at p' c
      | None => None
      end
  end.

Fixpoint update_at (p : path) (f : Element -> Element) (e : Element) : Element :=
  match p with
  | [] => f e
  | i :: p' => mkElement (tag e) (attrib e) (update_nth i (update_at p' f) (children e))
  end.

Definition nchildren (p : path) (e : Element) : nat :=
  match get_at p e with
  | Some x => length (children x)
  | None => O
  end.

(** The local variables of [read_meshfile] inside its loop.  [created] is
    not a variable of the program: it records, for each object token read,
    its count of "[" bytes and the element made for it. *)
Record reader : Type := mkReader {
  file_element : Element;
  parent_element : path;
  depth_list : list path;
  current_depth : Z;
  pos : Z;
  created : list (Z * path)
}.

Definition last_error {A : Type} (l : list A) : option A :=
  match rev l with
  | [] => None
  | x :: _ => Some x
  end.

(** One iteration of the [while pos < eof] loop. *)
Definition read_step (fuel : nat) (fdata : bytes) (st : reader) : res reader :=
  b <- unpack_c fdata (pos st) ;;
  next_char <- decode_c b ;;
  if (next_char =? 91)%N then
    '(obj_name, depth, pos') <- parseObject fuel fdata (pos st) ;;
    '(depth_list', parent) <-
      (if negb (depth >? current_depth st) then
         let dl := firstn (Z.to_nat depth) (depth_list st) in
         match last_error dl with
         | Some p => Ok (dl, p)
         | None => Err IndexError
         end
       else Ok (depth_list st, parent_element st)) ;;
    let new_element := parent ++ [nchildren parent (file_element st)] in
    Ok {| file_element := update_at parent (append (mkElement obj_name [] [])) (file_element st);
          parent_element := new_element;
          depth_list := depth_list' ++ [new_element];
          current_depth := depth;
          pos := pos';
          created := created st ++ [(depth, new_element)] |}
  else if (next_char =? 33)%N then
    '(prop_name, prop_values, pos') <- parseProperty fdata (pos st) ;;
    Ok {| file_element := update_at (parent_element st) (set prop_name prop_values) (file_element st);
          parent_element := parent_element st;
          depth_list := depth_list st;
          current_depth := current_depth st;
          pos := pos';
          created := created st |}
  else Err (NotImplementedError UnknownObject).

Fixpoint read_loop (fuel : nat) (fdata : bytes) (st : reader) : res reader :=
  match fuel with
  | O => OutOfFuel
  | S fuel' =>
      if pos st <? Z.of_nat (length fdata) then
        st' <- read_step fuel' fdata st ;;
        read_loop fuel' fdata st'
      else Ok st
  end.

Definition read_init : reader :=
  {| file_element := mkElement (str_of "File") [] [];
     parent_element := [];
     depth_list := [[]];
     current_depth := 0;
     pos := 4;
     created := [] |}.

(** [read_meshfile] from the point where [fdata] holds the file content,
    with the final reader state. *)
Definition read_mesh_state (fuel : nat) (fdata : bytes) : res reader :=
  hdr <- unpack_from 4 fdata 0 ;;
  if list_eq_dec Byte.byte_eq_dec hdr header then read_loop fuel fdata read_init
  else Err (NotImplementedError UnknownFileHeader).

Definition read_mesh_data (fuel : nat) (fdata : bytes) : res Element :=
  st <- read_mesh_state fuel fdata ;; Ok (file_element st).

(** [read_meshfile(filepath)]: a missing file cannot be opened and an empty
    one cannot be mapped. *)
Definition read_meshfile (fuel : nat) (fs : filesystem) (filepath : string) : res Element :=
  match fs filepath with
  | None => Err IOError
  | Some [] => Err ValueError
  | Some fdata => read_mesh_data fuel fdata
  end.

(** ** Vocabulary of the properties *)

(** [at_suffix fdata pos rest]: the cursor [pos] is inside the buffer and
    [rest] is what lies from it to the end. *)
Definition at_suffix (fdata : bytes) (pos : Z) (rest : bytes) : Prop :=
  0 <= pos <= Z.of_nat (length fdata) /\ skipn (Z.to_nat pos) fdata = rest.

(** The bytes of a name that [parseObject] reads back: no zero byte, and a
    first byte that is ASCII and not the depth marker. *)
Definition name_bytes_ok (name : bytes) : Prop :=
  Forall (fun b => b <> x00) name /\
  match name with
  | [] => True
  | b :: _ => (Byte.to_N b < 128)%N /\ b <> "["%byte
  end.

Definition object_bytes (depth : nat) (name : bytes) : bytes :=
  repeat "["%byte depth ++ name ++ [x00].

(** A float that [struct] packs and reads back unchanged: a 32-bit value. *)
Definition f32_exact (x : pyfloat) : Prop :=
  match pack_f x with
  | Some bs => unpack_f bs = x
  | None => False
  end.

Definition int32 (z : Z) : Prop := -2147483648 <= z <= 2147483647.

Definition latin1 (s : pystr) : Prop := Forall (fun c => (c <= 255)%N) s.

(** The attribute values of the tree model: an array of 32-bit integers,
    an array of 32-bit floats, or one Latin-1 string; the 4-byte count and
    length fields bound the sizes. *)
Definition schema_value (v : list pyval) : Prop :=
  Z.of_nat (length v) <= 2147483647 /\
  ((exists zs, v = map PInt zs /\ Forall int32 zs) \/
   (exists xs, v = map PFloat xs /\ Forall f32_exact xs) \/
   (exists s, v = [PStr s] /\ latin1 s /\ Z.of_nat (length s) + 1 <= 2147483647)).

Definition nonempty_value (v : list pyval) : Prop :=
  schema_value v /\ v <> [].

(** A property name that the one-byte length can carry and that
    [parseString] gives back whole. *)
Definition prop_name_ok (name : pystr) : bool :=
  (1 <=? Z.of_nat (length name)) && (Z.of_nat (length name) <=? 127)
  && forallb (fun c => (c <=? 255)%N) name
  && negb (last name 0 =? 0)%N.

(** An object tag that [writeObject] accepts and [parseObject] gives back. *)
Definition tag_ok (t : pystr) : Prop :=
  Z.of_nat (length t) <= 63 /\
  Forall (fun c => (0 < c <= 255)%N) t /\
  match t with
  | [] => True
  | c :: _ => (c < 128)%N /\ c <> 91%N
  end.


(** *** Depth-first serialisation of a tree

    The token sequence of the file format for an arbitrary tree: each
    element as an object token at its nesting depth, then its attributes in
    the order the element holds them, then its children one level deeper. *)
Definition property_token (kv : pystr * list pyval) : token :=
  TProperty (fst kv) (Some (snd kv)).

Fixpoint tokens_of (depth : nat) (e : Element) : list token :=
  match e with
  | mkElement _ a cs =>
      TObject e depth :: map property_token a ++ flat_map (tokens_of (S depth)) cs
  end.

Definition document_tokens (root : Element) : list token :=
  map property_token (attrib root) ++ flat_map (tokens_of 1) (children root).

Definition attr_ok (kv : pystr * list pyval) : Prop :=
  prop_name_ok (fst kv) = true /\ nonempty_value (snd kv).

(** Elements whose tokens the reader gives back: readable tags, attribute
    names without repetition, non-empty values of the tree model. *)
#[warnings="-register-all"]
Inductive elem_ok : Element -> Prop :=
| elem_ok_intro (t : pystr) (a : list (pystr * list pyval)) (cs : list Element) :
    tag_ok t -> NoDup (map fst a) -> Forall attr_ok a -> Forall elem_ok cs ->
    elem_ok (mkElement t a cs).

(** Children read at depth [S d] are appended to the element [q]: [q] is
    entry [d] of [depth_list], and when the next object token does not
    shorten [depth_list], [q] is also its last entry and the current parent. *)
Definition under (st : reader) (d : nat) (q : path) : Prop :=
  nth_error (depth_list st) d = Some q /\
  (current_depth st < Z.of_nat (S d) ->
   parent_element st = q /\ length (depth_list st) = S d) /\
  get_at q (file_element st) <> None.

Definition extend (cs : list Element) (e : Element) : Element :=
  mkElement (tag e) (attrib e) (children e ++ cs).

Definition set_all (a : list (pystr * list pyval)) (e : Element) : Element :=
  fold_left (fun x kv => set (fst kv) (snd kv) x) a e.


(** The reader after an object token of depth [S d] named [name] that goes
    under [q], and after the properties [a] of the current parent. *)
Definition after_object (st : reader) (d : nat) (q : path) (name : pystr) (pos' : Z) : reader :=
  let new_element := q ++ [nchildren q (file_element st)] in
  {| file_element := update_at q (append (mkElement name [] [])) (file_element st);
     parent_element := new_element;
     depth_list := firstn (S d) (depth_list st) ++ [new_element];
     current_depth := Z.of_nat (S d);
     pos := pos';
     created := created st ++ [(Z.of_nat (S d), new_element)] |}.

Definition after_props (st : reader) (a : list (pystr * list pyval)) (pos' : Z) : reader :=
  {| file_element := update_at (parent_element st) (set_all a) (file_element st);
     parent_element := parent_element st;
     depth_list := depth_list st;
     current_depth := current_depth st;
     pos := pos';
     created := created st |}.


(** *** The mesh document schema

    The shape of a mesh document as the schema table gives it: which tags
    sit where, which attribute names each may carry, in which order the
    children come.  The order in which an element holds its attributes is
    free.  [value_ok] says which attribute values are admitted. *)
Section Schema.

Variable value_ok : list pyval -> Prop.

Definition attrs_in (props : list pystr) (e : Element) : Prop :=
  NoDup (map fst (attrib e)) /\
  incl (map fst (attrib e)) props /\
  Forall (fun kv => value_ok (snd kv)) (attrib e).

Definition leaf_ok (props : list pystr) (e : Element) : Prop :=
  tag_ok (tag e) /\ attrs_in props e /\ children e = [].

Definition tagged (name : string) (P : Element -> Prop) (e : Element) : Prop :=
  tag e = str_of name /\ P e.

Definition optional (P : Element -> Prop) (l : list Element) : Prop :=
  (length l <= 1)%nat /\ Forall P l.

Definition aabb_props : list pystr := map str_of ["min"; "max"]%string.
Definition material_props : list pystr := map str_of ["shader"; "diff"; "n"; "spec"]%string.
Definition skin_props : list pystr := map str_of ["bones"; "ix"; "w"]%string.
Definition bone_props : list pystr := map str_of ["ix"; "pa"; "tx"]%string.
Definition locnode_props : list pystr := map str_of ["p"; "q"; "pa"; "tx"]%string.

Definition mesh_ok (m : Element) : Prop :=
  tag m = str_of "mesh" /\ attrs_in mesh_props m /\
  exists aabbs materials skins,
    children m = aabbs ++ materials ++ skins /\
    optional (tagged "aabb" (leaf_ok aabb_props)) aabbs /\
    optional (tagged "material" (leaf_ok material_props)) materials /\
    optional (tagged "skin" (leaf_ok skin_props)) skins.

Definition skeleton_ok (s : Element) : Prop :=
  tag s = str_of "skeleton" /\ attrib s = [] /\ Forall (leaf_ok bone_props) (children s).

Definition shape_ok (s : Element) : Prop :=
  tag_ok (tag s) /\ attrs_in [str_of "lod"] s /\
  Forall (fun c => mesh_ok c \/ skeleton_ok c) (children s).

Definition object_ok (o : Element) : Prop :=
  attrib o = [] /\ Forall shape_ok (children o).

Definition locator_ok (l : Element) : Prop :=
  attrib l = [] /\ Forall (leaf_ok locnode_props) (children l).

Definition mesh_schema (root_xml : Element) : Prop :=
  tag root_xml = str_of "File" /\
  attrs_in [str_of "pdxasset"] root_xml /\
  get root_xml (str_of "pdxasset") <> None /\
  exists objects locators,
    children root_xml = objects ++ locators /\
    optional (tagged "object" object_ok) objects /\
    optional (tagged "locator" locator_ok) locators.

End Schema.

(** Two trees with the same tags, the same value under every attribute
    name, and the same children in the same order. *)
#[warnings="-register-all"]
Inductive same_tree : Element -> Element -> Prop :=
| same_tree_intro (t : pystr) (a a' : list (pystr * list pyval)) (cs cs' : list Element) :
    (forall k, dict_get a k = dict_get a' k) ->
    Forall2 same_tree cs cs' ->
    same_tree (mkElement t a cs) (mkElement t a' cs').

(** The element with its attributes put in the order of [props]. *)
Definition ordered_attrs (props : list pystr) (e : Element) : list (pystr * list pyval) :=
  flat_map (fun prop =>
    match get e prop with
    | Some value => [(prop, value)]
    | None => []
    end) props.

Definition ordered_leaf (props : list pystr) (e : Element) : Element :=
  mkElement (tag e) (ordered_attrs props e) [].

Definition sub_props (t : pystr) : list pystr :=
  if pystr_eqb t (str_of "aabb") then aabb_props
  else if pystr_eqb t (str_of "material") then material_props
  else skin_props.

Definition ordered_mesh_child (c : Element) : Element :=
  if pystr_eqb (tag c) (str_of "mesh") then
    mkElement (tag c) (ordered_attrs mesh_props c)
      (map (fun s => ordered_leaf (sub_props (tag s)) s) (children c))
  else
    mkElement (tag c) [] (map (ordered_leaf bone_props) (children c)).

Definition ordered_shape (s : Element) : Element :=
  mkElement (tag s) (ordered_attrs [str_of "lod"] s) (map ordered_mesh_child (children s)).

Definition ordered_top (c : Element) : Element :=
  if pystr_eqb (tag c) (str_of "object") then
    mkElement (tag c) [] (map ordered_shape (children c))
  else
    mkElement (tag c) [] (map (ordered_leaf locnode_props) (children c)).

(** The mesh document as the reader rebuilds it from what the writer
    wrote: same tree, attributes in the order of the schema. *)
Definition ordered_document (root_xml : Element) : Element :=
  mkElement (tag root_xml) (ordered_attrs [str_of "pdxasset"] root_xml)
    (map ordered_top (children root_xml)).


(** Two call sequences that write the same bytes call by call. *)
Definition same_written (l l' : list token) : Prop :=
  Forall2 (fun t t' => write_token t = write_token t') l l'.

(** What reading the tokens of [e] at depth [S d] does to a reader that
    appends under [q]. *)
Definition reads_element (e : Element) : Prop :=
  forall d q st fdata bs rest fuel,
    elem_ok e ->
    for_bytes (tokens_of (S d) e) write_token = Ok bs ->
    at_suffix fdata (pos st) (bs ++ rest) ->
    (length (bs ++ rest) < fuel)%nat ->
    under st d q ->
    exists fuel' st',
      (length rest < fuel')%nat /\
      read_loop fuel fdata st = read_loop fuel' fdata st' /\
      file_element st' = update_at q (append e) (file_element st) /\
      firstn (S d) (depth_list st') = firstn (S d) (depth_list st) /\
      Z.of_nat (S d) <= current_depth st' /\
      pos st' = pos st + Z.of_nat (length bs).

Definition reads_forest (es : list Element) : Prop :=
  forall d q st fdata bs rest fuel,
    Forall elem_ok es ->
    for_bytes (flat_map (tokens_of (S d)) es) write_token = Ok bs ->
    at_suffix fdata (pos st) (bs ++ rest) ->
    (length (bs ++ rest) < fuel)%nat ->
    under st d q ->
    exists fuel' st',
      (length rest < fuel')%nat /\
      read_loop fuel fdata st = read_loop fuel' fdata st' /\
      file_element st' = update_at q (extend es) (file_element st) /\
      firstn (S d) (depth_list st') = firstn (S d) (depth_list st) /\
      ((es = [] /\ st' = st) \/ Z.of_nat (S d) <= current_depth st') /\
      pos st' = pos st + Z.of_nat (length bs).

(** A list of attribute names of the schema: no repetition, each name fit
    for a property token. *)
Definition props_ok (props : list pystr) : Prop :=
  NoDup props /\ Forall (fun p => prop_name_ok p = true) props.

(** [e'] is [e] in schema order, and the reader gives it back. *)
Definition ordering (e e' : Element) : Prop := elem_ok e' /\ same_tree e e'.


(** *** States of the reading loop *)

(** The states in which the loop of [read_meshfile] can be at the top of an
    iteration: the initial one, and those that an iteration leaves. *)
Inductive reaches (fdata : bytes) : reader -> Prop :=
| reaches_init : reaches fdata read_init
| reaches_step (st : reader) (fuel : nat) (st' : reader) :
    reaches fdata st ->
    pos st < Z.of_nat (length fdata) ->
    read_step fuel fdata st = Ok st' ->
    reaches fdata st'.

(** The element made for the most recent object token, the root when no
    object token has been read. *)
Definition last_created (st : reader) : path :=
  match last_error (created st) with
  | Some (_, p) => p
  | None => []
  end.

(** Each depth is at most one more than the depth before it. *)
Fixpoint steps_by_one (prev : Z) (depths : list Z) : Prop :=
  match depths with
  | [] => True
  | d :: ds => d <= prev + 1 /\ steps_by_one d ds
  end.

(** The element of a log entry sits at the nesting level that the entry's
    count of "[" bytes gives. *)
Definition level_matches (entry : Z * path) : Prop :=
  Z.of_nat (length (snd entry)) = fst entry.

Definition ascii_byte (b : byte) : Prop := (Byte.to_N b < 128)%N.

(** The two places inside the loop where [NotImplementedError] is raised,
    seen from the buffer: a token whose first byte is ASCII and neither "["
    nor "!"; a property whose name can be read, whose data-type byte is
    ASCII and none of "i", "f", "s", and whose count can be read. *)
Definition bad_token (fdata : bytes) (st : reader) (why : not_implemented) : Prop :=
  (why = UnknownObject /\
   exists b, unpack_c fdata (pos st) = Ok b /\ ascii_byte b /\
             b <> "["%byte /\ b <> "!"%byte) \/
  (why = UnknownDataTypeRead /\
   unpack_c fdata (pos st) = Ok "!"%byte /\
   exists prop_name_length prop_name t datacount,
     unpack_b fdata (pos st + 1) = Ok prop_name_length /\
     parseString fdata (pos st + 1 + 1) prop_name_length = Ok prop_name /\
     unpack_c fdata (pos st + 1 + 1 + prop_name_length) = Ok t /\
     ascii_byte t /\ t <> "i"%byte /\ t <> "f"%byte /\ t <> "s"%byte /\
     unpack_i fdata (pos st + 1 + 1 + prop_name_length + 1) = Ok datacount).


(** ** Writing animation data *)

Definition write_anim_bone (bone_xml : Element) : res bytes :=
  b <- writeObject bone_xml 2 ;;
  p <- write_props (map str_of ["sa"; "t"; "q"; "s"]%string) bone_xml ;;
  Ok (b ++ p).

(** The [datastring] that [write_animfile] has built when it reaches
    [open(filepath, "wb")]. *)
Definition anim_datastring (root_xml : Element) : res bytes :=
  pdxasset <-
    (if pystr_eqb (tag root_xml) (str_of "File") then
       writeProperty (str_of "pdxasset") (get root_xml (str_of "pdxasset"))
     else Err (NotImplementedError UnknownXMLRoot)) ;;
  info <-
    match find root_xml (str_of "info") with
    | Some info_xml =>
        o <- writeObject info_xml 1 ;;
        p <- write_props (map str_of ["fps"; "sa"; "j"]%string) info_xml ;;
        bones <- for_bytes (children info_xml) write_anim_bone ;;
        Ok (o ++ p ++ bones)
    | None => Ok []
    end ;;
  samples <-
    match find root_xml (str_of "samples") with
    | Some samples_xml =>
        o <- writeObject samples_xml 1 ;;
        p <- write_props (map str_of ["t"; "q"; "s"]%string) samples_xml ;;
        Ok (o ++ p)
    | None => Ok []
    end ;;
  Ok (header ++ pdxasset ++ info ++ samples).

(** [write_animfile(filepath, root_xml)]. *)
Definition write_animfile (fs : filesystem) (filepath : string) (root_xml : Element)
  : filesystem * res unit :=
  match anim_datastring root_xml with
  | Ok datastring => (fs_write fs filepath datastring, Ok tt)
  | Err e => (fs, Err e)
  | OutOfFuel => (fs, OutOfFuel)
  end.

(** The calls of [write_animfile] on a document whose root is tagged
    "File". *)
Definition anim_info_props : list pystr := map str_of ["fps"; "sa"; "j"]%string.
Definition anim_bone_props : list pystr := map str_of ["sa"; "t"; "q"; "s"]%string.
Definition anim_samples_props : list pystr := map str_of ["t"; "q"; "s"]%string.

Definition anim_tokens (root_xml : Element) : list token :=
  TProperty (str_of "pdxasset") (get root_xml (str_of "pdxasset"))
  :: match find root_xml (str_of "info") with
     | Some info_xml =>
         TObject info_xml 1 :: props_tokens anim_info_props info_xml
         ++ flat_map (fun bone_xml =>
              TObject bone_xml 2 :: props_tokens anim_bone_props bone_xml)
              (children info_xml)
     | None => []
     end
  ++ sub_tokens root_xml (str_of "samples") 1 anim_samples_props.

(** The animation document schema: an [info] element with its bones, then
    a [samples] element. *)
Definition info_ok (i : Element) : Prop :=
  attrs_in nonempty_value anim_info_props i /\
  Forall (leaf_ok nonempty_value anim_bone_props) (children i).

Definition anim_schema (root_xml : Element) : Prop :=
  tag root_xml = str_of "File" /\
  attrs_in nonempty_value [str_of "pdxasset"] root_xml /\
  get root_xml (str_of "pdxasset") <> None /\
  exists infos samples,
    children root_xml = infos ++ samples /\
    optional (tagged "info" info_ok) infos /\
    optional (tagged "samples" (leaf_ok nonempty_value anim_samples_props)) samples.

Definition ordered_anim_top (c : Element) : Element :=
  if pystr_eqb (tag c) (str_of "info") then
    mkElement (tag c) (ordered_attrs anim_info_props c)
      (map (ordered_leaf anim_bone_props) (children c))
  else ordered_leaf anim_samples_props c.

Definition ordered_anim_document (root_xml : Element) : Element :=
  mkElement (tag root_xml) (ordered_attrs [str_of "pdxasset"] root_xml)
    (map ordered_anim_top (children root_xml)).

(** ** Vocabulary of further properties *)

(** How many more bytes a cursor that moves forward one byte at a time can
    read from [pos]: a negative position counts from the end and then runs
    through the whole buffer. *)
Definition scan_room (bdata : bytes) (pos : Z) : nat :=
  let len := Z.of_nat (length bdata) in
  if pos + len <? 0 then O else Z.to_nat (len - pos).

(** The values [parseData] can return: 32-bit integers, floats, or one
    Latin-1 string. *)
Definition decoded_value (v : list pyval) : Prop :=
  (exists zs, v = map PInt zs /\ Forall int32 zs) \/
  (exists xs, v = map PFloat xs) \/
  (exists s, v = [PStr s] /\ latin1 s).

(** Trees the reader can build: Latin-1 tags without NUL, no attribute name
    twice on an element, decoded values. *)
#[warnings="-register-all"]
Inductive decoded_ok : Element -> Prop :=
| decoded_ok_intro (t : pystr) (a : list (pystr * list pyval)) (cs : list Element) :
    Forall (fun c => (0 < c <= 255)%N) t ->
    NoDup (map fst a) ->
    Forall (fun kv => decoded_value (snd kv)) a ->
    Forall decoded_ok cs ->
    decoded_ok (mkElement t a cs).

(** The element of a log entry sits no deeper than the entry's count of
    "[" bytes, and below the root. *)
Definition level_bounded (entry : Z * path) : Prop :=
  1 <= Z.of_nat (length (snd entry)) <= fst entry.

(** An element with the attributes of the [object] and [locator] elements
    removed. *)
Definition without_root_attributes (e : Element) : Element :=
  if pystr_eqb (tag e) (str_of "object") || pystr_eqb (tag e) (str_of "locator")
  then mkElement (tag e) [] (children e)
  else e.


(** No data record that can be read from a position of the buffer moves
    the cursor backwards (as a record with a negative count may). *)
Definition data_advances (fdata : bytes) : bool :=
  forallb (fun i =>
             match parseData fdata (Z.of_nat i) with
             | Ok (_, pos') => Z.of_nat i <? pos'
             | _ => true
             end)
          (seq 0 (length fdata)).


(** *** Unknown tokens and complete tokens *)

(** The two places inside the loop where the program means to raise
    [NotImplementedError], whatever the offending byte is: a token whose
    first byte is neither "[" nor "!"; a property whose name and 4-byte
    count can be read and whose data-type byte is none of "i", "f", "s". *)
Definition unknown_token (fdata : bytes) (st : reader) (why : not_implemented) : Prop :=
  (why = UnknownObject /\
   exists b, unpack_c fdata (pos st) = Ok b /\ b <> "["%byte /\ b <> "!"%byte) \/
  (why = UnknownDataTypeRead /\
   unpack_c fdata (pos st) = Ok "!"%byte /\
   exists prop_name_length prop_name t datacount,
     unpack_b fdata (pos st + 1) = Ok prop_name_length /\
     parseString fdata (pos st + 1 + 1) prop_name_length = Ok prop_name /\
     unpack_c fdata (pos st + 1 + 1 + prop_name_length) = Ok t /\
     t <> "i"%byte /\ t <> "f"%byte /\ t <> "s"%byte /\
     unpack_i fdata (pos st + 1 + 1 + prop_name_length + 1) = Ok datacount).

(** The bytes of a data record that is all there: the type byte, the count,
    and for integers and floats four bytes for each of a count that is not
    negative (zero included), for a string a length of at least one and as
    many bytes. *)
Inductive data_record : bytes -> Prop :=
| record_ints (count payload : bytes) :
    length count = 4%nat -> 0 <= int_of_le32 count ->
    length payload = (4 * Z.to_nat (int_of_le32 count))%nat ->
    data_record ("i"%byte :: count ++ payload)
| record_floats (count payload : bytes) :
    length count = 4%nat -> 0 <= int_of_le32 count ->
    length payload = (4 * Z.to_nat (int_of_le32 count))%nat ->
    data_record ("f"%byte :: count ++ payload)
| record_string (count size field : bytes) :
    length count = 4%nat -> length size = 4%nat -> 1 <= int_of_le32 size ->
    length field = Z.to_nat (int_of_le32 size) ->
    data_record ("s"%byte :: count ++ size ++ field).

(** The bytes of a token that is all there: an object token with at least
    one "[" and a name that [parseObject] reads back, or a property token
    with a name of 1 to 127 bytes and a data record. *)
Inductive complete_token : bytes -> Prop :=
| complete_object (depth : nat) (name : bytes) :
    (1 <= depth)%nat -> name_bytes_ok name ->
    complete_token (object_bytes depth name)
| complete_property (name record : bytes) :
    (1 <= length name <= 127)%nat -> data_record record ->
    complete_token ("!"%byte :: byte_of_Z (Z.of_nat (length name)) :: name ++ record).

(** The number of "[" bytes a token begins with, and the counts of the
    object tokens of a token sequence. *)
Fixpoint markers (token : bytes) : nat :=
  match token with
  | b :: rest => if Byte.eqb b "["%byte then S (markers rest) else O
  | [] => O
  end.

Definition object_depths (tokens : list bytes) : list Z :=
  map Z.of_nat (filter (fun d => negb (d =? 0)%nat) (map markers tokens)).

End Codec.

(** ** Concrete documents and buffers

    They use [bits_packing], in which a float is named by its 32-bit
    pattern. *)
Definition bits_packing : FloatPacking.
Proof.
  refine {| pyfloat := Z; pack_f := bits_pack; unpack_f := bits_unpack |}.
  intros x bs. unfold bits_pack. destruct (_ && _); intros H; inversion H. reflexivity.
Defined.

Section Examples.

#[local] Existing Instance bits_packing.

Definition no_files : filesystem := fun _ => None.

(** A mesh document: one shape with a mesh (attributes not in schema
    order), its bounding box and material, and one locator. *)
Definition example_aabb : Element :=
  mkElement (str_of "aabb") [(str_of "min", [PFloat 0])] [].

Definition example_material : Element :=
  mkElement (str_of "material") [(str_of "shader", [PStr (str_of "PdxMeshStandard")])] [].

Definition example_mesh : Element :=
  mkElement (str_of "mesh")
    [(str_of "tri", [PInt 0; PInt 1; PInt (-2)]);
     (str_of "p", [PFloat 1065353216; PFloat 3212836864])]
    [example_aabb; example_material].

Definition example_object : Element :=
  mkElement (str_of "object") []
    [mkElement (str_of "shape") [(str_of "lod", [PInt 0])] [example_mesh]].

Definition example_locator : Element :=
  mkElement (str_of "locator") []
    [mkElement (str_of "loc1") [(str_of "pa", [PStr (str_of "root")])] []].

Definition example_document : Element :=
  mkElement (str_of "File") [(str_of "pdxasset", [PInt 1; PInt 0])]
    [example_object; example_locator].

(** A shape whose [lod] attribute is the empty array. *)
Definition empty_lod_object : Element :=
  mkElement (str_of "object") [] [mkElement (str_of "shape") [(str_of "lod", [])] []].

Definition empty_lod_document : Element :=
  mkElement (str_of "File") [(str_of "pdxasset", [PInt 1; PInt 0])] [empty_lod_object].

Definition empty_lod_bytes : bytes :=
  Eval vm_compute in
    match mesh_datastring empty_lod_document with Ok b => b | _ => [] end.

(** A mesh whose [tri] attribute is the empty array, with a bounding box. *)
Definition empty_tri_mesh : Element :=
  mkElement (str_of "mesh") [(str_of "tri", [])] [example_aabb].

Definition empty_tri_object : Element :=
  mkElement (str_of "object") [] [mkElement (str_of "shape") [] [empty_tri_mesh]].

Definition empty_tri_document : Element :=
  mkElement (str_of "File") [(str_of "pdxasset", [PInt 1; PInt 0])] [empty_tri_object].

Definition empty_tri_bytes : bytes :=
  Eval vm_compute in
    match mesh_datastring empty_tri_document with Ok b => b | _ => [] end.

(** A shape whose name has 64 characters. *)
Definition long_shape : Element := mkElement (repeat 97%N 64) [] [].

Definition long_document : Element :=
  mkElement (str_of "File") [(str_of "pdxasset", [PInt 1; PInt 0])]
    [mkElement (str_of "object") [] [long_shape]].

(** The header and the first byte of an object token. *)
Definition cut_buffer : bytes := header ++ ["["%byte].

(** The header and one object token of depth 2. *)
Definition deep_first_buffer : bytes :=
  header ++ object_bytes 2 ["a"%byte].

Definition deep_first_state : reader :=
  Eval vm_compute in
    match read_mesh_state 10 deep_first_buffer with Ok st => st | _ => read_init end.

(** Object tokens of depths 1, 2, 3, 2, 1. *)
Definition stepwise_buffer : bytes :=
  header ++ object_bytes 1 ["a"%byte] ++ object_bytes 2 ["b"%byte]
  ++ object_bytes 3 ["c"%byte] ++ object_bytes 2 ["d"%byte] ++ object_bytes 1 ["e"%byte].

Definition stepwise_state : reader :=
  Eval vm_compute in
    match read_mesh_state 30 stepwise_buffer with Ok st => st | _ => read_init end.

(** An object, a deeper object, an object back at depth 1, then a property. *)
Definition property_buffer : bytes :=
  header ++ object_bytes 1 ["a"%byte] ++ object_bytes 2 ["b"%byte]
  ++ object_bytes 1 ["c"%byte]
  ++ ["!"; x01; "x"; "i"; x01; x00; x00; x00; x07; x00; x00; x00]%byte.

Definition property_state_before : reader :=
  Eval vm_compute in
    match read_mesh_state 30 (header ++ object_bytes 1 ["a"%byte]
                              ++ object_bytes 2 ["b"%byte] ++ object_bytes 1 ["c"%byte])
    with Ok st => st | _ => read_init end.

Definition property_state_after : reader :=
  Eval vm_compute in
    match read_step 30 property_buffer property_state_before with
    | Ok st => st
    | _ => read_init
    end.


(** An animation document: two bones, attributes not in schema order. *)
Definition example_anim_info : Element :=
  mkElement (str_of "info")
    [(str_of "j", [PInt 2]); (str_of "fps", [PFloat 1097859072]); (str_of "sa", [PInt 3])]
    [mkElement (str_of "root")
       [(str_of "t", [PFloat 0; PFloat 1065353216; PFloat 0]);
        (str_of "sa", [PStr (str_of "tq")])] [];
     mkElement (str_of "spine") [(str_of "sa", [PStr (str_of "q")])] []].

Definition example_anim_samples : Element :=
  mkElement (str_of "samples")
    [(str_of "q", [PFloat 0; PFloat 0; PFloat 0; PFloat 1065353216]);
     (str_of "t", [PFloat 0; PFloat 1073741824; PFloat 0])] [].

Definition example_anim_document : Element :=
  mkElement (str_of "File") [(str_of "pdxasset", [PInt 1; PInt 0])]
    [example_anim_info; example_anim_samples].

(** The same document with the attributes of [samples] in the other order. *)
Definition reordered_anim_document : Element :=
  mkElement (str_of "File") [(str_of "pdxasset", [PInt 1; PInt 0])]
    [example_anim_info;
     mkElement (str_of "samples")
       [(str_of "t", [PFloat 0; PFloat 1073741824; PFloat 0]);
        (str_of "q", [PFloat 0; PFloat 0; PFloat 0; PFloat 1065353216])] []].

(** The header and a property "a" holding an integer array of count -2:
    the cursor after it is the cursor before it. *)
Definition rewinding_buffer : bytes :=
  header ++ ["!"; x01; "a"; "i"; xfe; xff; xff; xff]%byte.

(** The header and a property whose name-length byte is zero. *)
Definition nameless_buffer : bytes := header ++ ["!"; x00; "i"]%byte.

(** A field of four bytes that ends in two zero bytes. *)
Definition nul_ended_field : bytes := ["a"; "b"; x00; x00]%byte.

(** The property written for an empty [lod] array, then an object token. *)
Definition empty_lod_property : bytes := ["!"; x03; "l"; "o"; "d"]%byte.

Definition empty_lod_buffer : bytes := empty_lod_property ++ object_bytes 3 ["m"%byte].

(** A mesh document whose root has a second [object] after the locator. *)
Definition second_object : Element :=
  mkElement (str_of "object") []
    [mkElement (str_of "other") [(str_of "lod", [PInt 1])] []].

(** A root that is not tagged "File". *)
Definition wrong_root : Element :=
  mkElement (str_of "Mesh") [(str_of "pdxasset", [PInt 1; PInt 0])] [example_object].

Definition no_asset_root : Element := mkElement (str_of "File") [] [example_object].


(** A string record whose count field says 9: the length 3, then "ab" and
    a zero byte. *)
Definition counted_field : bytes := ["a"; "b"; x00]%byte.

Definition counted_string_record : bytes :=
  ["s"; x09; x00; x00; x00; x03; x00; x00; x00]%byte ++ counted_field.


(** Two property tokens of the root with the same name, the first with a
    count of zero. *)
Definition zero_count_token : bytes := ["!"; x01; "a"; "i"; x00; x00; x00; x00]%byte.

Definition repeated_name_token : bytes :=
  ["!"; x01; "a"; "i"; x01; x00; x00; x00; x07; x00; x00; x00]%byte.

Definition repeated_name_buffer : bytes :=
  header ++ concat [zero_count_token; repeated_name_token].

End Examples.

(** * Properties *)

(** ** Bytes and [struct] *)

Lemma Z_of_byte_range (b : byte) : 0 <= Z_of_byte b < 256.
Proof.
  unfold Z_of_byte. pose proof (Byte.to_N_bounded b). lia.
Qed.

Lemma byte_of_Z_of_byte (b : byte) : byte_of_Z (Z_of_byte b) = b.
Proof.
  unfold byte_of_Z. pose proof (Z_of_byte_range b) as R.
  rewrite Z.mod_small by exact R. unfold Z_of_byte.
  rewrite N2Z.id, Byte.of_to_N. reflexivity.
Qed.

Lemma Z_of_byte_of_Z (z : Z) : Z_of_byte (byte_of_Z z) = z mod 256.
Proof.
  unfold byte_of_Z, Z_of_byte.
  pose proof (Z.mod_pos_bound z 256 ltac:(lia)) as R.
  destruct (Byte.of_N (Z.to_N (z mod 256))) as [b|] eqn:E.
  - apply Byte.to_of_N in E. rewrite E. lia.
  - exfalso.
    pose proof (Byte.to_of_N_option_map (Z.to_N (z mod 256))) as M.
    rewrite E in M. simpl in M.
    destruct (N.leb_spec (Z.to_N (z mod 256)) 255); [discriminate | lia].
Qed.

Lemma le32_length (z : Z) : length (le32 z) = 4%nat.
Proof. reflexivity. Qed.

Lemma int_of_le32_le32 (z : Z) :
  -2147483648 <= z <= 2147483647 -> int_of_le32 (le32 z) = z.
Proof.
  intros R. unfold le32, int_of_le32. rewrite !Z_of_byte_of_Z.
  pose proof (Z.div_mod z 256 ltac:(lia)).
  pose proof (Z.mod_pos_bound z 256 ltac:(lia)).
  pose proof (Z.div_mod (z / 256) 256 ltac:(lia)).
  pose proof (Z.mod_pos_bound (z / 256) 256 ltac:(lia)).
  pose proof (Z.div_mod (z / 256 / 256) 256 ltac:(lia)).
  pose proof (Z.mod_pos_bound (z / 256 / 256) 256 ltac:(lia)).
  pose proof (Z.mod_pos_bound (z / 256 / 256 / 256) 256 ltac:(lia)).
  pose proof (Z.div_mod (z / 256 / 256 / 256) 256 ltac:(lia)).
  replace (z / 65536) with (z / 256 / 256) by (rewrite Z.div_div by lia; reflexivity).
  replace (z / 16777216) with (z / 256 / 256 / 256)
    by (rewrite !Z.div_div by lia; reflexivity).
  destruct (Z.ltb_spec
    (z mod 256 + 256 * ((z / 256) mod 256) + 65536 * ((z / 256 / 256) mod 256)
     + 16777216 * ((z / 256 / 256 / 256) mod 256)) 2147483648); lia.
Qed.

Lemma pack_i_ok (z : Z) :
  -2147483648 <= z <= 2147483647 -> pack_i z = Ok (le32 z).
Proof.
  intros R. unfold pack_i.
  destruct (Z.leb_spec (-2147483648) z); [|lia].
  destruct (Z.leb_spec z 2147483647); [|lia]. reflexivity.
Qed.

Lemma encode_latin1_decode (s : pystr) (bs : bytes) :
  encode_latin1 s = Ok bs -> decode_latin1 bs = s /\ length bs = length s.
Proof.
  revert bs. induction s as [|c s IH]; intros bs H; simpl in H.
  - inversion H. split; reflexivity.
  - destruct (Byte.of_N c) as [b|] eqn:E; [|discriminate].
    destruct (encode_latin1 s) as [bs'| |]; try discriminate.
    inversion H; subst. destruct (IH bs' eq_refl) as [D L].
    simpl. apply Byte.to_of_N in E. rewrite E, D, L. split; reflexivity.
Qed.

Lemma encode_latin1_total (s : pystr) :
  Forall (fun c => (c <= 255)%N) s -> exists bs, encode_latin1 s = Ok bs.
Proof.
  induction 1 as [|c s Hc _ [bs IH]]; simpl.
  - eexists; reflexivity.
  - pose proof (Byte.to_of_N_option_map c) as M.
    destruct (N.leb_spec c 255); [|lia].
    destruct (Byte.of_N c) as [b|]; [|discriminate].
    rewrite IH. eexists; reflexivity.
Qed.

Lemma decode_latin1_encode (bs : bytes) : encode_latin1 (decode_latin1 bs) = Ok bs.
Proof.
  induction bs as [|b bs IH]; simpl; [reflexivity|].
  rewrite Byte.of_to_N, IH. reflexivity.
Qed.

(** ** The [for] loops of the writer *)

Lemma for_bytes_app {A : Type} (l1 l2 : list A) (body : A -> res bytes) :
  for_bytes (l1 ++ l2) body =
  (a <- for_bytes l1 body ;; b <- for_bytes l2 body ;; Ok (a ++ b)).
Proof.
  induction l1 as [|x l1 IH]; simpl.
  - destruct (for_bytes l2 body); reflexivity.
  - destruct (body x) as [bx| |]; simpl; try reflexivity.
    rewrite IH. destruct (for_bytes l1 body) as [b1| |]; simpl; try reflexivity.
    destruct (for_bytes l2 body) as [b2| |]; simpl; try reflexivity.
    rewrite app_assoc. reflexivity.
Qed.

Lemma for_bytes_ext {A : Type} (l : list A) (f g : A -> res bytes) :
  (forall x, In x l -> f x = g x) -> for_bytes l f = for_bytes l g.
Proof.
  induction l as [|x l IH]; intros H; simpl; [reflexivity|].
  rewrite (H x (or_introl eq_refl)), IH; [reflexivity|].
  intros y Hy. apply H. right. exact Hy.
Qed.


Section CodecFacts.

Context {FP : FloatPacking}.

(** ** The writer *)

Lemma pystr_eqb_eq (a b : pystr) : pystr_eqb a b = true <-> a = b.
Proof.
  unfold pystr_eqb. destruct (pystr_eq_dec a b); split; congruence.
Qed.

Lemma pystr_eqb_refl (a : pystr) : pystr_eqb a a = true.
Proof. apply pystr_eqb_eq. reflexivity. Qed.

Lemma pystr_eqb_neq (a b : pystr) : a <> b -> pystr_eqb a b = false.
Proof.
  unfold pystr_eqb. destruct (pystr_eq_dec a b); congruence.
Qed.

Lemma writeData_empty : writeData (Some []) = Ok [].
Proof. reflexivity. Qed.

Lemma pack_b_ok (n : Z) : -128 <= n <= 127 -> pack_b n = Ok [byte_of_Z n].
Proof.
  intros R. unfold pack_b.
  destruct (Z.leb_spec (-128) n); [|lia].
  destruct (Z.leb_spec n 127); [|lia]. reflexivity.
Qed.

(** C10.  For a property whose value is the empty array and whose name fits
    the one-byte length and is Latin-1, [writeProperty] returns the "!"
    byte, the name length and the name bytes and nothing else: [writeData]
    gives the empty byte string for the empty array. *)
Theorem writeProperty_empty_array (prop_name : pystr) (name_bytes : bytes) :
  Z.of_nat (length prop_name) <= 127 ->
  encode_latin1 prop_name = Ok name_bytes ->
  writeData (Some []) = Ok [] /\
  writeProperty prop_name (Some []) =
    Ok ("!"%byte :: byte_of_Z (Z.of_nat (length prop_name)) :: name_bytes).
Proof.
  intros L E. split; [reflexivity|].
  unfold writeProperty, writeString.
  rewrite pack_b_ok by lia. rewrite E. simpl.
  rewrite app_nil_r. reflexivity.
Qed.

(** *** Mixed arrays *)



Lemma write_meshfile_failure (fs : filesystem) (filepath : string) (root_xml : Element) (e : pyerr) :
  mesh_datastring root_xml = Err e ->
  write_meshfile fs filepath root_xml = (fs, Err e).
Proof.
  intros H. unfold write_meshfile. rewrite H. reflexivity.
Qed.




(** *** The writer as a sequence of calls *)

Lemma for_bytes_flat_map {A B : Type} (f : A -> list B) (l : list A) (g : B -> res bytes) :
  for_bytes (flat_map f l) g = for_bytes l (fun x => for_bytes (f x) g).
Proof.
  induction l as [|x l IH]; simpl; [reflexivity|].
  rewrite for_bytes_app, IH. reflexivity.
Qed.

Lemma write_props_tokens (props : list pystr) (xml : Element) :
  write_props props xml = for_bytes (props_tokens props xml) write_token.
Proof.
  unfold write_props, props_tokens. rewrite for_bytes_flat_map.
  apply for_bytes_ext. intros prop _.
  destruct (get xml prop) as [v|]; simpl; [|reflexivity].
  destruct (writeProperty prop (Some v)); simpl; [|reflexivity..].
  rewrite app_nil_r. reflexivity.
Qed.

(** Solves an equation between two sequences of the same calls that differ
    in how the results are grouped. *)
Ltac same_calls :=
  cbn [bind];
  repeat match goal with
         | |- context [bind ?c _] =>
             lazymatch c with
             | bind _ _ => fail
             | _ => destruct c; cbn [bind]; try reflexivity
             end
         end;
  rewrite ?app_nil_r, <- ?app_assoc; try reflexivity.

Lemma write_sub_tokens (parent : Element) (name : pystr) (depth : nat) (props : list pystr) :
  write_sub parent name depth props =
  for_bytes (sub_tokens parent name depth props) write_token.
Proof.
  unfold write_sub, sub_tokens. destruct (find parent name) as [xml|]; [|reflexivity].
  cbn [for_bytes write_token]. rewrite write_props_tokens. reflexivity.
Qed.

Lemma write_mesh_child_tokens (child_xml : Element) :
  write_mesh_child child_xml = for_bytes (mesh_child_tokens child_xml) write_token.
Proof.
  unfold write_mesh_child, mesh_child_tokens.
  destruct (pystr_eqb (tag child_xml) (str_of "mesh")).
  - cbn [for_bytes write_token].
    rewrite !for_bytes_app, write_props_tokens, !write_sub_tokens.
    same_calls.
  - destruct (pystr_eqb (tag child_xml) (str_of "skeleton")).
    + cbn [for_bytes write_token]. rewrite for_bytes_flat_map.
      erewrite (for_bytes_ext (children child_xml)).
      * reflexivity.
      * intros bone _. cbn [for_bytes write_token].
        rewrite write_props_tokens. reflexivity.
    + cbn [for_bytes write_token]. same_calls.
Qed.

Lemma write_shape_tokens (shape_xml : Element) :
  write_shape shape_xml = for_bytes (shape_tokens shape_xml) write_token.
Proof.
  unfold write_shape, shape_tokens. cbn [for_bytes write_token].
  rewrite for_bytes_app, for_bytes_flat_map, write_props_tokens.
  erewrite (for_bytes_ext (children shape_xml) write_mesh_child)
    by (intros c _; apply write_mesh_child_tokens).
  same_calls.
Qed.

Lemma mesh_datastring_tokens (root_xml : Element) :
  tag root_xml = str_of "File" ->
  mesh_datastring root_xml =
  (bs <- for_bytes (mesh_tokens root_xml) write_token ;; Ok (header ++ bs)).
Proof.
  intros Ht. unfold mesh_datastring, mesh_tokens.
  rewrite Ht, pystr_eqb_refl.
  cbn [for_bytes write_token]. rewrite for_bytes_app.
  assert (S : forall object_xml,
             for_bytes (children object_xml) write_shape =
             for_bytes (flat_map shape_tokens (children object_xml)) write_token).
  { intros object_xml. rewrite for_bytes_flat_map.
    apply for_bytes_ext. intros c _. apply write_shape_tokens. }
  assert (L : forall locator_xml props,
             for_bytes (children locator_xml) (fun locnode_xml =>
               n <- writeObject locnode_xml 2 ;;
               p <- write_props props locnode_xml ;;
               Ok (n ++ p)) =
             for_bytes (flat_map (fun locnode_xml =>
               TObject locnode_xml 2 :: props_tokens props locnode_xml)
               (children locator_xml)) write_token).
  { intros locator_xml props. rewrite for_bytes_flat_map.
    apply for_bytes_ext. intros c _. cbn [for_bytes write_token].
    rewrite write_props_tokens. reflexivity. }
  destruct (find root_xml (str_of "object")) as [object_xml|];
    destruct (find root_xml (str_of "locator")) as [locator_xml|];
    cbn [for_bytes write_token]; rewrite ?S, ?L; same_calls.
Qed.


(** *** Calls that raise *)

Lemma encode_latin1_fuel (s : pystr) : encode_latin1 s <> OutOfFuel.
Proof.
  induction s as [|c s IH]; simpl; [discriminate|].
  destruct (Byte.of_N c); [|discriminate].
  destruct (encode_latin1 s); simpl; congruence.
Qed.

Lemma pack_i_fuel (z : Z) : pack_i z <> OutOfFuel.
Proof. unfold pack_i. destruct (_ && _); discriminate. Qed.

Lemma for_bytes_fuel {A : Type} (l : list A) (f : A -> res bytes) :
  (forall x, f x <> OutOfFuel) -> for_bytes l f <> OutOfFuel.
Proof.
  intros H. induction l as [|x l IH]; simpl; [discriminate|].
  specialize (H x). destruct (f x); simpl; try congruence.
  destruct (for_bytes l f); simpl; congruence.
Qed.

Lemma writeObject_fuel (xml : Element) (depth : nat) : writeObject xml depth <> OutOfFuel.
Proof.
  unfold writeObject, writeString. destruct (negb _); [discriminate|].
  pose proof (encode_latin1_fuel (tag xml)).
  destruct (encode_latin1 (tag xml)); simpl; congruence.
Qed.

Lemma writeData_fuel (data : option (list pyval)) : writeData data <> OutOfFuel.
Proof.
  unfold writeData. destruct data as [data|]; [|discriminate].
  destruct (nodup _ _) as [|t [|t' r]]; try discriminate.
  assert (P : forall z, pack_i z <> OutOfFuel) by apply pack_i_fuel.
  destruct (forallb is_int data).
  { pose proof (P (Z.of_nat (length data))).
    pose proof (for_bytes_fuel data pack_int) as F.
    destruct (pack_i _); simpl; try congruence.
    destruct (for_bytes data pack_int); simpl; try congruence.
    apply F. intros [z| | |]; simpl; try discriminate. apply P. }
  destruct (forallb is_float data).
  { pose proof (P (Z.of_nat (length data))).
    pose proof (for_bytes_fuel data pack_float) as F.
    destruct (pack_i _); simpl; try congruence.
    destruct (for_bytes data pack_float); simpl; try congruence.
    apply F. intros [z|x| |]; simpl; try discriminate.
    destruct (pack_f x); discriminate. }
  destruct (forallb is_str data); [|discriminate].
  destruct data as [|[z|x|s|] data]; try discriminate.
  unfold writeString.
  pose proof (P 1). pose proof (P (Z.of_nat (length s) + 1)).
  pose proof (encode_latin1_fuel s).
  destruct (pack_i 1); simpl; try congruence.
  destruct (pack_i _); simpl; try congruence.
  destruct (encode_latin1 s); simpl; congruence.
Qed.

Lemma writeProperty_fuel (name : pystr) (data : option (list pyval)) :
  writeProperty name data <> OutOfFuel.
Proof.
  unfold writeProperty, writeString, pack_b.
  pose proof (encode_latin1_fuel name). pose proof (writeData_fuel data).
  destruct (_ && _); simpl; [|discriminate].
  destruct (encode_latin1 name); simpl; try congruence.
  destruct (writeData data); simpl; congruence.
Qed.

Lemma write_token_fuel (t : token) : write_token t <> OutOfFuel.
Proof.
  destruct t; simpl; [apply writeObject_fuel | apply writeProperty_fuel].
Qed.

Lemma for_bytes_raises {A : Type} (l : list A) (f : A -> res bytes) (x : A) (e : pyerr) :
  (forall y, f y <> OutOfFuel) -> In x l -> f x = Err e ->
  exists e', for_bytes l f = Err e'.
Proof.
  intros NF. induction l as [|y l IH]; intros Hin Hx; [destruct Hin|].
  simpl. destruct Hin as [->|Hin].
  - rewrite Hx. simpl. eauto.
  - pose proof (NF y) as NFy. destruct (f y); simpl; [|eauto|congruence].
    destruct (IH Hin Hx) as [e' ->]. simpl. eauto.
Qed.

Lemma for_bytes_first_raise {A : Type} (pre post : list A) (f : A -> res bytes) (x : A) (e : pyerr) :
  Forall (fun y => exists bs, f y = Ok bs) pre -> f x = Err e ->
  for_bytes (pre ++ x :: post) f = Err e.
Proof.
  intros Hpre Hx. induction Hpre as [|y pre [bs Hy] _ IH]; simpl.
  - rewrite Hx. reflexivity.
  - rewrite Hy, IH. reflexivity.
Qed.

Lemma writeObject_long (xml : Element) (depth : nat) :
  64 <= Z.of_nat (length (tag xml)) ->
  writeObject xml depth = Err (NotImplementedError NameTooLong).
Proof.
  intros L. unfold writeObject.
  destruct (Z.ltb_spec (Z.of_nat (length (tag xml))) 64); [lia|]. reflexivity.
Qed.

Lemma writeObject_short (xml : Element) (depth : nat) :
  Z.of_nat (length (tag xml)) <= 63 ->
  Forall (fun c => (c <= 255)%N) (tag xml) ->
  exists name, encode_latin1 (tag xml) = Ok name /\
               writeObject xml depth = Ok (repeat "["%byte depth ++ name ++ [x00]).
Proof.
  intros L H. destruct (encode_latin1_total _ H) as [name E].
  exists name. split; [exact E|]. unfold writeObject, writeString.
  destruct (Z.ltb_spec (Z.of_nat (length (tag xml))) 64); [|lia].
  simpl. rewrite E. reflexivity.
Qed.

(** C8.  [writeObject] raises the name-length [NotImplementedError] on a tag
    of 64 characters or more and accepts every Latin-1 tag of at most 63.
    When one of the objects that [write_meshfile] encodes has such a tag,
    [write_meshfile] raises and leaves the file system as it was; the
    exception is the name-length one when the calls made before that object
    succeed. *)
Theorem long_tag_rejected (xml : Element) (depth : nat) :
  (64 <= Z.of_nat (length (tag xml)) ->
   writeObject xml depth = Err (NotImplementedError NameTooLong) /\
   (forall fs filepath root_xml,
       tag root_xml = str_of "File" ->
       In (TObject xml depth) (mesh_tokens root_xml) ->
       exists e, write_meshfile fs filepath root_xml = (fs, Err e)) /\
   (forall fs filepath root_xml pre post,
       tag root_xml = str_of "File" ->
       mesh_tokens root_xml = pre ++ TObject xml depth :: post ->
       Forall (fun t => exists bs, write_token t = Ok bs) pre ->
       write_meshfile fs filepath root_xml = (fs, Err (NotImplementedError NameTooLong)))) /\
  (Z.of_nat (length (tag xml)) <= 63 ->
   Forall (fun c => (c <= 255)%N) (tag xml) ->
   exists name, encode_latin1 (tag xml) = Ok name /\
                writeObject xml depth = Ok (repeat "["%byte depth ++ name ++ [x00])).
Proof.
  split; [|apply writeObject_short].
  intros L. pose proof (writeObject_long xml depth L) as W.
  split; [exact W|]. split.
  - intros fs filepath root_xml Ht Hin.
    destruct (for_bytes_raises (mesh_tokens root_xml) write_token (TObject xml depth)
                (NotImplementedError NameTooLong) write_token_fuel Hin W) as [e He].
    exists e. apply write_meshfile_failure.
    rewrite (mesh_datastring_tokens _ Ht), He. reflexivity.
  - intros fs filepath root_xml pre post Ht Htok Hpre.
    apply write_meshfile_failure.
    rewrite (mesh_datastring_tokens _ Ht), Htok.
    rewrite (for_bytes_first_raise pre post write_token (TObject xml depth) _ Hpre W).
    reflexivity.
Qed.

(** *** Attribute order *)

Lemma dict_get_not_in (d : list (pystr * list pyval)) (k : pystr) :
  ~ In k (map fst d) -> dict_get d k = None.
Proof.
  induction d as [|[k' v] d IH]; simpl; intros H; [reflexivity|].
  rewrite pystr_eqb_neq by tauto. apply IH. tauto.
Qed.

Lemma dict_get_perm (d d' : list (pystr * list pyval)) (k : pystr) :
  NoDup (map fst d) -> Permutation d d' -> dict_get d k = dict_get d' k.
Proof.
  intros ND P. induction P as [|[k1 v1] d d' P IH|[k1 v1] [k2 v2] d|d d' d'' P1 IH1 P2 IH2].
  - reflexivity.
  - simpl. inversion ND; subst. rewrite IH by assumption. reflexivity.
  - simpl in *. inversion ND as [|? ? N1 ND']; subst.
    destruct (pystr_eq_dec k1 k) as [->|]; destruct (pystr_eq_dec k2 k) as [->|].
    + exfalso. apply N1. left. reflexivity.
    + rewrite pystr_eqb_refl, pystr_eqb_neq by assumption. reflexivity.
    + rewrite pystr_eqb_refl, pystr_eqb_neq by assumption. reflexivity.
    + rewrite !pystr_eqb_neq by assumption. reflexivity.
  - rewrite IH1 by assumption. apply IH2.
    apply (Permutation_NoDup (l := map fst d)); [|assumption].
    apply Permutation_map. assumption.
Qed.

Lemma write_props_get (props : list pystr) (xml xml' : Element) :
  (forall k, get xml' k = get xml k) ->
  write_props props xml' = write_props props xml.
Proof.
  intros H. unfold write_props. apply for_bytes_ext.
  intros k _. rewrite H. reflexivity.
Qed.




(** ** The reader on the bytes of one token *)

Lemma at_suffix_length (fdata : bytes) (pos : Z) (rest : bytes) :
  at_suffix fdata pos rest -> Z.of_nat (length rest) = Z.of_nat (length fdata) - pos.
Proof.
  intros [R <-]. rewrite length_skipn. lia.
Qed.

Lemma at_suffix_advance (fdata : bytes) (pos : Z) (x rest : bytes) :
  at_suffix fdata pos (x ++ rest) ->
  at_suffix fdata (pos + Z.of_nat (length x)) rest.
Proof.
  intros H. pose proof (at_suffix_length _ _ _ H) as L.
  destruct H as [R E]. rewrite length_app in L. split; [lia|].
  replace (Z.to_nat (pos + Z.of_nat (length x))) with (length x + Z.to_nat pos)%nat by lia.
  rewrite <- skipn_skipn, E, skipn_app, skipn_all, Nat.sub_diag. reflexivity.
Qed.

Lemma at_suffix_next (fdata : bytes) (pos : Z) (b : byte) (rest : bytes) :
  at_suffix fdata pos (b :: rest) -> at_suffix fdata (pos + 1) rest.
Proof.
  intros H. apply (at_suffix_advance fdata pos [b] rest H).
Qed.

Lemma at_suffix_start (fdata : bytes) : at_suffix fdata 0 fdata.
Proof. split; [lia|reflexivity]. Qed.

Lemma unpack_from_at (fdata : bytes) (pos : Z) (x rest : bytes) :
  at_suffix fdata pos (x ++ rest) ->
  unpack_from (length x) fdata pos = Ok x.
Proof.
  intros H. pose proof (at_suffix_length _ _ _ H) as L.
  destruct H as [R E]. rewrite length_app in L. unfold unpack_from.
  assert (P : (pos <? 0) = false) by (apply Z.ltb_ge; lia).
  cbv zeta. rewrite P. cbv iota. rewrite P.
  destruct (Z.ltb_spec (Z.of_nat (length fdata) - pos) (Z.of_nat (length x))); [lia|].
  cbn [orb]. rewrite E, firstn_app, firstn_all, Nat.sub_diag. simpl.
  rewrite app_nil_r. reflexivity.
Qed.

Lemma unpack_c_at (fdata : bytes) (pos : Z) (b : byte) (rest : bytes) :
  at_suffix fdata pos (b :: rest) -> unpack_c fdata pos = Ok b.
Proof.
  intros H. unfold unpack_c.
  pose proof (unpack_from_at fdata pos [b] rest H) as U. simpl length in U.
  rewrite U. reflexivity.
Qed.

Lemma unpack_i_at (fdata : bytes) (pos z : Z) (rest : bytes) :
  -2147483648 <= z <= 2147483647 ->
  at_suffix fdata pos (le32 z ++ rest) -> unpack_i fdata pos = Ok z.
Proof.
  intros R H. unfold unpack_i.
  pose proof (unpack_from_at fdata pos (le32 z) rest H) as U.
  rewrite le32_length in U. rewrite U. cbn [bind].
  rewrite int_of_le32_le32 by exact R. reflexivity.
Qed.

Lemma at_suffix_end (fdata : bytes) (pos : Z) :
  at_suffix fdata pos [] -> pos = Z.of_nat (length fdata).
Proof.
  intros H. pose proof (at_suffix_length _ _ _ H) as L. simpl in L. lia.
Qed.

Lemma at_suffix_inside (fdata : bytes) (pos : Z) (b : byte) (rest : bytes) :
  at_suffix fdata pos (b :: rest) -> pos < Z.of_nat (length fdata).
Proof.
  intros H. pose proof (at_suffix_length _ _ _ H) as L. simpl length in L. lia.
Qed.

(** *** Object tokens *)

Lemma to_N_inj (a b : byte) : Byte.to_N a = Byte.to_N b -> a = b.
Proof.
  intros H. pose proof (Byte.of_to_N a) as A. rewrite H, Byte.of_to_N in A.
  congruence.
Qed.

Lemma parseObject_depth_at (depth : nat) :
  forall fuel fdata pos objdepth b rest,
    at_suffix fdata pos (repeat "["%byte depth ++ b :: rest) ->
    (Byte.to_N b < 128)%N -> b <> "["%byte ->
    (depth < fuel)%nat ->
    parseObject_depth fuel fdata objdepth pos =
      Ok (objdepth + Z.of_nat depth, pos + Z.of_nat depth).
Proof.
  induction depth as [|depth IH]; intros fuel fdata pos objdepth b rest H Hb Hn Hf;
    (destruct fuel as [|fuel]; [lia|]); simpl repeat in H; simpl parseObject_depth.
  - rewrite (unpack_c_at _ _ _ _ H). simpl bind. unfold decode_c.
    destruct (N.ltb_spec (Byte.to_N b) 128); [|lia]. simpl bind.
    destruct (N.eqb_spec (Byte.to_N b) 91) as [E|_].
    + exfalso. apply Hn. apply to_N_inj. exact E.
    + f_equal. f_equal; lia.
  - rewrite (unpack_c_at _ _ _ _ H). simpl bind.
    apply at_suffix_next in H.
    rewrite (IH fuel fdata (pos + 1) (objdepth + 1) b rest H Hb Hn ltac:(lia)).
    f_equal. f_equal; lia.
Qed.

Lemma signed_byte_zero (b : byte) : signed_byte b = 0 <-> b = x00.
Proof.
  unfold signed_byte. pose proof (Z_of_byte_range b) as R. split.
  - intros H. destruct (Z.ltb_spec (Z_of_byte b) 128); [|lia].
    rewrite <- (byte_of_Z_of_byte b), H. reflexivity.
  - intros ->. reflexivity.
Qed.

Lemma parseObject_name_at (name : bytes) :
  forall fuel fdata pos obj_name rest,
    at_suffix fdata pos (name ++ x00 :: rest) ->
    Forall (fun b => b <> x00) name ->
    (length name < fuel)%nat ->
    parseObject_name fuel fdata obj_name pos =
      Ok (obj_name ++ decode_latin1 name, pos + Z.of_nat (length name)).
Proof.
  induction name as [|b name IH]; intros fuel fdata pos obj_name rest H Hz Hf;
    (destruct fuel as [|fuel]; [simpl in Hf; lia|]); simpl app in H;
    simpl parseObject_name; unfold unpack_b.
  - rewrite (unpack_c_at _ _ _ _ H). simpl. rewrite app_nil_r.
    f_equal. f_equal. lia.
  - rewrite (unpack_c_at _ _ _ _ H). simpl bind.
    inversion Hz as [|? ? Hb Hz']; subst.
    destruct (Z.eqb_spec (signed_byte b) 0) as [E|_].
    { exfalso. apply Hb. apply signed_byte_zero. exact E. }
    simpl negb. cbv iota.
    apply at_suffix_next in H. simpl length in Hf.
    rewrite (IH fuel fdata (pos + 1) _ rest H Hz' ltac:(lia)).
    rewrite <- app_assoc. simpl. f_equal. f_equal. lia.
Qed.

Lemma parseObject_at (depth : nat) (name : bytes) (fuel : nat) (fdata : bytes) (pos : Z)
      (rest : bytes) :
  at_suffix fdata pos (object_bytes depth name ++ rest) ->
  name_bytes_ok name ->
  (length (object_bytes depth name) <= fuel)%nat ->
  parseObject fuel fdata pos =
    Ok (decode_latin1 name, Z.of_nat depth,
        pos + Z.of_nat (length (object_bytes depth name))).
Proof.
  intros H [Hz Hh] Hf. unfold object_bytes in *.
  rewrite !length_app, repeat_length in *. simpl length in *.
  rewrite <- !app_assoc in H. simpl app in H. unfold parseObject.
  assert (D : parseObject_depth fuel fdata 0 pos = Ok (Z.of_nat depth, pos + Z.of_nat depth)).
  { destruct name as [|b name]; simpl app in H.
    - apply (parseObject_depth_at depth fuel fdata pos 0 x00 rest H);
        [reflexivity | discriminate | lia].
    - destruct Hh as [Hb Hn].
      apply (parseObject_depth_at depth fuel fdata pos 0 b _ H Hb Hn). simpl in Hf. lia. }
  rewrite D. simpl bind.
  assert (H' := H).
  rewrite <- (repeat_length "["%byte depth) in H' at 1.
  pose proof (at_suffix_advance _ _ _ _ H) as H2. rewrite repeat_length in H2.
  rewrite (parseObject_name_at name fuel fdata _ [] rest H2 Hz ltac:(lia)).
  simpl. f_equal. f_equal. lia.
Qed.


(** *** Property tokens *)

Lemma to_N_zero (b : byte) : Byte.to_N b = 0%N <-> b = x00.
Proof.
  split; [|intros ->; reflexivity].
  intros H. apply to_N_inj. rewrite H. reflexivity.
Qed.

Lemma parseString_at (fdata : bytes) (pos : Z) (y : bytes) (b : byte) (rest : bytes) :
  at_suffix fdata pos ((y ++ [b]) ++ rest) ->
  parseString fdata pos (Z.of_nat (length (y ++ [b]))) =
    Ok (if Byte.byte_eq_dec b x00 then decode_latin1 y else decode_latin1 (y ++ [b])).
Proof.
  intros H. unfold parseString. rewrite Nat2Z.id.
  rewrite (unpack_from_at _ _ _ _ H). cbn [bind].
  assert (R : rev (decode_latin1 (y ++ [b])) = Byte.to_N b :: rev (decode_latin1 y)).
  { unfold decode_latin1. rewrite map_app, rev_app_distr. reflexivity. }
  rewrite R.
  destruct (N.eqb_spec (Byte.to_N b) 0) as [E|E].
  - apply to_N_zero in E. subst b.
    destruct (Byte.byte_eq_dec x00 x00); [|congruence].
    unfold decode_latin1. rewrite map_app. simpl map.
    rewrite removelast_last. reflexivity.
  - destruct (Byte.byte_eq_dec b x00) as [->|]; [|reflexivity].
    exfalso. apply E. reflexivity.
Qed.

Lemma chunks4_concat (bss : list bytes) :
  Forall (fun bs => length bs = 4%nat) bss ->
  chunks4 (length bss) (concat bss) = bss.
Proof.
  induction 1 as [|bs bss L _ IH]; [reflexivity|].
  cbn [chunks4 concat length].
  rewrite <- L, firstn_app, skipn_app, Nat.sub_diag, firstn_all, skipn_all.
  cbn [firstn skipn app]. rewrite app_nil_r, IH. reflexivity.
Qed.

Lemma length_concat4 (bss : list bytes) :
  Forall (fun bs => length bs = 4%nat) bss ->
  length (concat bss) = (4 * length bss)%nat.
Proof.
  induction 1 as [|bs bss L _ IH]; [reflexivity|].
  simpl concat. rewrite length_app, L, IH. simpl length. lia.
Qed.

Lemma unpack_chunks_at (fdata : bytes) (pos : Z) (bss : list bytes) (rest : bytes) :
  Forall (fun bs => length bs = 4%nat) bss ->
  at_suffix fdata pos (concat bss ++ rest) ->
  unpack_from (4 * Z.to_nat (Z.of_nat (length bss))) fdata pos = Ok (concat bss).
Proof.
  intros L H. rewrite Nat2Z.id, <- (length_concat4 bss L).
  apply (unpack_from_at _ _ _ _ H).
Qed.

Lemma unpack_is_at (fdata : bytes) (pos : Z) (zs : list Z) (rest : bytes) :
  Forall int32 zs ->
  at_suffix fdata pos (concat (map le32 zs) ++ rest) ->
  unpack_is (Z.of_nat (length zs)) fdata pos = Ok zs.
Proof.
  intros R H. unfold unpack_is.
  assert (L : Forall (fun bs => length bs = 4%nat) (map le32 zs)).
  { apply Forall_map. apply Forall_forall. intros z _. reflexivity. }
  pose proof (unpack_chunks_at fdata pos _ rest L H) as U.
  rewrite length_map in U. rewrite U. cbn [bind].
  rewrite Nat2Z.id. rewrite <- (length_map le32 zs), chunks4_concat by exact L.
  rewrite map_map. f_equal. clear H L U.
  induction R as [|z zs Rz _ IH]; [reflexivity|].
  cbn [map]. rewrite (int_of_le32_le32 z Rz), IH. reflexivity.
Qed.

Lemma unpack_fs_at (fdata : bytes) (pos : Z) (bss : list bytes) (rest : bytes) :
  Forall (fun bs => length bs = 4%nat) bss ->
  at_suffix fdata pos (concat bss ++ rest) ->
  unpack_fs (Z.of_nat (length bss)) fdata pos = Ok (map unpack_f bss).
Proof.
  intros L H. unfold unpack_fs.
  rewrite (unpack_chunks_at fdata pos _ rest L H). cbn [bind].
  rewrite Nat2Z.id, chunks4_concat by exact L. reflexivity.
Qed.

Lemma nodup_const {A : Type} (dec : forall a b : A, {a = b} + {a <> b}) (a : A) (l : list A) :
  l <> [] -> Forall (fun x => x = a) l -> nodup dec l = [a].
Proof.
  intros NE H. induction H as [|x l -> H IH]; [congruence|].
  simpl. destruct (in_dec dec a l) as [I|I].
  - apply IH. intros ->. destruct I.
  - destruct l as [|y l]; [reflexivity|].
    exfalso. apply I. inversion H; subst. left. reflexivity.
Qed.

Lemma for_bytes_pack_int (zs : list Z) :
  Forall int32 zs -> for_bytes (map PInt zs) pack_int = Ok (concat (map le32 zs)).
Proof.
  induction 1 as [|z zs Rz _ IH]; [reflexivity|].
  simpl. rewrite (pack_i_ok z Rz). cbn [bind]. rewrite IH. reflexivity.
Qed.

Lemma for_bytes_pack_float (xs : list pyfloat) :
  Forall f32_exact xs ->
  exists bss, for_bytes (map PFloat xs) pack_float = Ok (concat bss) /\
              Forall (fun bs => length bs = 4%nat) bss /\
              length bss = length xs /\ map unpack_f bss = xs.
Proof.
  induction 1 as [|x xs Hx _ (bss & E & L & N & U)].
  - exists []. repeat split; constructor.
  - unfold f32_exact in Hx. destruct (pack_f x) as [bs|] eqn:P; [|destruct Hx].
    exists (bs :: bss). simpl. rewrite P. cbn [bind]. rewrite E.
    repeat split.
    + constructor; [apply (pack_f_length x bs P) | exact L].
    + rewrite N. reflexivity.
    + rewrite Hx, U. reflexivity.
Qed.

Lemma forallb_map_const {A : Type} (f : A -> pyval) (p : pyval -> bool) (l : list A) (r : bool) :
  (forall a, p (f a) = r) -> l <> [] -> forallb p (map f l) = r.
Proof.
  intros H NE. destruct r.
  - apply forallb_forall. intros v Hv. apply in_map_iff in Hv.
    destruct Hv as (a & <- & _). apply H.
  - destruct l as [|a l]; [congruence|]. simpl. rewrite H. reflexivity.
Qed.

Lemma types_of_map {A : Type} (f : A -> pyval) (t : pytype) (l : list A) :
  (forall a, type_of (f a) = t) -> l <> [] ->
  nodup pytype_eq_dec (map type_of (map f l)) = [t].
Proof.
  intros H NE. apply nodup_const.
  - destruct l; [congruence|discriminate].
  - rewrite map_map. apply Forall_map, Forall_forall. intros a _. apply H.
Qed.

(** A non-empty value of the tree model is written, and what is written is
    read back as the same value. *)
Lemma writeData_parseData (v : list pyval) :
  nonempty_value v ->
  exists data,
    writeData (Some v) = Ok data /\
    forall fdata pos rest,
      at_suffix fdata pos (data ++ rest) ->
      parseData fdata pos = Ok (v, pos + Z.of_nat (length data)).
Proof.
  intros [[Hlen Hv] NE]. unfold writeData.
  destruct Hv as [(zs & -> & R)|[(xs & -> & R)|(s & -> & Ls & Hs)]].
  - (* integers *)
    assert (NEz : zs <> []) by (intros ->; apply NE; reflexivity).
    rewrite (types_of_map PInt TInt zs) by (auto || reflexivity).
    rewrite (forallb_map_const PInt is_int zs true) by (auto || reflexivity).
    rewrite length_map in *. rewrite pack_i_ok by (unfold int32; lia).
    cbn [bind]. rewrite (for_bytes_pack_int zs R). cbn [bind].
    eexists. split; [reflexivity|].
    intros fdata pos rest H. unfold parseData, pack_c in *.
    cbn [app] in H. rewrite <- app_assoc in H.
    rewrite (unpack_c_at _ _ _ _ H). cbn [bind].
    change (decode_c "i"%byte) with (Ok (A := N) 105%N). cbn [bind].
    apply at_suffix_next in H.
    rewrite (unpack_i_at _ _ (Z.of_nat (length zs)) _ ltac:(lia) H). cbn [bind].
    apply at_suffix_advance in H. rewrite le32_length in H.
    change (Z.of_nat 4) with 4 in H. change (105 =? 105)%N with true. cbv iota.
    rewrite (unpack_is_at _ _ _ _ R H). cbn [bind].
    f_equal. f_equal. cbn [length]. rewrite !length_app, le32_length.
    rewrite length_concat4 by (apply Forall_map, Forall_forall; reflexivity).
    rewrite length_map. cbn [length]. lia.
  - (* floats *)
    assert (NEx : xs <> []) by (intros ->; apply NE; reflexivity).
    rewrite (types_of_map PFloat TFloat xs) by (auto || reflexivity).
    rewrite (forallb_map_const PFloat is_int xs false) by (auto || reflexivity).
    rewrite (forallb_map_const PFloat is_float xs true) by (auto || reflexivity).
    rewrite length_map in *. rewrite pack_i_ok by (unfold int32; lia).
    cbn [bind]. destruct (for_bytes_pack_float xs R) as (bss & E & L & Nb & U).
    rewrite E. cbn [bind].
    eexists. split; [reflexivity|].
    intros fdata pos rest H. unfold parseData, pack_c in *.
    cbn [app] in H. rewrite <- app_assoc in H.
    rewrite (unpack_c_at _ _ _ _ H). cbn [bind].
    change (decode_c "f"%byte) with (Ok (A := N) 102%N). cbn [bind].
    apply at_suffix_next in H.
    rewrite (unpack_i_at _ _ (Z.of_nat (length xs)) _ ltac:(lia) H). cbn [bind].
    apply at_suffix_advance in H. rewrite le32_length in H.
    change (Z.of_nat 4) with 4 in H.
    change (102 =? 105)%N with false. change (102 =? 102)%N with true. cbv iota.
    rewrite <- Nb. rewrite (unpack_fs_at _ _ _ _ L H). cbn [bind].
    rewrite U. f_equal. f_equal. cbn [length]. rewrite !length_app, le32_length.
    rewrite (length_concat4 _ L). cbn [length]. lia.
  - (* one string *)
    cbn [map type_of nodup in_dec forallb is_int is_float is_str andb length].
    unfold writeString.
    destruct (encode_latin1_total s Ls) as [bs E].
    destruct (encode_latin1_decode s bs E) as [D Lb].
    rewrite !pack_i_ok by lia. cbn [bind]. rewrite E. cbn [bind].
    eexists. split; [reflexivity|].
    intros fdata pos rest H. unfold parseData, pack_c, pack_x in *.
    cbn [app] in H. rewrite <- !app_assoc in H.
    rewrite (unpack_c_at _ _ _ _ H). cbn [bind].
    change (decode_c "s"%byte) with (Ok (A := N) 115%N). cbn [bind].
    apply at_suffix_next in H.
    rewrite (unpack_i_at _ _ 1 _ ltac:(lia) H). cbn [bind].
    apply at_suffix_advance in H. rewrite le32_length in H.
    change (Z.of_nat 4) with 4 in H.
    change (115 =? 105)%N with false. change (115 =? 102)%N with false.
    change (115 =? 115)%N with true. cbv iota.
    rewrite (unpack_i_at _ _ (Z.of_nat (length s) + 1) _ ltac:(lia) H). cbn [bind].
    apply at_suffix_advance in H. rewrite le32_length in H.
    change (Z.of_nat 4) with 4 in H.
    rewrite app_assoc in H. rewrite <- Lb.
    replace (Z.of_nat (length bs) + 1) with (Z.of_nat (length (bs ++ [x00])))
      by (rewrite length_app; cbn [length]; lia).
    rewrite (parseString_at _ _ _ _ _ H). cbn [bind].
    destruct (Byte.byte_eq_dec x00 x00); [|congruence].
    rewrite D. f_equal. f_equal. cbn [length]. rewrite !length_app, !le32_length.
    cbn [length]. lia.
Qed.


Lemma signed_byte_small (n : Z) : 0 <= n <= 127 -> signed_byte (byte_of_Z n) = n.
Proof.
  intros R. unfold signed_byte. rewrite Z_of_byte_of_Z, Z.mod_small by lia.
  destruct (Z.ltb_spec n 128); lia.
Qed.

Lemma prop_name_ok_spec (name : pystr) :
  prop_name_ok name = true ->
  1 <= Z.of_nat (length name) <= 127 /\ latin1 name /\
  exists y c, name = y ++ [c] /\ c <> 0%N.
Proof.
  unfold prop_name_ok. rewrite !andb_true_iff, negb_true_iff.
  intros [[[L1 L2] F] Z0].
  apply Z.leb_le in L1. apply Z.leb_le in L2. split; [lia|]. split.
  - apply Forall_forall. intros c Hc.
    rewrite forallb_forall in F. apply N.leb_le. apply F. exact Hc.
  - destruct (exists_last (l := name)) as (y & c & E).
    + intros ->. simpl in L1. lia.
    + exists y, c. split; [exact E|]. subst name. rewrite last_last in Z0.
      apply N.eqb_neq. exact Z0.
Qed.

Lemma encode_latin1_app_inv (y : pystr) (c : N) (bs : bytes) :
  encode_latin1 (y ++ [c]) = Ok bs ->
  exists yb b, bs = yb ++ [b] /\ Byte.to_N b = c.
Proof.
  intros E. destruct (encode_latin1_decode _ _ E) as [D _].
  destruct (exists_last (l := bs)) as (yb & b & ->).
  - intros ->. destruct y; discriminate.
  - exists yb, b. split; [reflexivity|].
    unfold decode_latin1 in D. rewrite map_app in D. simpl in D.
    apply app_inj_tail in D. apply D.
Qed.

(** A property with a schema name and a non-empty value of the tree model
    is written as a token that begins with "!", and the token is read back
    as the same name and value. *)
Lemma writeProperty_parseProperty (name : pystr) (v : list pyval) :
  prop_name_ok name = true -> nonempty_value v ->
  exists tl,
    writeProperty name (Some v) = Ok ("!"%byte :: tl) /\
    forall fdata pos rest,
      at_suffix fdata pos (("!"%byte :: tl) ++ rest) ->
      parseProperty fdata pos = Ok (name, v, pos + Z.of_nat (length ("!"%byte :: tl))).
Proof.
  intros Hn Hv. destruct (prop_name_ok_spec name Hn) as (L & La & y & c & En & Hc).
  destruct (encode_latin1_total name La) as [nb E].
  destruct (encode_latin1_decode name nb E) as [D Lb].
  destruct (writeData_parseData v Hv) as (data & W & P).
  unfold writeProperty, writeString. rewrite pack_b_ok by lia.
  cbn [bind]. rewrite E. cbn [bind]. rewrite W. cbn [bind].
  unfold pack_c. cbn [app]. eexists. split; [reflexivity|].
  intros fdata pos rest H. unfold parseProperty, unpack_b.
  cbn [app] in H. rewrite <- !app_assoc in H.
  apply at_suffix_next in H. rewrite (unpack_c_at _ _ _ _ H). cbn [bind].
  rewrite signed_byte_small by lia. apply at_suffix_next in H.
  assert (E' := E). rewrite En in E'.
  destruct (encode_latin1_app_inv _ _ _ E') as (yb & b & -> & Hb).
  rewrite <- Lb. rewrite (parseString_at _ _ _ _ _ H). cbn [bind].
  destruct (Byte.byte_eq_dec b x00) as [->|_].
  { exfalso. apply Hc. rewrite <- Hb. reflexivity. }
  apply at_suffix_advance in H. rewrite (P _ _ _ H). cbn [bind].
  rewrite D. f_equal. f_equal. cbn [length]. rewrite !length_app. cbn [length]. lia.
Qed.

Lemma tag_ok_bytes (t : pystr) :
  tag_ok t ->
  exists name, encode_latin1 t = Ok name /\ name_bytes_ok name /\
               decode_latin1 name = t /\ length name = length t.
Proof.
  intros (L & F & Hh).
  assert (La : latin1 t).
  { unfold latin1. eapply Forall_impl; [|exact F]. simpl. intros; lia. }
  destruct (encode_latin1_total t La) as [name E].
  destruct (encode_latin1_decode t name E) as [D Ln].
  exists name. repeat split; try assumption.
  - subst t. unfold decode_latin1 in F. rewrite Forall_map in F.
    eapply Forall_impl; [|exact F]. simpl. intros b Hb ->. simpl in Hb. lia.
  - subst t. destruct name as [|b name]; [exact I|]. simpl in Hh.
    destruct Hh as [H1 H2]. split; [exact H1|]. intros ->. apply H2. reflexivity.
Qed.

Lemma writeObject_bytes (xml : Element) (depth : nat) (name : bytes) :
  Z.of_nat (length (tag xml)) <= 63 -> encode_latin1 (tag xml) = Ok name ->
  writeObject xml depth = Ok (object_bytes depth name).
Proof.
  intros L E. unfold writeObject, writeString, object_bytes, pack_x.
  destruct (Z.ltb_spec (Z.of_nat (length (tag xml))) 64); [|lia].
  cbn [negb]. rewrite E. reflexivity.
Qed.

(** ** References into the document *)

Lemma update_nth_ext {A : Type} (i : nat) (f g : A -> A) (l : list A) :
  (forall x, nth_error l i = Some x -> f x = g x) ->
  update_nth i f l = update_nth i g l.
Proof.
  revert i. induction l as [|x l IH]; intros [|i] H; simpl; try reflexivity.
  - rewrite (H x eq_refl). reflexivity.
  - rewrite (IH i); [reflexivity|]. intros y Hy. apply H. exact Hy.
Qed.

Lemma update_nth_compose {A : Type} (i : nat) (f g : A -> A) (l : list A) :
  update_nth i g (update_nth i f l) = update_nth i (fun x => g (f x)) l.
Proof.
  revert i. induction l as [|x l IH]; intros [|i]; simpl; try reflexivity.
  rewrite IH. reflexivity.
Qed.

Lemma nth_error_update_nth {A : Type} (i : nat) (f : A -> A) (l : list A) :
  nth_error (update_nth i f l) i = option_map f (nth_error l i).
Proof.
  revert i. induction l as [|x l IH]; intros [|i]; simpl; try reflexivity.
  apply IH.
Qed.

Lemma update_nth_last {A : Type} (f : A -> A) (l : list A) (x : A) :
  update_nth (length l) f (l ++ [x]) = l ++ [f x].
Proof.
  induction l as [|y l IH]; simpl; [reflexivity|]. rewrite IH. reflexivity.
Qed.

Lemma get_at_update_at (q : path) (f : Element -> Element) :
  forall T, get_at q (update_at q f T) = option_map f (get_at q T).
Proof.
  induction q as [|i q IH]; intros T; simpl; [reflexivity|].
  rewrite nth_error_update_nth.
  destruct (nth_error (children T) i) as [c|]; simpl; [apply IH | reflexivity].
Qed.

Lemma update_at_compose (q : path) (f g : Element -> Element) :
  forall T, update_at q g (update_at q f T) = update_at q (fun x => g (f x)) T.
Proof.
  induction q as [|i q IH]; intros T; simpl; [reflexivity|].
  rewrite update_nth_compose. f_equal.
  apply update_nth_ext. intros c _. apply IH.
Qed.

Lemma update_at_ext (q : path) (f g : Element -> Element) :
  (forall x, f x = g x) -> forall T, update_at q f T = update_at q g T.
Proof.
  intros H. induction q as [|i q IH]; intros T; simpl; [apply H|].
  f_equal. apply update_nth_ext. intros c _. apply IH.
Qed.

(** A mutation of the child just appended to [q] is the appending of the
    mutated child. *)
Lemma update_at_appended (q : path) (c : Element) (g : Element -> Element) :
  forall T,
    get_at q T <> None ->
    update_at (q ++ [nchildren q T]) g (update_at q (append c) T) =
    update_at q (append (g c)) T.
Proof.
  unfold nchildren. induction q as [|i q IH]; intros T V.
  - simpl. rewrite update_nth_last. reflexivity.
  - simpl in *. rewrite update_nth_compose. f_equal.
    destruct (nth_error (children T) i) as [x|] eqn:E; [|congruence].
    apply update_nth_ext. intros y Hy. rewrite E in Hy. inversion Hy; subst y.
    apply IH. exact V.
Qed.

Lemma nchildren_appended (q : path) (c : Element) (T : Element) :
  get_at q T <> None ->
  nchildren q (update_at q (append c) T) = S (nchildren q T).
Proof.
  intros V. unfold nchildren. rewrite get_at_update_at.
  destruct (get_at q T) as [x|]; [|congruence].
  simpl. rewrite length_app. simpl. lia.
Qed.

Lemma dict_set_fresh (d : list (pystr * list pyval)) (k : pystr) (v : list pyval) :
  ~ In k (map fst d) -> dict_set d k v = d ++ [(k, v)].
Proof.
  induction d as [|[k' v'] d IH]; simpl; intros H; [reflexivity|].
  rewrite pystr_eqb_neq by tauto. rewrite IH by tauto. reflexivity.
Qed.

Lemma set_all_fresh (a : list (pystr * list pyval)) :
  forall t a0 cs,
    NoDup (map fst (a0 ++ a)) ->
    set_all a (mkElement t a0 cs) = mkElement t (a0 ++ a) cs.
Proof.
  unfold set_all. induction a as [|[k v] a IH]; intros t a0 cs ND; simpl.
  - rewrite app_nil_r. reflexivity.
  - unfold set at 2. simpl. rewrite dict_set_fresh.
    + change ((k, v) :: a) with ([(k, v)] ++ a). rewrite app_assoc.
      apply IH. rewrite <- app_assoc. exact ND.
    + rewrite map_app in ND. simpl in ND. apply NoDup_remove_2 in ND.
      intros H. apply ND. apply in_or_app. left. exact H.
Qed.


Lemma update_at_id (q : path) (f : Element -> Element) :
  (forall x, f x = x) -> forall T, update_at q f T = T.
Proof.
  intros H. induction q as [|i q IH]; intros T; simpl; [apply H|].
  destruct T as [t a cs]. simpl. f_equal.
  clear -IH. revert i. induction cs as [|c cs IHc]; intros [|i]; simpl; try reflexivity.
  - rewrite IH. reflexivity.
  - rewrite IHc. reflexivity.
Qed.

Lemma get_at_appended (q : path) (c : Element) :
  forall T, get_at q T <> None ->
            get_at (q ++ [nchildren q T]) (update_at q (append c) T) = Some c.
Proof.
  unfold nchildren. induction q as [|i q IH]; intros T V.
  - simpl. rewrite nth_error_app2 by lia. rewrite Nat.sub_diag. reflexivity.
  - simpl in *. rewrite nth_error_update_nth.
    destruct (nth_error (children T) i) as [x|]; [|congruence].
    simpl. apply IH. exact V.
Qed.

Lemma last_error_snoc {A : Type} (l : list A) (x : A) : last_error (l ++ [x]) = Some x.
Proof.
  unfold last_error. rewrite rev_app_distr. reflexivity.
Qed.

Lemma firstn_S_nth {A : Type} (l : list A) (d : nat) (x : A) :
  nth_error l d = Some x -> firstn (S d) l = firstn d l ++ [x].
Proof.
  revert d. induction l as [|y l IH]; intros [|d] H; simpl in *; try discriminate.
  - inversion H. reflexivity.
  - rewrite <- (IH d H). reflexivity.
Qed.

Lemma nth_error_length {A : Type} (l : list A) (d : nat) (x : A) :
  nth_error l d = Some x -> (d < length l)%nat.
Proof.
  intros H. apply nth_error_Some. congruence.
Qed.

(** *** One iteration of the loop on a token *)

Lemma object_bytes_cons (d : nat) (name : bytes) :
  object_bytes (S d) name = "["%byte :: object_bytes d name.
Proof. reflexivity. Qed.

Lemma read_step_object (st : reader) (fdata : bytes) (d : nat) (q : path) (name : bytes)
      (rest : bytes) (fuel : nat) :
  at_suffix fdata (pos st) (object_bytes (S d) name ++ rest) ->
  name_bytes_ok name ->
  (length (object_bytes (S d) name) <= fuel)%nat ->
  under st d q ->
  read_step fuel fdata st =
    Ok (after_object st d q (decode_latin1 name)
          (pos st + Z.of_nat (length (object_bytes (S d) name)))).
Proof.
  intros H Hn Hf (Hq & Hp & _). unfold read_step.
  assert (H1 := H). rewrite object_bytes_cons in H1. cbn [app] in H1.
  rewrite (unpack_c_at _ _ _ _ H1). cbn [bind].
  change (decode_c "["%byte) with (Ok (A := N) 91%N). cbn [bind].
  change (91 =? 91)%N with true. cbv iota.
  rewrite (parseObject_at _ _ _ _ _ _ H Hn Hf). cbn [bind].
  unfold after_object.
  destruct (Z.gtb_spec (Z.of_nat (S d)) (current_depth st)) as [G|G]; cbn [negb].
  - destruct (Hp ltac:(lia)) as [-> L]. cbn [bind].
    rewrite firstn_all2 by lia. reflexivity.
  - rewrite Nat2Z.id. rewrite (firstn_S_nth _ _ _ Hq), last_error_snoc. reflexivity.
Qed.

Lemma read_step_property (st : reader) (fdata : bytes) (name : pystr) (v : list pyval)
      (tl rest : bytes) (fuel : nat) :
  prop_name_ok name = true -> nonempty_value v ->
  writeProperty name (Some v) = Ok ("!"%byte :: tl) ->
  at_suffix fdata (pos st) (("!"%byte :: tl) ++ rest) ->
  read_step fuel fdata st =
    Ok (after_props st [(name, v)] (pos st + Z.of_nat (length ("!"%byte :: tl)))).
Proof.
  intros Hn Hv W H.
  destruct (writeProperty_parseProperty name v Hn Hv) as (tl' & W' & P).
  rewrite W in W'. inversion W'; subst tl'.
  unfold read_step. assert (H1 := H). cbn [app] in H1.
  rewrite (unpack_c_at _ _ _ _ H1). cbn [bind].
  change (decode_c "!"%byte) with (Ok (A := N) 33%N). cbn [bind].
  change (33 =? 91)%N with false. change (33 =? 33)%N with true. cbv iota.
  rewrite (P _ _ _ H). reflexivity.
Qed.

Lemma for_bytes_app_ok {A : Type} (l1 l2 : list A) (f : A -> res bytes) (bs : bytes) :
  for_bytes (l1 ++ l2) f = Ok bs ->
  exists b1 b2, for_bytes l1 f = Ok b1 /\ for_bytes l2 f = Ok b2 /\ bs = b1 ++ b2.
Proof.
  rewrite for_bytes_app. destruct (for_bytes l1 f) as [b1| |]; try discriminate.
  destruct (for_bytes l2 f) as [b2| |]; try discriminate.
  simpl. intros H. inversion H. eauto.
Qed.

Lemma for_bytes_cons_ok {A : Type} (x : A) (l : list A) (f : A -> res bytes) (bs : bytes) :
  for_bytes (x :: l) f = Ok bs ->
  exists b1 b2, f x = Ok b1 /\ for_bytes l f = Ok b2 /\ bs = b1 ++ b2.
Proof.
  simpl. destruct (f x) as [b1| |]; try discriminate.
  destruct (for_bytes l f) as [b2| |]; try discriminate.
  simpl. intros H. inversion H. eauto.
Qed.

Lemma read_loop_step (fuel : nat) (fdata : bytes) (st st' : reader) (b : byte) (rest : bytes) :
  at_suffix fdata (pos st) (b :: rest) ->
  read_step fuel fdata st = Ok st' ->
  read_loop (S fuel) fdata st = read_loop fuel fdata st'.
Proof.
  intros H E. simpl. pose proof (at_suffix_inside _ _ _ _ H) as L.
  destruct (Z.ltb_spec (pos st) (Z.of_nat (length fdata))); [|lia].
  rewrite E. reflexivity.
Qed.

(** *** The properties of the current parent *)

Lemma read_props_loop (a : list (pystr * list pyval)) :
  forall st fdata bs rest fuel,
    Forall attr_ok a ->
    for_bytes (map property_token a) write_token = Ok bs ->
    at_suffix fdata (pos st) (bs ++ rest) ->
    (length (bs ++ rest) < fuel)%nat ->
    exists fuel',
      (length rest < fuel')%nat /\
      read_loop fuel fdata st =
      read_loop fuel' fdata (after_props st a (pos st + Z.of_nat (length bs))).
Proof.
  induction a as [|[k v] a IH]; intros st fdata bs rest fuel Ha W H Hf.
  - simpl in W. inversion W; subst bs. exists fuel. split; [exact Hf|].
    f_equal. unfold after_props. destruct st as [T pp dl cd p cr]. simpl.
    rewrite update_at_id by reflexivity. f_equal. lia.
  - inversion Ha as [|? ? [Hk Hv] Ha']; subst.
    cbn [map] in W. apply for_bytes_cons_ok in W.
    destruct W as (b1 & b2 & W1 & W2 & ->). cbn [property_token write_token fst snd] in W1.
    destruct (writeProperty_parseProperty k v Hk Hv) as (tl & W1' & _).
    rewrite W1 in W1'. inversion W1'; subst b1.
    rewrite <- app_assoc in H.
    destruct fuel as [|fuel]; [lia|].
    pose proof (read_step_property st fdata k v tl (b2 ++ rest) fuel Hk Hv W1 H) as S1.
    rewrite (read_loop_step fuel fdata st _ "!"%byte (tl ++ b2 ++ rest) H S1).
    apply at_suffix_advance in H.
    destruct (IH (after_props st [(k, v)] (pos st + Z.of_nat (length ("!"%byte :: tl))))
                fdata b2 rest fuel Ha' W2 H) as (fuel' & Hf' & E).
    { rewrite !length_app in *. cbn [length] in *. lia. }
    exists fuel'. split; [exact Hf'|]. rewrite E. f_equal.
    unfold after_props. cbn [file_element parent_element depth_list current_depth pos created].
    rewrite update_at_compose. f_equal. rewrite length_app. lia.
Qed.


(** ** The reader on the serialisation of a tree *)

Lemma Element_nested_ind (P : Element -> Prop) :
  (forall t a cs, Forall P cs -> P (mkElement t a cs)) ->
  forall e, P e.
Proof.
  intros H. fix IH 1. intros [t a cs]. apply H.
  induction cs as [|c cs IHcs]; constructor; [apply IH | exact IHcs].
Qed.

Lemma nth_error_firstn_lt {A : Type} (l : list A) (n i : nat) :
  (i < n)%nat -> nth_error (firstn n l) i = nth_error l i.
Proof.
  revert n i. induction l as [|x l IH]; intros [|n] [|i] H; simpl; try reflexivity; try lia.
  apply IH. lia.
Qed.

Lemma firstn_prefix {A : Type} (l l' : list A) (n m : nat) :
  (n <= m)%nat -> firstn m l = firstn m l' -> firstn n l = firstn n l'.
Proof.
  intros L H.
  rewrite <- (Nat.min_l n m L), <- !firstn_firstn, H. reflexivity.
Qed.

Lemma firstn_app_exact {A : Type} (l r : list A) (n : nat) :
  length l = n -> firstn n (l ++ r) = l.
Proof.
  intros <-. rewrite firstn_app, Nat.sub_diag, firstn_all. simpl.
  apply app_nil_r.
Qed.

Lemma under_after (st st' : reader) (d : nat) (q : path) (f : Element -> Element) :
  under st d q ->
  file_element st' = update_at q f (file_element st) ->
  firstn (S d) (depth_list st') = firstn (S d) (depth_list st) ->
  Z.of_nat (S d) <= current_depth st' ->
  under st' d q.
Proof.
  intros (Hq & _ & V) HT Hd Hc. repeat split.
  - rewrite <- (nth_error_firstn_lt _ (S d)) by lia.
    rewrite Hd, nth_error_firstn_lt by lia. exact Hq.
  - lia.
  - lia.
  - rewrite HT, get_at_update_at. destruct (get_at q (file_element st)); [discriminate|congruence].
Qed.

Lemma read_forest (es : list Element) : Forall reads_element es -> reads_forest es.
Proof.
  induction 1 as [|e es He _ IH]; intros d q st fdata bs rest fuel Hok W H Hf U.
  - simpl in W. inversion W; subst bs. exists fuel, st.
    repeat split; try assumption; try lia.
    + rewrite update_at_id; [reflexivity|]. intros [t a cs]. unfold extend. simpl.
      rewrite app_nil_r. reflexivity.
    + left. split; reflexivity.
    + simpl. lia.
  - inversion Hok as [|? ? Hoe Hoes]; subst.
    cbn [flat_map] in W. apply for_bytes_app_ok in W.
    destruct W as (b1 & b2 & W1 & W2 & ->). rewrite <- app_assoc in H.
    destruct (He d q st fdata b1 (b2 ++ rest) fuel Hoe W1 H) as
      (fuel1 & st1 & Hf1 & E1 & T1 & D1 & C1 & P1); [rewrite app_assoc; exact Hf | exact U |].
    pose proof (under_after st st1 d q _ U T1 D1 C1) as U1.
    apply at_suffix_advance in H. rewrite <- P1 in H.
    destruct (IH d q st1 fdata b2 rest fuel1 Hoes W2 H Hf1 U1) as
      (fuel2 & st2 & Hf2 & E2 & T2 & D2 & C2 & P2).
    exists fuel2, st2. repeat split.
    + exact Hf2.
    + rewrite E1. exact E2.
    + rewrite T2, T1, update_at_compose. apply update_at_ext.
      intros [t a cs]. unfold extend, append. simpl. rewrite <- app_assoc. reflexivity.
    + rewrite D2. exact D1.
    + right. destruct C2 as [[_ ->]|C2]; assumption.
    + rewrite P2, P1, length_app. lia.
Qed.

Lemma under_child (st : reader) (d : nat) (q : path) (name : pystr)
      (a : list (pystr * list pyval)) (p1 p2 : Z) :
  under st d q ->
  under (after_props (after_object st d q name p1) a p2) (S d)
        (q ++ [nchildren q (file_element st)]).
Proof.
  intros (Hq & _ & V). pose proof (nth_error_length _ _ _ Hq) as L.
  unfold under, after_props, after_object.
  cbn [file_element parent_element depth_list current_depth pos created].
  assert (Lf : length (firstn (S d) (depth_list st)) = S d)
    by (rewrite length_firstn; lia).
  repeat split.
  - rewrite nth_error_app2 by lia. rewrite Lf, Nat.sub_diag. reflexivity.
  - rewrite length_app, Lf. simpl. lia.
  - rewrite get_at_update_at, get_at_appended by exact V. discriminate.
Qed.

Lemma read_element (e : Element) : reads_element e.
Proof.
  induction e as [t a cs IHcs] using Element_nested_ind.
  intros d q st fdata bs rest fuel Hok W H Hf U.
  inversion Hok as [? ? ? Ht ND Ha Hcs]; subst.
  cbn [tokens_of] in W. apply for_bytes_cons_ok in W.
  destruct W as (bo & b' & Wo & W' & ->).
  apply for_bytes_app_ok in W'. destruct W' as (bp & bc & Wp & Wc & ->).
  cbn [write_token] in Wo.
  destruct (tag_ok_bytes t Ht) as (name & En & Hn & Dn & Ln).
  rewrite (writeObject_bytes (mkElement t a cs) (S d) name (proj1 Ht) En) in Wo.
  inversion Wo; subst bo. clear Wo.
  rewrite <- !app_assoc in H. rewrite !length_app in Hf.
  assert (Lo : (2 <= length (object_bytes (S d) name))%nat).
  { unfold object_bytes. rewrite !length_app. simpl. lia. }
  destruct fuel as [|fuel]; [lia|].
  (* the object token *)
  pose proof (read_step_object st fdata d q name (bp ++ bc ++ rest) fuel H Hn
                ltac:(lia) U) as S1.
  assert (H1 := H). rewrite object_bytes_cons in H1. cbn [app] in H1.
  rewrite (read_loop_step fuel fdata st _ _ _ H1 S1). clear H1 S1.
  rewrite Dn. apply at_suffix_advance in H.
  set (p1 := pos st + Z.of_nat (length (object_bytes (S d) name))) in *.
  set (st1 := after_object st d q t p1).
  (* its properties *)
  destruct (read_props_loop a st1 fdata bp (bc ++ rest) fuel Ha Wp H) as (fuel2 & Hf2 & E2).
  { rewrite !length_app. lia. }
  rewrite E2. clear E2.
  apply at_suffix_advance in H.
  set (p2 := pos st1 + Z.of_nat (length bp)) in *.
  set (st2 := after_props st1 a p2).
  (* its children *)
  pose proof (under_child st d q t a p1 p2 U) as U2.
  destruct (read_forest cs IHcs (S d) _ st2 fdata bc rest fuel2 Hcs Wc H Hf2 U2) as
    (fuel3 & st3 & Hf3 & E3 & T3 & D3 & C3 & P3).
  exists fuel3, st3. destruct U as (Hq & Hp & V).
  pose proof (nth_error_length _ _ _ Hq) as L.
  assert (Lf : length (firstn (S d) (depth_list st)) = S d)
    by (rewrite length_firstn; lia).
  repeat split.
  - exact Hf3.
  - exact E3.
  - rewrite T3. unfold st2, st1, after_props, after_object.
    cbn [file_element parent_element depth_list current_depth pos created].
    rewrite update_at_compose, update_at_appended by exact V.
    rewrite (set_all_fresh a t [] []) by exact ND. reflexivity.
  - rewrite (firstn_prefix _ _ (S d) (S (S d)) ltac:(lia) D3).
    unfold st2, st1, after_props, after_object.
    cbn [file_element parent_element depth_list current_depth pos created].
    apply firstn_app_exact. exact Lf.
  - destruct C3 as [[_ ->]|C3].
    + unfold st2, st1, after_props, after_object. simpl. lia.
    + lia.
  - rewrite P3. unfold st2, p2, st1, p1, after_props, after_object.
    cbn [file_element parent_element depth_list current_depth pos created].
    rewrite !length_app. lia.
Qed.


Lemma read_loop_end (fuel : nat) (fdata : bytes) (st : reader) :
  (0 < fuel)%nat -> pos st = Z.of_nat (length fdata) ->
  read_loop fuel fdata st = Ok st.
Proof.
  intros Hf Hp. destruct fuel as [|fuel]; [lia|]. simpl.
  destruct (Z.ltb_spec (pos st) (Z.of_nat (length fdata))); [lia|]. reflexivity.
Qed.

Lemma read_mesh_state_header (fuel : nat) (bs : bytes) :
  read_mesh_state fuel (header ++ bs) = read_loop fuel (header ++ bs) read_init.
Proof.
  unfold read_mesh_state.
  pose proof (unpack_from_at (header ++ bs) 0 header bs (at_suffix_start _)) as U.
  change (length header) with 4%nat in U. rewrite U. cbn [bind].
  destruct (list_eq_dec Byte.byte_eq_dec header header); [reflexivity|congruence].
Qed.

Lemma at_suffix_header (bs : bytes) : at_suffix (header ++ bs) 4 bs.
Proof.
  apply (at_suffix_advance (header ++ bs) 0 header bs (at_suffix_start _)).
Qed.

(** The reader gives back every document whose elements are [elem_ok] from
    the header followed by the depth-first serialisation of the document. *)
Lemma read_document (t : pystr) (a : list (pystr * list pyval)) (cs : list Element)
      (bs : bytes) (fuel : nat) :
  NoDup (map fst a) -> Forall attr_ok a -> Forall elem_ok cs ->
  for_bytes (document_tokens (mkElement t a cs)) write_token = Ok bs ->
  (length bs < fuel)%nat ->
  read_mesh_data fuel (header ++ bs) = Ok (mkElement (str_of "File") a cs).
Proof.
  intros ND Ha Hcs W Hf. unfold read_mesh_data. rewrite read_mesh_state_header.
  unfold document_tokens in W. cbn [attrib children] in W.
  apply for_bytes_app_ok in W. destruct W as (bp & bc & Wp & Wc & ->).
  pose proof (at_suffix_header (bp ++ bc)) as H.
  change 4 with (pos read_init) in H.
  destruct (read_props_loop a read_init _ bp bc fuel Ha Wp H Hf) as (fuel1 & Hf1 & E1).
  rewrite E1. clear E1. apply at_suffix_advance in H.
  set (st1 := after_props read_init a (pos read_init + Z.of_nat (length bp))) in *.
  assert (U1 : under st1 0 []).
  { unfold under, st1, after_props. simpl. repeat split; discriminate. }
  rewrite <- (app_nil_r bc) in H at 2.
  destruct (read_forest cs (proj2 (Forall_forall _ _) (fun e _ => read_element e))
              0%nat [] st1 _ bc [] fuel1 Hcs Wc H) as
    (fuel2 & st2 & Hf2 & E2 & T2 & _ & _ & P2);
    [rewrite app_nil_r; exact Hf1 | exact U1 |].
  rewrite E2. rewrite read_loop_end.
  - cbn [bind]. rewrite T2. unfold st1, after_props. simpl.
    rewrite (set_all_fresh a (str_of "File") [] []) by exact ND. reflexivity.
  - lia.
  - rewrite P2. unfold st1, after_props, read_init. cbn [pos].
    rewrite !length_app. change (length header) with 4%nat. lia.
Qed.


(** ** The mesh writer and the depth-first serialisation *)

Lemma for_bytes_same (l l' : list token) :
  same_written l l' -> for_bytes l write_token = for_bytes l' write_token.
Proof.
  induction 1 as [|t t' l l' E _ IH]; simpl; [reflexivity|].
  rewrite E, IH. reflexivity.
Qed.

Lemma same_written_refl (l : list token) : same_written l l.
Proof. induction l; constructor; [reflexivity | assumption]. Qed.

Lemma same_written_app (l1 l1' l2 l2' : list token) :
  same_written l1 l1' -> same_written l2 l2' -> same_written (l1 ++ l2) (l1' ++ l2').
Proof. apply Forall2_app. Qed.

Lemma same_written_flat_map {A B : Type} (f : A -> list token) (g : B -> list token)
      (h : A -> B) (l : list A) :
  Forall (fun x => same_written (f x) (g (h x))) l ->
  same_written (flat_map f l) (flat_map g (map h l)).
Proof.
  induction 1 as [|x l Hx _ IH]; simpl; [constructor|].
  apply same_written_app; assumption.
Qed.

Lemma props_tokens_ordered (props : list pystr) (e : Element) :
  props_tokens props e = map property_token (ordered_attrs props e).
Proof.
  unfold props_tokens, ordered_attrs.
  induction props as [|p props IH]; simpl; [reflexivity|].
  rewrite map_app, IH. destruct (get e p); reflexivity.
Qed.

Lemma same_written_object (x y : Element) (d : nat) (l l' : list token) :
  tag x = tag y -> same_written l l' ->
  same_written (TObject x d :: l) (TObject y d :: l').
Proof.
  intros Ht H. constructor; [|exact H].
  simpl. unfold writeObject. rewrite Ht. reflexivity.
Qed.

Lemma same_written_leaf (props : list pystr) (e : Element) (d : nat) :
  same_written (TObject e d :: props_tokens props e) (tokens_of d (ordered_leaf props e)).
Proof.
  unfold ordered_leaf. cbn [tokens_of flat_map]. rewrite app_nil_r.
  apply same_written_object; [reflexivity|].
  rewrite props_tokens_ordered. apply same_written_refl.
Qed.

Lemma optional_cases (P : Element -> Prop) (l : list Element) :
  optional P l -> l = [] \/ exists x, l = [x] /\ P x.
Proof.
  intros [L F]. destruct l as [|x [|y l]]; [left; reflexivity | right | simpl in L; lia].
  exists x. split; [reflexivity|]. inversion F; assumption.
Qed.

Section SchemaFacts.

Variable value_ok : list pyval -> Prop.

Lemma sub_tokens_children (m : Element) :
  mesh_ok value_ok m ->
  sub_tokens m (str_of "aabb") 4 aabb_props
  ++ sub_tokens m (str_of "material") 4 material_props
  ++ sub_tokens m (str_of "skin") 4 skin_props
  = flat_map (fun s => TObject s 4 :: props_tokens (sub_props (tag s)) s) (children m).
Proof.
  intros (_ & _ & aabbs & materials & skins & Hc & Ha & Hm & Hs).
  unfold sub_tokens, find. rewrite Hc.
  destruct (optional_cases _ _ Ha) as [->|(a & -> & Ta & _)];
    destruct (optional_cases _ _ Hm) as [->|(b & -> & Tb & _)];
    destruct (optional_cases _ _ Hs) as [->|(c & -> & Tc & _)];
    cbn [app List.find flat_map]; unfold sub_props;
    rewrite ?Ta, ?Tb, ?Tc; cbn; rewrite ?app_nil_r, <- ?app_assoc; reflexivity.
Qed.

Lemma same_written_mesh_child (c : Element) :
  mesh_ok value_ok c \/ skeleton_ok value_ok c ->
  same_written (mesh_child_tokens c) (tokens_of 3 (ordered_mesh_child c)).
Proof.
  intros [Hm|Hs].
  - pose proof (sub_tokens_children c Hm) as S. destruct Hm as (Ht & _).
    unfold mesh_child_tokens, ordered_mesh_child.
    rewrite Ht, pystr_eqb_refl. cbn [tokens_of].
    apply same_written_object; [cbn [tag]; congruence|].
    apply same_written_app.
    + rewrite props_tokens_ordered. apply same_written_refl.
    + fold aabb_props material_props skin_props in S |- *. rewrite S.
      apply same_written_flat_map. apply Forall_forall. intros s _.
      apply same_written_leaf.
  - destruct Hs as (Ht & _ & _).
    unfold mesh_child_tokens, ordered_mesh_child. rewrite Ht.
    change (pystr_eqb (str_of "skeleton") (str_of "mesh")) with false.
    change (pystr_eqb (str_of "skeleton") (str_of "skeleton")) with true.
    cbv iota. cbn [tokens_of app map].
    apply same_written_object; [cbn [tag]; congruence|].
    apply same_written_flat_map. apply Forall_forall. intros s _.
    apply same_written_leaf.
Qed.

Lemma same_written_shape (s : Element) :
  shape_ok value_ok s ->
  same_written (shape_tokens s) (tokens_of 2 (ordered_shape s)).
Proof.
  intros (_ & _ & Hc). unfold shape_tokens, ordered_shape. cbn [tokens_of].
  apply same_written_object; [cbn [tag]; congruence|].
  apply same_written_app.
  - rewrite props_tokens_ordered. apply same_written_refl.
  - apply same_written_flat_map.
    eapply Forall_impl; [|exact Hc]. apply same_written_mesh_child.
Qed.

Lemma same_written_document (root_xml : Element) :
  mesh_schema value_ok root_xml ->
  same_written (mesh_tokens root_xml) (document_tokens (ordered_document root_xml)).
Proof.
  intros (_ & _ & Hp & objects & locators & Hc & Ho & Hl).
  unfold mesh_tokens, document_tokens, ordered_document, find.
  cbn [attrib children]. unfold ordered_attrs at 1. cbn [flat_map].
  destruct (get root_xml (str_of "pdxasset")) as [v|]; [|congruence].
  cbn [app map]. constructor; [reflexivity|]. rewrite Hc.
  assert (O : forall o, tagged "object" (object_ok value_ok) o ->
              same_written (TObject o 1 :: flat_map shape_tokens (children o))
                           (tokens_of 1 (ordered_top o))).
  { intros o (Ht & _ & Hs). unfold ordered_top. rewrite Ht, pystr_eqb_refl.
    cbn [tokens_of app map]. apply same_written_object; [cbn [tag]; congruence|].
    apply same_written_flat_map. eapply Forall_impl; [|exact Hs].
    apply same_written_shape. }
  assert (L : forall l, tagged "locator" (locator_ok value_ok) l ->
              same_written
                (TObject l 1 :: flat_map (fun n => TObject n 2 :: props_tokens locnode_props n)
                                   (children l))
                (tokens_of 1 (ordered_top l))).
  { intros l (Ht & _ & _). unfold ordered_top. rewrite Ht.
    change (pystr_eqb (str_of "locator") (str_of "object")) with false.
    cbv iota. cbn [tokens_of app map]. apply same_written_object; [cbn [tag]; congruence|].
    apply same_written_flat_map. apply Forall_forall. intros n _.
    apply same_written_leaf. }
  fold locnode_props.
  destruct (optional_cases _ _ Ho) as [->|(o & -> & To)];
    destruct (optional_cases _ _ Hl) as [->|(l & -> & Tl)];
    cbn [app List.find map flat_map];
    rewrite ?(proj1 To), ?(proj1 Tl); cbn [pystr_eqb]; rewrite ?app_nil_r.
  - constructor.
  - change (pystr_eqb (str_of "locator") (str_of "object")) with false.
    change (pystr_eqb (str_of "locator") (str_of "locator")) with true.
    cbv iota. cbn [app]. exact (L l Tl).
  - change (pystr_eqb (str_of "object") (str_of "object")) with true.
    change (pystr_eqb (str_of "object") (str_of "locator")) with false.
    cbv iota. rewrite ?app_nil_r. exact (O o To).
  - change (pystr_eqb (str_of "object") (str_of "object")) with true.
    change (pystr_eqb (str_of "object") (str_of "locator")) with false.
    change (pystr_eqb (str_of "locator") (str_of "locator")) with true.
    cbv iota. apply same_written_app; [exact (O o To) | exact (L l Tl)].
Qed.

End SchemaFacts.


(** ** The document in schema order *)

Lemma dict_get_In (d : list (pystr * list pyval)) (k : pystr) (v : list pyval) :
  dict_get d k = Some v -> In (k, v) d.
Proof.
  induction d as [|[k' v'] d IH]; simpl; [discriminate|].
  destruct (pystr_eqb k' k) eqn:E.
  - apply pystr_eqb_eq in E. intros H. inversion H; subst. left. reflexivity.
  - intros H. right. apply IH. exact H.
Qed.

Lemma ordered_attrs_keys (props : list pystr) (e : Element) (k : pystr) :
  In k (map fst (ordered_attrs props e)) -> In k props.
Proof.
  unfold ordered_attrs. induction props as [|p props IH]; simpl; [tauto|].
  rewrite map_app, in_app_iff. intros [H|H]; [|right; apply IH; exact H].
  destruct (get e p); simpl in H; [|tauto]. destruct H as [H|[]]. left. exact H.
Qed.

Lemma ordered_attrs_nodup (props : list pystr) (e : Element) :
  NoDup props -> NoDup (map fst (ordered_attrs props e)).
Proof.
  induction 1 as [|p props Hp _ IH]; [constructor|].
  change (ordered_attrs (p :: props) e)
    with (match get e p with Some v => [(p, v)] | None => [] end ++ ordered_attrs props e).
  destruct (get e p); simpl; [|exact IH].
  constructor; [|exact IH]. intros H. apply Hp. apply (ordered_attrs_keys _ _ _ H).
Qed.

Lemma ordered_attrs_get (props : list pystr) (e : Element) (k : pystr) :
  NoDup props -> incl (map fst (attrib e)) props ->
  dict_get (ordered_attrs props e) k = dict_get (attrib e) k.
Proof.
  intros ND Hin.
  assert (G : forall props, NoDup props ->
                dict_get (ordered_attrs props e) k =
                if in_dec pystr_eq_dec k props then get e k else None).
  { clear. induction 1 as [|p props Hp _ IH]; [reflexivity|].
    change (ordered_attrs (p :: props) e)
      with (match get e p with Some v => [(p, v)] | None => [] end ++ ordered_attrs props e).
    destruct (pystr_eq_dec p k) as [->|N].
    - destruct (in_dec pystr_eq_dec k (k :: props)) as [_|X]; [|exfalso; apply X; left; reflexivity].
      destruct (get e k) as [v|] eqn:E; simpl.
      + rewrite pystr_eqb_refl. reflexivity.
      + rewrite IH. destruct (in_dec pystr_eq_dec k props); [contradiction|reflexivity].
    - assert (R : dict_get (match get e p with Some v => [(p, v)] | None => [] end
                            ++ ordered_attrs props e) k = dict_get (ordered_attrs props e) k).
      { destruct (get e p); simpl; [rewrite pystr_eqb_neq by exact N|]; reflexivity. }
      rewrite R, IH.
      destruct (in_dec pystr_eq_dec k props) as [I|I];
        destruct (in_dec pystr_eq_dec k (p :: props)) as [J|J]; try reflexivity.
      + exfalso. apply J. right. exact I.
      + exfalso. destruct J as [J|J]; [congruence|contradiction]. }
  rewrite (G props ND). unfold get.
  destruct (in_dec pystr_eq_dec k props) as [I|I]; [reflexivity|].
  symmetry. apply dict_get_not_in. intros H. apply I. apply Hin. exact H.
Qed.

Lemma props_ok_check (props : list pystr) :
  nodup pystr_eq_dec props = props -> forallb prop_name_ok props = true ->
  props_ok props.
Proof.
  intros N F. split.
  - rewrite <- N. apply NoDup_nodup.
  - apply Forall_forall. rewrite forallb_forall in F. exact F.
Qed.

Lemma mesh_props_ok : props_ok mesh_props.
Proof. apply props_ok_check; reflexivity. Qed.

Lemma aabb_props_ok : props_ok aabb_props.
Proof. apply props_ok_check; reflexivity. Qed.

Lemma material_props_ok : props_ok material_props.
Proof. apply props_ok_check; reflexivity. Qed.

Lemma skin_props_ok : props_ok skin_props.
Proof. apply props_ok_check; reflexivity. Qed.

Lemma bone_props_ok : props_ok bone_props.
Proof. apply props_ok_check; reflexivity. Qed.

Lemma locnode_props_ok : props_ok locnode_props.
Proof. apply props_ok_check; reflexivity. Qed.

Lemma lod_props_ok : props_ok [str_of "lod"].
Proof. apply props_ok_check; reflexivity. Qed.

Lemma pdxasset_props_ok : props_ok [str_of "pdxasset"].
Proof. apply props_ok_check; reflexivity. Qed.

Lemma ordered_attrs_ok (props props' : list pystr) (e : Element) :
  props_ok props -> attrs_in nonempty_value props' e ->
  Forall attr_ok (ordered_attrs props e).
Proof.
  intros [_ Hn] (_ & _ & Hv). unfold ordered_attrs.
  induction Hn as [|p props Hp _ IH]; simpl; [constructor|].
  apply Forall_app. split; [|exact IH].
  destruct (get e p) as [v|] eqn:E; constructor; [|constructor].
  split; [exact Hp|]. simpl. apply dict_get_In in E.
  rewrite Forall_forall in Hv. apply (Hv (p, v) E).
Qed.

Lemma ordering_leaf (props : list pystr) (e : Element) :
  props_ok props -> leaf_ok nonempty_value props e ->
  ordering e (ordered_leaf props e).
Proof.
  intros Hp (Ht & Ha & Hc). unfold ordered_leaf. split.
  - constructor; [exact Ht | apply ordered_attrs_nodup, Hp
                  | apply (ordered_attrs_ok props props e Hp Ha) | constructor].
  - destruct e as [t a cs]. simpl in *. subst cs. constructor; [|constructor].
    intros k. symmetry. destruct Ha as (_ & Hi & _).
    apply (ordered_attrs_get props (mkElement t a []) k (proj1 Hp) Hi).
Qed.

Lemma ordering_children (f : Element -> Element) (cs : list Element) :
  Forall (fun c => ordering c (f c)) cs ->
  Forall elem_ok (map f cs) /\ Forall2 same_tree cs (map f cs).
Proof.
  induction 1 as [|c cs [Ho Hs] _ [IH1 IH2]]; simpl; split; constructor; assumption.
Qed.

Lemma ordering_node (e : Element) (props : list pystr) (f : Element -> Element) :
  tag_ok (tag e) -> props_ok props -> attrs_in nonempty_value props e ->
  Forall (fun c => ordering c (f c)) (children e) ->
  ordering e (mkElement (tag e) (ordered_attrs props e) (map f (children e))).
Proof.
  intros Ht Hp Ha Hc. destruct (ordering_children f _ Hc) as [C1 C2]. split.
  - constructor; [exact Ht | apply ordered_attrs_nodup, Hp
                  | apply (ordered_attrs_ok props props e Hp Ha) | exact C1].
  - destruct e as [t a cs]. simpl in *. constructor; [|exact C2].
    intros k. symmetry. destruct Ha as (_ & Hi & _).
    apply (ordered_attrs_get props (mkElement t a cs) k (proj1 Hp) Hi).
Qed.

Lemma ordering_bare (e : Element) (f : Element -> Element) :
  tag_ok (tag e) -> attrib e = [] ->
  Forall (fun c => ordering c (f c)) (children e) ->
  ordering e (mkElement (tag e) [] (map f (children e))).
Proof.
  intros Ht Ha Hc. destruct (ordering_children f _ Hc) as [C1 C2]. split.
  - constructor; [exact Ht | constructor | constructor | exact C1].
  - destruct e as [t a cs]. simpl in *. subst a. constructor; [reflexivity | exact C2].
Qed.

Lemma latin1_check (s : pystr) :
  forallb (fun c => (c <=? 255)%N) s = true -> latin1 s.
Proof.
  intros F. apply Forall_forall. intros c Hc. rewrite forallb_forall in F.
  apply N.leb_le. apply (F c Hc).
Qed.

Lemma tag_ok_check (t : pystr) :
  (Z.of_nat (length t) <=? 63) && forallb (fun c => (0 <? c) && (c <=? 255))%N t
  && match t with [] => true | c :: _ => (c <? 128)%N && negb (c =? 91)%N end = true ->
  tag_ok t.
Proof.
  rewrite !andb_true_iff. intros [[L F] H]. apply Z.leb_le in L.
  split; [exact L|]. split.
  - apply Forall_forall. intros c Hc. rewrite forallb_forall in F.
    specialize (F c Hc). apply andb_true_iff in F. destruct F as [F1 F2].
    apply N.ltb_lt in F1. apply N.leb_le in F2. lia.
  - destruct t as [|c t]; [exact I|]. apply andb_true_iff in H. destruct H as [H1 H2].
    apply N.ltb_lt in H1. apply negb_true_iff, N.eqb_neq in H2. split; assumption.
Qed.

Lemma ordering_mesh_child (c : Element) :
  mesh_ok nonempty_value c \/ skeleton_ok nonempty_value c ->
  ordering c (ordered_mesh_child c).
Proof.
  intros [(Ht & Ha & aabbs & materials & skins & Hc & Hx & Hy & Hz)|(Ht & Ha & Hc)];
    unfold ordered_mesh_child; rewrite Ht.
  - rewrite pystr_eqb_refl. rewrite <- Ht.
    apply ordering_node; [rewrite Ht; apply tag_ok_check; reflexivity
                         | apply mesh_props_ok | exact Ha |].
    rewrite Hc. destruct Hx as [_ Hx], Hy as [_ Hy], Hz as [_ Hz].
    rewrite !Forall_app. repeat split.
    + eapply Forall_impl; [|exact Hx]. intros s [Ts Ls]. unfold sub_props. rewrite Ts.
      apply ordering_leaf; [apply aabb_props_ok | exact Ls].
    + eapply Forall_impl; [|exact Hy]. intros s [Ts Ls]. unfold sub_props. rewrite Ts.
      apply ordering_leaf; [apply material_props_ok | exact Ls].
    + eapply Forall_impl; [|exact Hz]. intros s [Ts Ls]. unfold sub_props. rewrite Ts.
      apply ordering_leaf; [apply skin_props_ok | exact Ls].
  - change (pystr_eqb (str_of "skeleton") (str_of "mesh")) with false. cbv iota.
    rewrite <- Ht.
    apply ordering_bare; [rewrite Ht; apply tag_ok_check; reflexivity | exact Ha |].
    eapply Forall_impl; [|exact Hc]. intros s Ls.
    apply ordering_leaf; [apply bone_props_ok | exact Ls].
Qed.

Lemma ordering_shape (s : Element) :
  shape_ok nonempty_value s -> ordering s (ordered_shape s).
Proof.
  intros (Ht & Ha & Hc). unfold ordered_shape.
  apply ordering_node; [exact Ht | apply lod_props_ok | exact Ha |].
  eapply Forall_impl; [|exact Hc]. apply ordering_mesh_child.
Qed.

Lemma ordering_top (c : Element) :
  tagged "object" (object_ok nonempty_value) c \/
  tagged "locator" (locator_ok nonempty_value) c ->
  ordering c (ordered_top c).
Proof.
  intros [(Ht & Ha & Hc)|(Ht & Ha & Hc)]; unfold ordered_top; rewrite Ht.
  - rewrite pystr_eqb_refl. rewrite <- Ht.
    apply ordering_bare; [rewrite Ht; apply tag_ok_check; reflexivity | exact Ha |].
    eapply Forall_impl; [|exact Hc]. apply ordering_shape.
  - change (pystr_eqb (str_of "locator") (str_of "object")) with false. cbv iota.
    rewrite <- Ht.
    apply ordering_bare; [rewrite Ht; apply tag_ok_check; reflexivity | exact Ha |].
    eapply Forall_impl; [|exact Hc]. intros n Ln.
    apply ordering_leaf; [apply locnode_props_ok | exact Ln].
Qed.

Lemma ordering_document (root_xml : Element) :
  mesh_schema nonempty_value root_xml ->
  NoDup (map fst (attrib (ordered_document root_xml))) /\
  Forall attr_ok (attrib (ordered_document root_xml)) /\
  Forall elem_ok (children (ordered_document root_xml)) /\
  same_tree root_xml (ordered_document root_xml).
Proof.
  intros (Ht & Ha & _ & objects & locators & Hc & [_ Ho] & [_ Hl]).
  assert (C : Forall (fun c => ordering c (ordered_top c)) (children root_xml)).
  { rewrite Hc. apply Forall_app. split.
    - eapply Forall_impl; [|exact Ho]. intros c Hx. apply ordering_top. left. exact Hx.
    - eapply Forall_impl; [|exact Hl]. intros c Hx. apply ordering_top. right. exact Hx. }
  destruct (ordering_children ordered_top _ C) as [C1 C2].
  unfold ordered_document. cbn [attrib children]. repeat split.
  - apply ordered_attrs_nodup, pdxasset_props_ok.
  - apply (ordered_attrs_ok _ _ root_xml pdxasset_props_ok Ha).
  - exact C1.
  - destruct root_xml as [t a cs]. simpl in *. constructor; [|exact C2].
    intros k. symmetry. destruct Ha as (_ & Hi & _).
    apply (ordered_attrs_get _ (mkElement t a cs) k (proj1 pdxasset_props_ok) Hi).
Qed.


(** ** Trees that differ in attribute order are written alike *)

Lemma same_tree_tag (e e' : Element) : same_tree e e' -> tag e = tag e'.
Proof. intros H. inversion H. reflexivity. Qed.

Lemma same_tree_get (e e' : Element) (k : pystr) : same_tree e e' -> get e k = get e' k.
Proof. intros H. inversion H. unfold get. simpl. auto. Qed.

Lemma same_tree_children (e e' : Element) :
  same_tree e e' -> Forall2 same_tree (children e) (children e').
Proof. intros H. inversion H. assumption. Qed.

Lemma for_bytes_Forall2 {A B : Type} (f : A -> res bytes) (g : B -> res bytes)
      (l : list A) (l' : list B) :
  Forall2 (fun x y => f x = g y) l l' -> for_bytes l f = for_bytes l' g.
Proof.
  induction 1 as [|x y l l' E _ IH]; simpl; [reflexivity|].
  rewrite E, IH. reflexivity.
Qed.

Lemma writeObject_same (e e' : Element) (d : nat) :
  same_tree e e' -> writeObject e d = writeObject e' d.
Proof.
  intros H. unfold writeObject. rewrite (same_tree_tag _ _ H). reflexivity.
Qed.

Lemma write_props_same (props : list pystr) (e e' : Element) :
  same_tree e e' -> write_props props e = write_props props e'.
Proof.
  intros H. apply write_props_get. intros k. apply same_tree_get. exact H.
Qed.

Lemma find_same (name : pystr) (cs cs' : list Element) :
  Forall2 same_tree cs cs' ->
  match List.find (fun c => pystr_eqb (tag c) name) cs,
        List.find (fun c => pystr_eqb (tag c) name) cs' with
  | Some x, Some x' => same_tree x x'
  | None, None => True
  | _, _ => False
  end.
Proof.
  induction 1 as [|c c' cs cs' H _ IH]; simpl; [exact I|].
  rewrite <- (same_tree_tag _ _ H).
  destruct (pystr_eqb (tag c) name); [exact H | exact IH].
Qed.

Lemma write_sub_same (p p' : Element) (name : pystr) (d : nat) (props : list pystr) :
  same_tree p p' -> write_sub p name d props = write_sub p' name d props.
Proof.
  intros H. unfold write_sub, find.
  pose proof (find_same name _ _ (same_tree_children _ _ H)) as F.
  destruct (List.find _ (children p)) as [x|], (List.find _ (children p')) as [x'|];
    try contradiction; [|reflexivity].
  rewrite (writeObject_same _ _ d F), (write_props_same props _ _ F). reflexivity.
Qed.

Lemma for_bytes_children_same (f : Element -> res bytes) (e e' : Element) :
  (forall x x', same_tree x x' -> f x = f x') ->
  same_tree e e' ->
  for_bytes (children e) f = for_bytes (children e') f.
Proof.
  intros Hf H. apply for_bytes_Forall2.
  eapply Forall2_impl; [|apply (same_tree_children _ _ H)]. exact Hf.
Qed.

Lemma write_mesh_child_same (c c' : Element) :
  same_tree c c' -> write_mesh_child c = write_mesh_child c'.
Proof.
  intros H. unfold write_mesh_child.
  rewrite <- (same_tree_tag _ _ H), (writeObject_same _ _ 3 H),
    (write_props_same mesh_props _ _ H), !(write_sub_same c c' _ _ _ H).
  rewrite (for_bytes_children_same _ c c'); [reflexivity | | exact H].
  intros x x' Hx. rewrite (writeObject_same _ _ 4 Hx), (write_props_same _ _ _ Hx).
  reflexivity.
Qed.

Lemma write_shape_same (s s' : Element) :
  same_tree s s' -> write_shape s = write_shape s'.
Proof.
  intros H. unfold write_shape.
  rewrite (writeObject_same _ _ 2 H), (write_props_same _ _ _ H),
    (for_bytes_children_same write_mesh_child s s' write_mesh_child_same H).
  reflexivity.
Qed.

Lemma mesh_datastring_same (root_xml root_xml' : Element) :
  same_tree root_xml root_xml' ->
  mesh_datastring root_xml = mesh_datastring root_xml'.
Proof.
  intros H. unfold mesh_datastring, find.
  rewrite <- (same_tree_tag _ _ H), <- (same_tree_get _ _ (str_of "pdxasset") H).
  pose proof (find_same (str_of "object") _ _ (same_tree_children _ _ H)) as FO.
  pose proof (find_same (str_of "locator") _ _ (same_tree_children _ _ H)) as FL.
  destruct (List.find _ (children root_xml)) as [o|],
           (List.find _ (children root_xml')) as [o'|]; try contradiction;
    destruct (List.find _ (children root_xml)) as [l|],
             (List.find _ (children root_xml')) as [l'|]; try contradiction;
    rewrite ?(writeObject_same _ _ 1 FO), ?(writeObject_same _ _ 1 FL),
      ?(for_bytes_children_same write_shape o o' write_shape_same FO);
    try reflexivity;
    (rewrite (for_bytes_children_same _ l l'); [reflexivity | | exact FL];
     intros x x' Hx;
     rewrite (writeObject_same _ _ 2 Hx), (write_props_same _ _ _ Hx); reflexivity).
Qed.

(** ** Trees that are written without an exception *)

Lemma for_bytes_all_ok {A : Type} (f : A -> res bytes) (l : list A) :
  Forall (fun x => exists b, f x = Ok b) l -> exists bs, for_bytes l f = Ok bs.
Proof.
  induction 1 as [|x l [b Hx] _ [bs IH]]; simpl.
  - eexists; reflexivity.
  - rewrite Hx, IH. eexists; reflexivity.
Qed.

Lemma tokens_written (e : Element) :
  forall d, elem_ok e -> Forall (fun t => exists b, write_token t = Ok b) (tokens_of d e).
Proof.
  induction e as [t a cs IH] using Element_nested_ind. intros d Hok.
  inversion Hok as [? ? ? Ht ND Ha Hcs]; subst. cbn [tokens_of].
  constructor; [|apply Forall_app; split].
  - destruct (tag_ok_bytes t Ht) as (name & En & _).
    simpl. rewrite (writeObject_bytes (mkElement t a cs) d name (proj1 Ht) En). eauto.
  - apply Forall_map. eapply Forall_impl; [|exact Ha].
    intros [k v] [Hk Hv]. simpl in *.
    destruct (writeProperty_parseProperty k v Hk Hv) as (tl & W & _). eauto.
  - apply Forall_flat_map. rewrite Forall_forall in IH, Hcs |- *.
    intros c Hc. apply (IH c Hc). apply (Hcs c Hc).
Qed.


(** ** More fuel does not change a result *)

Lemma parseObject_depth_mono (fuel : nat) :
  forall fuel' bdata objdepth pos,
    (fuel <= fuel')%nat ->
    parseObject_depth fuel bdata objdepth pos <> OutOfFuel ->
    parseObject_depth fuel' bdata objdepth pos = parseObject_depth fuel bdata objdepth pos.
Proof.
  induction fuel as [|fuel IH]; intros fuel' bdata objdepth pos L H; [simpl in H; congruence|].
  destruct fuel' as [|fuel']; [lia|]. simpl in *.
  destruct (unpack_c bdata pos) as [b| |]; simpl in *; try reflexivity.
  destruct (decode_c b) as [c| |]; simpl in *; try reflexivity.
  destruct (c =? 91)%N; [|reflexivity]. apply IH; [lia | exact H].
Qed.

Lemma parseObject_name_mono (fuel : nat) :
  forall fuel' bdata obj_name pos,
    (fuel <= fuel')%nat ->
    parseObject_name fuel bdata obj_name pos <> OutOfFuel ->
    parseObject_name fuel' bdata obj_name pos = parseObject_name fuel bdata obj_name pos.
Proof.
  induction fuel as [|fuel IH]; intros fuel' bdata obj_name pos L H; [simpl in H; congruence|].
  destruct fuel' as [|fuel']; [lia|]. simpl in *.
  destruct (unpack_b bdata pos) as [b| |]; simpl in *; try reflexivity.
  destruct (negb (b =? 0)); [|reflexivity].
  destruct (unpack_c bdata pos) as [c| |]; simpl in *; try reflexivity.
  apply IH; [lia | exact H].
Qed.

Lemma parseObject_mono (fuel fuel' : nat) (bdata : bytes) (pos : Z) :
  (fuel <= fuel')%nat ->
  parseObject fuel bdata pos <> OutOfFuel ->
  parseObject fuel' bdata pos = parseObject fuel bdata pos.
Proof.
  intros L H. unfold parseObject in *.
  assert (D : parseObject_depth fuel bdata 0 pos <> OutOfFuel).
  { intros E. rewrite E in H. apply H. reflexivity. }
  rewrite (parseObject_depth_mono fuel fuel' _ _ _ L D).
  destruct (parseObject_depth fuel bdata 0 pos) as [[d p]| |]; simpl in *; try reflexivity.
  assert (N : parseObject_name fuel bdata [] p <> OutOfFuel).
  { intros E. rewrite E in H. apply H. reflexivity. }
  rewrite (parseObject_name_mono fuel fuel' _ _ _ L N). reflexivity.
Qed.

Lemma read_step_mono (fuel fuel' : nat) (fdata : bytes) (st : reader) :
  (fuel <= fuel')%nat ->
  read_step fuel fdata st <> OutOfFuel ->
  read_step fuel' fdata st = read_step fuel fdata st.
Proof.
  intros L H. unfold read_step in *.
  destruct (unpack_c fdata (pos st)) as [b| |]; simpl in *; try reflexivity.
  destruct (decode_c b) as [c| |]; simpl in *; try reflexivity.
  destruct (c =? 91)%N; [|reflexivity].
  assert (P : parseObject fuel fdata (pos st) <> OutOfFuel).
  { intros E. rewrite E in H. apply H. reflexivity. }
  rewrite (parseObject_mono fuel fuel' _ _ L P). reflexivity.
Qed.

Lemma read_loop_mono (fuel : nat) :
  forall fuel' fdata st,
    (fuel <= fuel')%nat ->
    read_loop fuel fdata st <> OutOfFuel ->
    read_loop fuel' fdata st = read_loop fuel fdata st.
Proof.
  induction fuel as [|fuel IH]; intros fuel' fdata st L H; [simpl in H; congruence|].
  destruct fuel' as [|fuel']; [lia|]. simpl in *.
  destruct (pos st <? Z.of_nat (length fdata)); [|reflexivity].
  assert (S1 : read_step fuel fdata st <> OutOfFuel).
  { intros E. rewrite E in H. apply H. reflexivity. }
  rewrite (read_step_mono fuel fuel' _ _ ltac:(lia) S1).
  destruct (read_step fuel fdata st) as [st'| |]; simpl in *; try reflexivity.
  apply IH; [lia | exact H].
Qed.

Lemma read_mesh_state_mono (fuel fuel' : nat) (fdata : bytes) :
  (fuel <= fuel')%nat ->
  read_mesh_state fuel fdata <> OutOfFuel ->
  read_mesh_state fuel' fdata = read_mesh_state fuel fdata.
Proof.
  intros L H. unfold read_mesh_state in *.
  destruct (unpack_from 4 fdata 0) as [hdr| |]; simpl in *; try reflexivity.
  destruct (list_eq_dec Byte.byte_eq_dec hdr header); [|reflexivity].
  apply read_loop_mono; assumption.
Qed.

Lemma read_mesh_data_mono (fuel fuel' : nat) (fdata : bytes) :
  (fuel <= fuel')%nat ->
  read_mesh_data fuel fdata <> OutOfFuel ->
  read_mesh_data fuel' fdata = read_mesh_data fuel fdata.
Proof.
  intros L H. unfold read_mesh_data in *.
  assert (S1 : read_mesh_state fuel fdata <> OutOfFuel).
  { intros E. rewrite E in H. apply H. reflexivity. }
  rewrite (read_mesh_state_mono fuel fuel' _ L S1). reflexivity.
Qed.

(** A run that raises with some fuel returns a tree with no fuel. *)
Lemma read_mesh_data_raises (fuel : nat) (fdata : bytes) (e : pyerr) :
  read_mesh_data fuel fdata = Err e ->
  forall fuel' t, read_mesh_data fuel' fdata <> Ok t.
Proof.
  intros H fuel' t H'.
  destruct (Nat.le_ge_cases fuel fuel') as [L|L].
  - rewrite (read_mesh_data_mono fuel fuel' fdata L) in H'; congruence.
  - rewrite <- (read_mesh_data_mono fuel' fuel fdata L) in H'; congruence.
Qed.

Lemma read_mesh_data_raises_same (fuel fuel' : nat) (fdata : bytes) (e e' : pyerr) :
  read_mesh_data fuel fdata = Err e -> read_mesh_data fuel' fdata = Err e' -> e = e'.
Proof.
  intros H H'.
  destruct (Nat.le_ge_cases fuel fuel') as [L|L].
  - rewrite (read_mesh_data_mono fuel fuel' fdata L) in H'; congruence.
  - rewrite (read_mesh_data_mono fuel' fuel fdata L) in H; congruence.
Qed.

Lemma read_meshfile_written (fuel : nat) (fs : filesystem) (filepath : string)
      (bs : bytes) :
  read_meshfile fuel (fs_write fs filepath (header ++ bs)) filepath =
  read_mesh_data fuel (header ++ bs).
Proof.
  unfold read_meshfile, fs_write. rewrite String.eqb_refl. reflexivity.
Qed.

(** ** Round trips of the mesh codec *)

Lemma mesh_written (root_xml : Element) :
  mesh_schema nonempty_value root_xml ->
  exists bs,
    mesh_datastring root_xml = Ok (header ++ bs) /\
    for_bytes (document_tokens (ordered_document root_xml)) write_token = Ok bs.
Proof.
  intros Hs. destruct (ordering_document root_xml Hs) as (ND & Ha & Hc & _).
  assert (W : Forall (fun t => exists b, write_token t = Ok b)
                     (document_tokens (ordered_document root_xml))).
  { unfold document_tokens. apply Forall_app. split.
    - apply Forall_map. eapply Forall_impl; [|exact Ha].
      intros [k v] [Hk Hv]. simpl in *.
      destruct (writeProperty_parseProperty k v Hk Hv) as (tl & W & _). eauto.
    - apply Forall_flat_map. eapply Forall_impl; [|exact Hc].
      intros c Hok. apply tokens_written. exact Hok. }
  destruct (for_bytes_all_ok _ _ W) as [bs E]. exists bs. split; [|exact E].
  rewrite (mesh_datastring_tokens root_xml (proj1 Hs)).
  rewrite (for_bytes_same _ _ (same_written_document _ root_xml Hs)), E. reflexivity.
Qed.

Lemma mesh_round_trip (root_xml : Element) :
  mesh_schema nonempty_value root_xml ->
  exists bs,
    mesh_datastring root_xml = Ok (header ++ bs) /\
    same_tree root_xml (ordered_document root_xml) /\
    forall fuel, (length bs < fuel)%nat ->
                 read_mesh_data fuel (header ++ bs) = Ok (ordered_document root_xml).
Proof.
  intros Hs. destruct (mesh_written root_xml Hs) as (bs & W & E).
  destruct (ordering_document root_xml Hs) as (ND & Ha & Hc & Hsame).
  exists bs. split; [exact W|]. split; [exact Hsame|].
  intros fuel Hf.
  pose proof (read_document (tag root_xml) _ _ bs fuel ND Ha Hc) as R.
  unfold ordered_document in *. cbn [attrib children] in *.
  rewrite (proj1 Hs) in *. apply R; assumption.
Qed.


(** C2, amended.  For every tree that satisfies the mesh schema and whose
    attribute arrays are all non-empty, [write_meshfile] writes a file, and
    [read_meshfile] on that file returns a tree with the same tags, the
    same value under every attribute name (integers, floats and strings
    alike) and the same children in the same order. *)
Theorem mesh_round_trip_tree (fs : filesystem) (filepath : string) (root_xml : Element) :
  mesh_schema nonempty_value root_xml ->
  exists datastring decoded,
    write_meshfile fs filepath root_xml = (fs_write fs filepath datastring, Ok tt) /\
    same_tree root_xml decoded /\
    forall fuel, (length datastring <= fuel)%nat ->
                 read_meshfile fuel (fs_write fs filepath datastring) filepath = Ok decoded.
Proof.
  intros Hs. destruct (mesh_round_trip root_xml Hs) as (bs & W & Hsame & R).
  exists (header ++ bs), (ordered_document root_xml). split; [|split].
  - unfold write_meshfile. rewrite W. reflexivity.
  - exact Hsame.
  - intros fuel Hf. rewrite read_meshfile_written. apply R.
    rewrite length_app in Hf. simpl in Hf. lia.
Qed.

(** C1, amended.  For every byte buffer that [write_meshfile] produced from
    a tree that satisfies the mesh schema and whose attribute arrays are all
    non-empty, [read_meshfile] returns a tree, and [write_meshfile] on that
    tree writes the same byte sequence again. *)
Theorem mesh_round_trip_bytes (fs : filesystem) (filepath : string) (root_xml : Element) :
  mesh_schema nonempty_value root_xml ->
  exists datastring decoded,
    write_meshfile fs filepath root_xml = (fs_write fs filepath datastring, Ok tt) /\
    (forall fuel, (length datastring <= fuel)%nat ->
                  read_meshfile fuel (fs_write fs filepath datastring) filepath = Ok decoded) /\
    (forall fs' filepath',
        write_meshfile fs' filepath' decoded = (fs_write fs' filepath' datastring, Ok tt)).
Proof.
  intros Hs. destruct (mesh_round_trip root_xml Hs) as (bs & W & Hsame & R).
  exists (header ++ bs), (ordered_document root_xml). split; [|split].
  - unfold write_meshfile. rewrite W. reflexivity.
  - intros fuel Hf. rewrite read_meshfile_written. apply R.
    rewrite length_app in Hf. simpl in Hf. lia.
  - intros fs' filepath'. unfold write_meshfile.
    rewrite <- (mesh_datastring_same _ _ Hsame), W. reflexivity.
Qed.


(** ** Depth reconciliation *)

Lemma read_loop_object (st : reader) (fdata : bytes) (d : nat) (q : path) (name : bytes)
      (rest : bytes) (fuel : nat) :
  at_suffix fdata (pos st) (object_bytes (S d) name ++ rest) ->
  name_bytes_ok name ->
  (length (object_bytes (S d) name ++ rest) < fuel)%nat ->
  under st d q ->
  exists fuel',
    (length rest < fuel')%nat /\
    read_loop fuel fdata st =
    read_loop fuel' fdata
      (after_object st d q (decode_latin1 name)
         (pos st + Z.of_nat (length (object_bytes (S d) name)))).
Proof.
  intros H Hn Hf U. rewrite length_app in Hf.
  assert (Lo : (2 <= length (object_bytes (S d) name))%nat).
  { unfold object_bytes. rewrite !length_app. simpl. lia. }
  destruct fuel as [|fuel]; [lia|]. exists fuel. split; [lia|].
  pose proof (read_step_object st fdata d q name rest fuel H Hn ltac:(lia) U) as S1.
  rewrite object_bytes_cons in H. cbn [app] in H.
  apply (read_loop_step fuel fdata st _ _ _ H S1).
Qed.

(** C5.  A buffer whose object tokens have the depths 1, 2, 2, 1, 2 is
    decoded into a tree in which the first two depth-2 objects are the
    children, in order, of the first depth-1 object, the second depth-1
    object is the next child of the root and the last object is its child;
    when the loop ends the ancestor stack holds the root, the second
    depth-1 object and its child. *)
Theorem depth_reconciliation (n1 n2 n3 n4 n5 : bytes) (fuel : nat) :
  name_bytes_ok n1 -> name_bytes_ok n2 -> name_bytes_ok n3 ->
  name_bytes_ok n4 -> name_bytes_ok n5 ->
  let fdata := header ++ object_bytes 1 n1 ++ object_bytes 2 n2 ++ object_bytes 2 n3
               ++ object_bytes 1 n4 ++ object_bytes 2 n5 in
  (length fdata <= fuel)%nat ->
  exists st,
    read_mesh_state fuel fdata = Ok st /\
    read_mesh_data fuel fdata = Ok (file_element st) /\
    file_element st =
      mkElement (str_of "File") []
        [mkElement (decode_latin1 n1) []
           [mkElement (decode_latin1 n2) [] []; mkElement (decode_latin1 n3) [] []];
         mkElement (decode_latin1 n4) []
           [mkElement (decode_latin1 n5) [] []]] /\
    depth_list st = [[]; [1%nat]; [1%nat; 0%nat]] /\
    created st = [(1, [0%nat]); (2, [0%nat; 0%nat]); (2, [0%nat; 1%nat]);
                  (1, [1%nat]); (2, [1%nat; 0%nat])].
Proof.
  intros H1 H2 H3 H4 H5 fdata Hf.
  assert (R : exists st, read_mesh_state fuel fdata = Ok st /\
     file_element st =
      mkElement (str_of "File") []
        [mkElement (decode_latin1 n1) []
           [mkElement (decode_latin1 n2) [] []; mkElement (decode_latin1 n3) [] []];
         mkElement (decode_latin1 n4) []
           [mkElement (decode_latin1 n5) [] []]] /\
     depth_list st = [[]; [1%nat]; [1%nat; 0%nat]] /\
     created st = [(1, [0%nat]); (2, [0%nat; 0%nat]); (2, [0%nat; 1%nat]);
                   (1, [1%nat]); (2, [1%nat; 0%nat])]).
  { unfold fdata in Hf |- *. rewrite read_mesh_state_header.
    pose proof (at_suffix_header (object_bytes 1 n1 ++ object_bytes 2 n2 ++ object_bytes 2 n3
                                  ++ object_bytes 1 n4 ++ object_bytes 2 n5)) as H.
    rewrite length_app in Hf. change (length header) with 4%nat in Hf.
    change 4 with (pos read_init) in H.
    destruct (read_loop_object read_init _ 0 [] n1 _ fuel H H1 ltac:(lia)) as (f1 & Hf1 & E1).
    { unfold under. simpl. repeat split; discriminate. }
    rewrite E1. clear E1. apply at_suffix_advance in H.
    match goal with |- context [read_loop _ _ ?s] => set (st1 := s) end.
    destruct (read_loop_object st1 _ 1 [0%nat] n2 _ f1 H H2 Hf1) as (f2 & Hf2 & E2).
    { unfold under. simpl. repeat split; try discriminate; reflexivity. }
    rewrite E2. clear E2. apply at_suffix_advance in H.
    match goal with |- context [read_loop _ _ ?s] => set (st2 := s) end.
    destruct (read_loop_object st2 _ 1 [0%nat] n3 _ f2 H H3 Hf2) as (f3 & Hf3 & E3).
    { unfold under. simpl. repeat split; try discriminate; lia. }
    rewrite E3. clear E3. apply at_suffix_advance in H.
    match goal with |- context [read_loop _ _ ?s] => set (st3 := s) end.
    destruct (read_loop_object st3 _ 0 [] n4 _ f3 H H4 Hf3) as (f4 & Hf4 & E4).
    { unfold under. simpl. repeat split; try discriminate; lia. }
    rewrite E4. clear E4. apply at_suffix_advance in H.
    match goal with |- context [read_loop _ _ ?s] => set (st4 := s) end.
    assert (H' : at_suffix fdata (pos st4) (object_bytes 2 n5 ++ []))
      by (rewrite app_nil_r; exact H).
    destruct (read_loop_object st4 _ 1 [1%nat] n5 [] f4 H' H5) as (f5 & Hf5 & E5).
    { rewrite app_nil_r. exact Hf4. }
    { unfold under. simpl. repeat split; try discriminate; reflexivity. }
    unfold fdata in E5. rewrite E5. clear E5 H. apply at_suffix_advance in H'.
    rename H' into H.
    match goal with |- context [read_loop _ _ ?s] => set (st5 := s) end.
    exists st5. split; [|repeat split].
    apply read_loop_end; [simpl in Hf5; lia|].
    apply at_suffix_end. exact H. }
  destruct R as (st & E & T & D & C). exists st. repeat split; try assumption.
  unfold read_mesh_data. rewrite E. reflexivity.
Qed.


(** ** The states of the loop *)

Lemma nth_error_update_nth_neq {A : Type} (i j : nat) (f : A -> A) (l : list A) :
  i <> j -> nth_error (update_nth j f l) i = nth_error l i.
Proof.
  revert i j. induction l as [|x l IH]; intros [|i] [|j] H; simpl; try reflexivity.
  - congruence.
  - apply IH. congruence.
Qed.

(** A mutation that only appends children leaves every reference valid. *)
Lemma get_at_update_at_valid (f : Element -> Element) (q : path) :
  (forall x, exists extra, children (f x) = children x ++ extra) ->
  forall p T, get_at p T <> None -> get_at p (update_at q f T) <> None.
Proof.
  intros Hf. induction q as [|j q IH]; intros p T V.
  - simpl. destruct p as [|i p]; [discriminate|]. simpl in *.
    destruct (Hf T) as [extra ->].
    destruct (nth_error (children T) i) as [c|] eqn:E; [|congruence].
    rewrite nth_error_app1 by (apply nth_error_Some; congruence).
    rewrite E. exact V.
  - destruct p as [|i p]; [discriminate|]. simpl in *.
    destruct (Nat.eq_dec i j) as [->|N].
    + rewrite nth_error_update_nth.
      destruct (nth_error (children T) j) as [c|]; [|congruence].
      simpl. apply IH. exact V.
    + rewrite nth_error_update_nth_neq by exact N. exact V.
Qed.

Lemma append_grows (c x : Element) : exists extra, children (append c x) = children x ++ extra.
Proof. exists [c]. reflexivity. Qed.

Lemma set_grows (k : pystr) (v : list pyval) (x : Element) :
  exists extra, children (set k v x) = children x ++ extra.
Proof. exists []. simpl. rewrite app_nil_r. reflexivity. Qed.

Lemma parseObject_depth_ge (fuel : nat) :
  forall bdata objdepth pos d p,
    parseObject_depth fuel bdata objdepth pos = Ok (d, p) -> objdepth <= d.
Proof.
  induction fuel as [|fuel IH]; intros bdata objdepth pos d p H; [discriminate|].
  simpl in H. destruct (unpack_c bdata pos) as [b| |]; simpl in H; try discriminate.
  destruct (decode_c b) as [c| |]; simpl in H; try discriminate.
  destruct (c =? 91)%N.
  - apply IH in H. lia.
  - inversion H. lia.
Qed.

Lemma parseObject_depth_pos (fuel : nat) (bdata : bytes) (pos : Z) (b : byte)
      (name : pystr) (depth p : Z) :
  unpack_c bdata pos = Ok b -> decode_c b = Ok 91%N ->
  parseObject fuel bdata pos = Ok (name, depth, p) -> 1 <= depth.
Proof.
  intros U D H. unfold parseObject in H.
  destruct (parseObject_depth fuel bdata 0 pos) as [[d p']| |] eqn:E; simpl in H;
    try discriminate.
  destruct (parseObject_name fuel bdata [] p') as [[n p'']| |]; simpl in H; try discriminate.
  inversion H; subst. destruct fuel as [|fuel]; [discriminate|].
  simpl in E. rewrite U in E. simpl in E. rewrite D in E. simpl in E.
  apply parseObject_depth_ge in E. lia.
Qed.

(** What an iteration that does not raise has done. *)
Lemma read_step_inv (fuel : nat) (fdata : bytes) (st st' : reader) :
  read_step fuel fdata st = Ok st' ->
  (exists obj_name depth parent dl,
      unpack_c fdata (pos st) = Ok "["%byte /\
      1 <= depth /\
      ((current_depth st < depth /\ dl = depth_list st /\ parent = parent_element st) \/
       (depth <= current_depth st /\ dl = firstn (Z.to_nat depth) (depth_list st) /\
        last_error dl = Some parent)) /\
      file_element st' =
        update_at parent (append (mkElement obj_name [] [])) (file_element st) /\
      parent_element st' = parent ++ [nchildren parent (file_element st)] /\
      depth_list st' = dl ++ [parent_element st'] /\
      current_depth st' = depth /\
      created st' = created st ++ [(depth, parent_element st')]) \/
  (exists prop_name prop_values,
      unpack_c fdata (pos st) = Ok "!"%byte /\
      parseProperty fdata (pos st) = Ok (prop_name, prop_values, pos st') /\
      file_element st' =
        update_at (parent_element st) (set prop_name prop_values) (file_element st) /\
      parent_element st' = parent_element st /\
      depth_list st' = depth_list st /\
      current_depth st' = current_depth st /\
      created st' = created st).
Proof.
  unfold read_step. intros H.
  destruct (unpack_c fdata (pos st)) as [b| |] eqn:U; simpl in H; try discriminate.
  destruct (decode_c b) as [c| |] eqn:D; simpl in H; try discriminate.
  assert (B : Byte.to_N b = c).
  { unfold decode_c in D. destruct (Byte.to_N b <? 128)%N; inversion D. reflexivity. }
  destruct (N.eqb_spec c 91) as [->|N1].
  - left. assert (b = "["%byte) by (apply to_N_inj; exact B). subst b.
    destruct (parseObject fuel fdata (pos st)) as [[[obj_name depth] p]| |] eqn:P;
      simpl in H; try discriminate.
    pose proof (parseObject_depth_pos _ _ _ _ _ _ _ U D P) as Hd.
    destruct (Z.gtb_spec depth (current_depth st)) as [G|G]; simpl in H.
    + inversion H; subst st'; simpl.
      exists obj_name, depth, (parent_element st), (depth_list st).
      repeat split; try assumption. left. repeat split. lia.
    + destruct (last_error (firstn (Z.to_nat depth) (depth_list st))) as [parent|] eqn:L;
        simpl in H; try discriminate.
      inversion H; subst st'; simpl.
      exists obj_name, depth, parent, (firstn (Z.to_nat depth) (depth_list st)).
      repeat split; try assumption. right. repeat split; [lia | exact L].
  - destruct (N.eqb_spec c 33) as [->|N2]; [|discriminate]. right.
    assert (b = "!"%byte) by (apply to_N_inj; exact B). subst b.
    destruct (parseProperty fdata (pos st)) as [[[prop_name prop_values] p]| |] eqn:P;
      simpl in H; try discriminate.
    inversion H; subst st'; simpl. exists prop_name, prop_values.
    repeat split.
Qed.

Lemma firstn_In {A : Type} (n : nat) (l : list A) (x : A) :
  In x (firstn n l) -> In x l.
Proof.
  intros H. rewrite <- (firstn_skipn n l). apply in_or_app. left. exact H.
Qed.

Lemma last_error_In {A : Type} (l : list A) (x : A) : last_error l = Some x -> In x l.
Proof.
  unfold last_error. intros H. apply in_rev.
  destruct (rev l) as [|y r]; inversion H. left. reflexivity.
Qed.

(** In every state of the loop the current parent is the element of the
    most recent object token, and the references the reader holds are
    valid. *)
Lemma reaches_parent (fdata : bytes) (st : reader) :
  reaches fdata st ->
  parent_element st = last_created st /\
  get_at (parent_element st) (file_element st) <> None /\
  Forall (fun p => get_at p (file_element st) <> None) (depth_list st).
Proof.
  induction 1 as [|st fuel st' _ (IP & IV & ID) _ S].
  - repeat split; [discriminate | repeat constructor; discriminate].
  - apply read_step_inv in S.
    destruct S as [(name & depth & parent & dl & _ & _ & Hdl & HT & HP & HD & _ & HC)
                  |(name & values & _ & _ & HT & HP & HD & _ & HC)].
    + assert (V : get_at parent (file_element st) <> None).
      { destruct Hdl as [(_ & _ & ->)|(_ & -> & L)]; [exact IV|].
        apply last_error_In in L. apply firstn_In in L.
        rewrite Forall_forall in ID. apply (ID parent L). }
      assert (VD : Forall (fun p => get_at p (file_element st) <> None) dl).
      { destruct Hdl as [(_ & -> & _)|(_ & -> & _)]; [exact ID|].
        apply Forall_forall. intros p Hp. apply firstn_In in Hp.
        rewrite Forall_forall in ID. apply (ID p Hp). }
      assert (VN : get_at (parent_element st') (file_element st') <> None).
      { rewrite HP, HT, get_at_appended by exact V. discriminate. }
      repeat split.
      * unfold last_created. rewrite HC, last_error_snoc. reflexivity.
      * exact VN.
      * rewrite HD. apply Forall_app. split; [|repeat constructor; exact VN].
        rewrite HT. eapply Forall_impl; [|exact VD]. intros p Hp.
        apply get_at_update_at_valid; [apply append_grows | exact Hp].
    + repeat split.
      * rewrite HP. unfold last_created. rewrite HC. exact IP.
      * rewrite HP, HT. apply get_at_update_at_valid; [apply set_grows | exact IV].
      * rewrite HD, HT. eapply Forall_impl; [|exact ID]. intros p Hp.
        apply get_at_update_at_valid; [apply set_grows | exact Hp].
Qed.

Lemma read_loop_reaches (fuel : nat) (fdata : bytes) :
  forall st st', reaches fdata st -> read_loop fuel fdata st = Ok st' -> reaches fdata st'.
Proof.
  induction fuel as [|fuel IH]; intros st st' R H; [discriminate|].
  simpl in H. destruct (Z.ltb_spec (pos st) (Z.of_nat (length fdata))) as [L|L].
  - destruct (read_step fuel fdata st) as [st1| |] eqn:S; simpl in H; try discriminate.
    apply (IH st1 st'); [|exact H]. apply (reaches_step fdata st fuel st1 R L S).
  - inversion H; subst. exact R.
Qed.

Lemma read_mesh_state_reaches (fuel : nat) (fdata : bytes) (st : reader) :
  read_mesh_state fuel fdata = Ok st -> reaches fdata st.
Proof.
  unfold read_mesh_state. intros H.
  destruct (unpack_from 4 fdata 0) as [hdr| |]; simpl in H; try discriminate.
  destruct (list_eq_dec Byte.byte_eq_dec hdr header); [|discriminate].
  apply (read_loop_reaches fuel fdata read_init st (reaches_init fdata) H).
Qed.

Lemma dict_get_set (d : list (pystr * list pyval)) (k : pystr) (v : list pyval) :
  dict_get (dict_set d k v) k = Some v.
Proof.
  induction d as [|[k' v'] d IH]; simpl.
  - rewrite pystr_eqb_refl. reflexivity.
  - destruct (pystr_eqb k' k) eqn:E; simpl; rewrite E; [reflexivity | exact IH].
Qed.

(** C6.  In every state of the decoding loop, a property token is assigned
    as an attribute of the element made for the most recent object token,
    whatever was read before that token; when no object token has been
    read, that element is the document root. *)
Theorem property_attaches (fdata : bytes) (st : reader) (fuel : nat) (st' : reader) :
  reaches fdata st ->
  unpack_c fdata (pos st) = Ok "!"%byte ->
  read_step fuel fdata st = Ok st' ->
  exists prop_name prop_values owner,
    parseProperty fdata (pos st) = Ok (prop_name, prop_values, pos st') /\
    file_element st' =
      update_at (last_created st) (set prop_name prop_values) (file_element st) /\
    get_at (last_created st) (file_element st') = Some owner /\
    get owner prop_name = Some prop_values /\
    created st' = created st /\
    (created st = [] -> last_created st = []).
Proof.
  intros R U S. destruct (reaches_parent fdata st R) as (IP & IV & _).
  apply read_step_inv in S.
  destruct S as [(name & depth & parent & dl & U' & _)
                |(name & values & _ & P & HT & HP & HD & _ & HC)]; [congruence|].
  rewrite IP in *.
  destruct (get_at (last_created st) (file_element st)) as [x|] eqn:G; [|congruence].
  exists name, values, (set name values x). repeat split.
  - exact P.
  - exact HT.
  - rewrite HT, get_at_update_at, G. reflexivity.
  - unfold get, set. simpl. apply dict_get_set.
  - exact HC.
  - intros E. unfold last_created. rewrite E. reflexivity.
Qed.


(** ** Nesting levels and depth markers *)

Lemma last_cons_default {A : Type} (l : list A) :
  forall x d, last (x :: l) d = last l x.
Proof.
  induction l as [|y l IH]; intros x d; [reflexivity|].
  change (last (x :: y :: l) d) with (last (y :: l) d).
  rewrite (IH y d), (IH y x). reflexivity.
Qed.

Lemma steps_by_one_snoc (l : list Z) :
  forall prev d,
    steps_by_one prev (l ++ [d]) <-> steps_by_one prev l /\ d <= last l prev + 1.
Proof.
  induction l as [|x l IH]; intros prev d.
  - simpl. tauto.
  - change ((x :: l) ++ [d]) with (x :: (l ++ [d])). cbn [steps_by_one].
    rewrite IH, last_cons_default. tauto.
Qed.

Lemma last_error_nth {A : Type} (l : list A) (x : A) :
  last_error l = Some x -> nth_error l (length l - 1) = Some x.
Proof.
  intros H. destruct (exists_last (l := l)) as (l' & y & ->).
  - intros ->. discriminate.
  - rewrite last_error_snoc in H. inversion H; subst.
    rewrite length_app. simpl. rewrite nth_error_app2 by lia.
    replace (length l' + 1 - 1 - length l')%nat with 0%nat by lia. reflexivity.
Qed.

Lemma nth_error_snoc {A : Type} (l : list A) (x y : A) (i : nat) :
  nth_error (l ++ [x]) i = Some y ->
  (i < length l /\ nth_error l i = Some y)%nat \/ (i = length l /\ y = x).
Proof.
  intros H. destruct (Nat.lt_ge_cases i (length l)) as [L|L].
  - left. rewrite nth_error_app1 in H by exact L. split; assumption.
  - right. rewrite nth_error_app2 in H by exact L.
    destruct (i - length l)%nat as [|k] eqn:E; simpl in H.
    + inversion H. split; [lia | reflexivity].
    + destruct k; discriminate.
Qed.

(** The levels of the ancestor stack when the depths go up by one at most:
    entry [i] of [depth_list] is at nesting level [i], the stack has
    [current_depth + 1] entries, and every element made so far sits at the
    level its token gave. *)
Lemma reaches_levels (fdata : bytes) (st : reader) :
  reaches fdata st ->
  steps_by_one 0 (map fst (created st)) ->
  Z.of_nat (length (depth_list st)) = current_depth st + 1 /\
  (forall i p, nth_error (depth_list st) i = Some p -> length p = i) /\
  last_error (depth_list st) = Some (parent_element st) /\
  current_depth st = last (map fst (created st)) 0 /\
  Forall level_matches (created st).
Proof.
  induction 1 as [|st fuel st' _ IH _ S]; intros G.
  - repeat split; try constructor.
    intros [|i] p H; simpl in H; [inversion H; reflexivity | destruct i; discriminate].
  - apply read_step_inv in S.
    destruct S as [(name & depth & parent & dl & _ & D1 & Hdl & _ & HP & HD & HCd & HC)
                  |(name & values & _ & _ & _ & HP & HD & HCd & HC)].
    + rewrite HC, map_app in G. simpl in G. apply steps_by_one_snoc in G.
      destruct G as [G Hstep]. destruct (IH G) as (IL & IN & IP & IC & IF).
      rewrite <- IC in Hstep.
      assert (P : length dl = Z.to_nat depth /\
                  (forall i p, nth_error dl i = Some p -> length p = i) /\
                  length parent = (Z.to_nat depth - 1)%nat).
      { destruct Hdl as [(Hlt & -> & ->)|(Hle & -> & L)].
        - repeat split; [lia | exact IN |].
          apply last_error_nth in IP. apply IN in IP. lia.
        - assert (Ln : length (firstn (Z.to_nat depth) (depth_list st)) = Z.to_nat depth)
            by (rewrite length_firstn; lia).
          repeat split; [exact Ln | |].
          + intros i p Hi.
            assert (i < Z.to_nat depth)%nat
              by (rewrite <- Ln; apply nth_error_Some; congruence).
            rewrite nth_error_firstn_lt in Hi by assumption. apply (IN i p Hi).
          + apply last_error_nth in L. rewrite Ln in L.
            rewrite nth_error_firstn_lt in L by lia. apply IN in L. exact L. }
      destruct P as (PL & PN & PP).
      assert (LN : length (parent_element st') = Z.to_nat depth).
      { rewrite HP, length_app. simpl. lia. }
      repeat split.
      * rewrite HD, length_app. simpl. lia.
      * intros i p Hi. rewrite HD in Hi. apply nth_error_snoc in Hi.
        destruct Hi as [[_ Hi]|[-> ->]]; [apply (PN i p Hi) | lia].
      * rewrite HD. apply last_error_snoc.
      * rewrite HCd, HC, map_app. simpl. rewrite last_last. reflexivity.
      * rewrite HC. apply Forall_app. split; [exact IF|].
        constructor; [|constructor]. unfold level_matches. simpl. lia.
    + rewrite HC in G. destruct (IH G) as (IL & IN & IP & IC & IF).
      rewrite HD, HCd, HP, HC. repeat split; assumption.
Qed.

Lemma get_at_childless (p : path) (t : pystr) (a : list (pystr * list pyval)) :
  get_at p (mkElement t a []) <> None -> p = [].
Proof.
  destruct p as [|i p]; [reflexivity|]. simpl.
  destruct i; simpl; intros H; exfalso; apply H; reflexivity.
Qed.

(** The references that become valid when a childless element is appended
    under [q]: the reference to that element. *)
Lemma get_at_append_inv (c : Element) (q : path) :
  children c = [] ->
  forall p T,
    get_at p (update_at q (append c) T) <> None ->
    get_at p T <> None \/ p = q ++ [nchildren q T].
Proof.
  intros Hc. unfold nchildren. induction q as [|j q IH]; intros p T V.
  - destruct p as [|i p]; [left; discriminate|]. simpl in *.
    destruct (Nat.lt_ge_cases i (length (children T))) as [L|L].
    + left. rewrite nth_error_app1 in V by exact L. exact V.
    + right. rewrite nth_error_app2 in V by exact L.
      destruct (i - length (children T))%nat as [|k] eqn:E; simpl in V.
      * destruct c as [t a cs]. simpl in Hc. subst cs.
        apply get_at_childless in V. subst p. f_equal. lia.
      * destruct k; simpl in V; exfalso; apply V; reflexivity.
  - destruct p as [|i p]; [left; discriminate|]. simpl in *.
    destruct (Nat.eq_dec i j) as [->|N].
    + rewrite nth_error_update_nth in V.
      destruct (nth_error (children T) j) as [x|];
        [|simpl in V; exfalso; apply V; reflexivity].
      simpl in V. destruct (IH p x V) as [H|H]; [left; exact H | right; f_equal; exact H].
    + rewrite nth_error_update_nth_neq in V by exact N. left. exact V.
Qed.

Lemma get_at_set_inv (k : pystr) (v : list pyval) (q : path) :
  forall p T, get_at p (update_at q (set k v) T) <> None -> get_at p T <> None.
Proof.
  induction q as [|j q IH]; intros p T V.
  - destruct p as [|i p]; [discriminate|]. exact V.
  - destruct p as [|i p]; [discriminate|]. simpl in *.
    destruct (Nat.eq_dec i j) as [->|N].
    + rewrite nth_error_update_nth in V.
      destruct (nth_error (children T) j) as [x|];
        [|simpl in V; exfalso; apply V; reflexivity].
      simpl in V. apply (IH p x V).
    + rewrite nth_error_update_nth_neq in V by exact N. exact V.
Qed.

(** Every element of the document other than the root was made for an
    object token of the log. *)
Lemma reaches_nodes (fdata : bytes) (st : reader) :
  reaches fdata st ->
  forall p, get_at p (file_element st) <> None ->
            p = [] \/ In p (map snd (created st)).
Proof.
  induction 1 as [|st fuel st' _ IH _ S]; intros p V.
  - left. simpl in V. apply (get_at_childless p _ _ V).
  - apply read_step_inv in S.
    destruct S as [(name & depth & parent & dl & _ & _ & _ & HT & HP & _ & _ & HC)
                  |(name & values & _ & _ & HT & _ & _ & _ & HC)].
    + rewrite HT in V. apply get_at_append_inv in V; [|reflexivity].
      rewrite HC, map_app, in_app_iff. destruct V as [V|V].
      * destruct (IH p V) as [E|I]; [left; exact E | right; left; exact I].
      * right. right. simpl. left. rewrite HP. symmetry. exact V.
    + rewrite HT in V. apply get_at_set_inv in V. rewrite HC. apply (IH p V).
Qed.

(** C4, amended.  For every buffer that decode accepts and in which no
    object token is more than one level deeper than the object token before
    it (the first being at depth 1 at most), every element of the returned
    tree other than the root was made for an object token and sits at the
    nesting level equal to the number of "[" bytes in that token. *)
Theorem nesting_levels (fuel : nat) (fdata : bytes) (st : reader) :
  read_mesh_state fuel fdata = Ok st ->
  steps_by_one 0 (map fst (created st)) ->
  read_mesh_data fuel fdata = Ok (file_element st) /\
  Forall level_matches (created st) /\
  (forall p, p <> [] -> get_at p (file_element st) <> None ->
             exists depth, In (depth, p) (created st) /\ Z.of_nat (length p) = depth).
Proof.
  intros H G. pose proof (read_mesh_state_reaches fuel fdata st H) as R.
  destruct (reaches_levels fdata st R G) as (_ & _ & _ & _ & F).
  split; [unfold read_mesh_data; rewrite H; reflexivity|]. split; [exact F|].
  intros p NE V. destruct (reaches_nodes fdata st R p V) as [E|I]; [congruence|].
  apply in_map_iff in I. destruct I as ([depth p'] & E & I). simpl in E. subst p'.
  exists depth. split; [exact I|]. rewrite Forall_forall in F. apply (F _ I).
Qed.


(** ** The exceptions of the reader *)

Lemma unpack_from_err (size : nat) (bdata : bytes) (offset : Z) (e : pyerr) :
  unpack_from size bdata offset = Err e -> e = StructError.
Proof.
  unfold unpack_from. destruct (_ || _); intros H; inversion H. reflexivity.
Qed.

Lemma unpack_c_err (bdata : bytes) (offset : Z) (e : pyerr) :
  unpack_c bdata offset = Err e -> e = StructError.
Proof.
  unfold unpack_c. destruct (unpack_from 1 bdata offset) as [bs| |] eqn:U; simpl.
  - destruct bs as [|b [|? ?]]; intros H; inversion H; reflexivity.
  - intros H. inversion H; subst. apply (unpack_from_err _ _ _ _ U).
  - discriminate.
Qed.

Lemma unpack_b_err (bdata : bytes) (offset : Z) (e : pyerr) :
  unpack_b bdata offset = Err e -> e = StructError.
Proof.
  unfold unpack_b. destruct (unpack_c bdata offset) eqn:U; simpl; try discriminate.
  intros H. inversion H; subst. apply (unpack_c_err _ _ _ U).
Qed.

Lemma unpack_i_err (bdata : bytes) (offset : Z) (e : pyerr) :
  unpack_i bdata offset = Err e -> e = StructError.
Proof.
  unfold unpack_i. destruct (unpack_from 4 bdata offset) eqn:U; simpl; try discriminate.
  intros H. inversion H; subst. apply (unpack_from_err _ _ _ _ U).
Qed.

Lemma decode_c_err (b : byte) (e : pyerr) : decode_c b = Err e -> e = UnicodeDecodeError.
Proof.
  unfold decode_c. destruct (_ <? _)%N; intros H; inversion H. reflexivity.
Qed.

Lemma decode_c_ok (b : byte) (c : N) :
  decode_c b = Ok c <-> ascii_byte b /\ c = Byte.to_N b.
Proof.
  unfold decode_c, ascii_byte. destruct (N.ltb_spec (Byte.to_N b) 128) as [A|A]; split.
  - intros E. inversion E. split; [assumption | reflexivity].
  - intros [_ ->]. reflexivity.
  - discriminate.
  - intros [L _]. lia.
Qed.

Lemma parseString_err (bdata : bytes) (pos length : Z) (e : pyerr) :
  parseString bdata pos length = Err e -> e = StructError \/ e = IndexError.
Proof.
  unfold parseString.
  destruct (unpack_from (Z.to_nat length) bdata pos) as [bs| |] eqn:U; simpl.
  - destruct (rev (decode_latin1 bs)) as [|c r].
    + intros H. inversion H. right. reflexivity.
    + destruct (c =? 0)%N; discriminate.
  - intros H. inversion H; subst. left. apply (unpack_from_err _ _ _ _ U).
  - discriminate.
Qed.

Lemma parseObject_depth_err (fuel : nat) :
  forall bdata objdepth pos e,
    parseObject_depth fuel bdata objdepth pos = Err e ->
    e = StructError \/ e = UnicodeDecodeError.
Proof.
  induction fuel as [|fuel IH]; intros bdata objdepth pos e H; [discriminate|].
  simpl in H. destruct (unpack_c bdata pos) as [b| |] eqn:U; simpl in H; try discriminate.
  - destruct (decode_c b) as [c| |] eqn:D; simpl in H; try discriminate.
    + destruct (c =? 91)%N; [apply (IH _ _ _ _ H) | discriminate].
    + inversion H; subst. right. apply (decode_c_err _ _ D).
  - inversion H; subst. left. apply (unpack_c_err _ _ _ U).
Qed.

Lemma parseObject_name_err (fuel : nat) :
  forall bdata obj_name pos e,
    parseObject_name fuel bdata obj_name pos = Err e -> e = StructError.
Proof.
  induction fuel as [|fuel IH]; intros bdata obj_name pos e H; [discriminate|].
  simpl in H. destruct (unpack_b bdata pos) as [b| |] eqn:U; simpl in H; try discriminate.
  - destruct (negb (b =? 0)); [|discriminate].
    destruct (unpack_c bdata pos) as [c| |] eqn:C; simpl in H; try discriminate.
    + apply (IH _ _ _ _ H).
    + inversion H; subst. apply (unpack_c_err _ _ _ C).
  - inversion H; subst. apply (unpack_b_err _ _ _ U).
Qed.

Lemma parseObject_err (fuel : nat) (bdata : bytes) (pos : Z) (e : pyerr) :
  parseObject fuel bdata pos = Err e -> e = StructError \/ e = UnicodeDecodeError.
Proof.
  unfold parseObject. intros H.
  destruct (parseObject_depth fuel bdata 0 pos) as [[d p]| |] eqn:D; simpl in H;
    try discriminate.
  - destruct (parseObject_name fuel bdata [] p) as [[n p']| |] eqn:N; simpl in H;
      try discriminate.
    inversion H; subst. left. apply (parseObject_name_err _ _ _ _ _ N).
  - inversion H; subst. apply (parseObject_depth_err _ _ _ _ _ D).
Qed.

Lemma not_implemented_neq (e : pyerr) (why : not_implemented) :
  e = StructError \/ e = UnicodeDecodeError \/ e = IndexError ->
  e <> NotImplementedError why.
Proof. intros [-> | [-> | ->]]; discriminate. Qed.

Lemma parseData_raises (bdata : bytes) (pos : Z) (why : not_implemented) :
  parseData bdata pos = Err (NotImplementedError why) <->
  why = UnknownDataTypeRead /\
  exists t datacount,
    unpack_c bdata pos = Ok t /\ ascii_byte t /\
    t <> "i"%byte /\ t <> "f"%byte /\ t <> "s"%byte /\
    unpack_i bdata (pos + 1) = Ok datacount.
Proof.
  unfold parseData. split.
  - intros H.
    destruct (unpack_c bdata pos) as [t| |] eqn:U; simpl in H; try discriminate;
      [|inversion H; subst; apply unpack_c_err in U; discriminate].
    destruct (decode_c t) as [c| |] eqn:D; simpl in H; try discriminate;
      [|inversion H; subst; apply decode_c_err in D; discriminate].
    apply decode_c_ok in D. destruct D as [A ->].
    destruct (unpack_i bdata (pos + 1)) as [n| |] eqn:I; simpl in H; try discriminate;
      [|inversion H; subst; apply unpack_i_err in I; discriminate].
    destruct (N.eqb_spec (Byte.to_N t) 105) as [E1|E1].
    { unfold unpack_is in H.
      destruct (unpack_from _ bdata (pos + 1 + 4)) eqn:F; simpl in H; try discriminate.
      inversion H; subst. apply unpack_from_err in F. discriminate. }
    destruct (N.eqb_spec (Byte.to_N t) 102) as [E2|E2].
    { unfold unpack_fs in H.
      destruct (unpack_from _ bdata (pos + 1 + 4)) eqn:F; simpl in H; try discriminate.
      inversion H; subst. apply unpack_from_err in F. discriminate. }
    destruct (N.eqb_spec (Byte.to_N t) 115) as [E3|E3].
    { destruct (unpack_i bdata (pos + 1 + 4)) as [l| |] eqn:I2; simpl in H; try discriminate;
        [|inversion H; subst; apply unpack_i_err in I2; discriminate].
      destruct (parseString bdata (pos + 1 + 4 + 4) l) eqn:S; simpl in H; try discriminate.
      inversion H; subst. apply parseString_err in S. destruct S; discriminate. }
    inversion H; subst. split; [reflexivity|]. exists t, n.
    repeat split; try assumption; intros ->; [apply E1 | apply E2 | apply E3]; reflexivity.
  - intros (-> & t & n & U & A & N1 & N2 & N3 & I).
    rewrite U. cbn [bind]. rewrite (proj2 (decode_c_ok t _) (conj A eq_refl)). cbn [bind].
    rewrite I. cbn [bind].
    destruct (N.eqb_spec (Byte.to_N t) 105) as [E|_];
      [exfalso; apply N1, to_N_inj; exact E|].
    destruct (N.eqb_spec (Byte.to_N t) 102) as [E|_];
      [exfalso; apply N2, to_N_inj; exact E|].
    destruct (N.eqb_spec (Byte.to_N t) 115) as [E|_];
      [exfalso; apply N3, to_N_inj; exact E|].
    reflexivity.
Qed.

Lemma parseProperty_raises (bdata : bytes) (pos : Z) (why : not_implemented) :
  parseProperty bdata pos = Err (NotImplementedError why) <->
  why = UnknownDataTypeRead /\
  exists prop_name_length prop_name t datacount,
    unpack_b bdata (pos + 1) = Ok prop_name_length /\
    parseString bdata (pos + 1 + 1) prop_name_length = Ok prop_name /\
    unpack_c bdata (pos + 1 + 1 + prop_name_length) = Ok t /\
    ascii_byte t /\ t <> "i"%byte /\ t <> "f"%byte /\ t <> "s"%byte /\
    unpack_i bdata (pos + 1 + 1 + prop_name_length + 1) = Ok datacount.
Proof.
  unfold parseProperty. split.
  - intros H.
    destruct (unpack_b bdata (pos + 1)) as [l| |] eqn:U; simpl in H; try discriminate;
      [|inversion H; subst; apply unpack_b_err in U; discriminate].
    destruct (parseString bdata (pos + 1 + 1) l) as [name| |] eqn:S; simpl in H;
      try discriminate;
      [|inversion H; subst; apply parseString_err in S; destruct S; discriminate].
    destruct (parseData bdata (pos + 1 + 1 + l)) as [[v p]| |] eqn:D; simpl in H;
      try discriminate.
    inversion H; subst. apply parseData_raises in D.
    destruct D as (-> & t & n & D). split; [reflexivity|].
    exists l, name, t, n. tauto.
  - intros (-> & l & name & t & n & U & S & D).
    rewrite U. cbn [bind]. rewrite S. cbn [bind].
    rewrite (proj2 (parseData_raises bdata (pos + 1 + 1 + l) UnknownDataTypeRead)).
    + reflexivity.
    + split; [reflexivity|]. exists t, n. exact D.
Qed.

(** An iteration raises [NotImplementedError] exactly on a bad token. *)
Lemma read_step_raises (fuel : nat) (fdata : bytes) (st : reader) (why : not_implemented) :
  read_step fuel fdata st = Err (NotImplementedError why) <-> bad_token fdata st why.
Proof.
  unfold read_step, bad_token. split.
  - intros H.
    destruct (unpack_c fdata (pos st)) as [b| |] eqn:U; simpl in H; try discriminate;
      [|inversion H; subst; apply unpack_c_err in U; discriminate].
    destruct (decode_c b) as [c| |] eqn:D; simpl in H; try discriminate;
      [|inversion H; subst; apply decode_c_err in D; discriminate].
    apply decode_c_ok in D. destruct D as [A ->].
    destruct (N.eqb_spec (Byte.to_N b) 91) as [E1|E1].
    { exfalso.
      destruct (parseObject fuel fdata (pos st)) as [[[n d] p]| |] eqn:P; simpl in H;
        try discriminate.
      - destruct (negb (d >? current_depth st)); simpl in H; [|discriminate].
        destruct (last_error _); simpl in H; discriminate.
      - inversion H; subst. apply parseObject_err in P. destruct P; discriminate. }
    destruct (N.eqb_spec (Byte.to_N b) 33) as [E2|E2].
    { right. assert (b = "!"%byte) by (apply to_N_inj; exact E2). subst b.
      destruct (parseProperty fdata (pos st)) as [[[n v] p]| |] eqn:P; simpl in H;
        try discriminate.
      inversion H; subst. apply parseProperty_raises in P.
      destruct P as [-> P]. split; [reflexivity|]. split; [reflexivity | exact P]. }
    left. inversion H; subst. split; [reflexivity|]. exists b.
    repeat split; try assumption; intros ->; [apply E1 | apply E2]; reflexivity.
  - intros [(-> & b & U & A & N1 & N2)|(-> & U & P)].
    + rewrite U. cbn [bind]. rewrite (proj2 (decode_c_ok b _) (conj A eq_refl)). cbn [bind].
      destruct (N.eqb_spec (Byte.to_N b) 91) as [E|_];
        [exfalso; apply N1, to_N_inj; exact E|].
      destruct (N.eqb_spec (Byte.to_N b) 33) as [E|_];
        [exfalso; apply N2, to_N_inj; exact E|].
      reflexivity.
    + rewrite U. cbn [bind].
      change (decode_c "!"%byte) with (Ok (A := N) 33%N). cbn [bind].
      change (33 =? 91)%N with false. change (33 =? 33)%N with true. cbv iota.
      rewrite (proj2 (parseProperty_raises fdata (pos st) UnknownDataTypeRead)
                 (conj eq_refl P)).
      reflexivity.
Qed.

Lemma read_loop_raises (fuel : nat) (fdata : bytes) (why : not_implemented) :
  forall st,
    reaches fdata st ->
    read_loop fuel fdata st = Err (NotImplementedError why) ->
    exists st', reaches fdata st' /\ pos st' < Z.of_nat (length fdata) /\
                bad_token fdata st' why.
Proof.
  induction fuel as [|fuel IH]; intros st R H; [discriminate|].
  simpl in H. destruct (Z.ltb_spec (pos st) (Z.of_nat (length fdata))) as [L|L];
    [|discriminate].
  destruct (read_step fuel fdata st) as [st1| |] eqn:S; simpl in H; try discriminate.
  - apply (IH st1); [|exact H]. apply (reaches_step fdata st fuel st1 R L S).
  - inversion H; subst. exists st. repeat split; try assumption.
    apply (read_step_raises fuel). exact S.
Qed.

(** A state of the loop is the state of the run itself once the run has
    fuel enough. *)
Lemma reaches_run (fdata : bytes) (st : reader) :
  reaches fdata st ->
  exists k n, forall m, (n <= m)%nat ->
    read_loop (k + m) fdata read_init = read_loop m fdata st.
Proof.
  induction 1 as [|st fuel st' _ (k & n & IH) L Hs].
  - exists 0%nat, 0%nat. reflexivity.
  - exists (S k), (Nat.max n fuel). intros m Hm.
    replace (S k + m)%nat with (k + S m)%nat by lia.
    rewrite (IH (S m)) by lia. simpl.
    destruct (Z.ltb_spec (pos st) (Z.of_nat (length fdata))); [|lia].
    rewrite (read_step_mono fuel m fdata st) by (try lia; congruence).
    rewrite Hs. reflexivity.
Qed.

Lemma unpack_header (fdata : bytes) :
  unpack_from 4 fdata 0 =
  if (length fdata <? 4)%nat then Err StructError else Ok (firstn 4 fdata).
Proof.
  unfold unpack_from. simpl.
  destruct (Nat.ltb_spec (length fdata) 4);
    destruct (Z.ltb_spec (Z.of_nat (length fdata) - 0) 4); try lia; reflexivity.
Qed.

Lemma read_mesh_data_unfold (fuel : nat) (fdata : bytes) :
  read_mesh_data fuel fdata =
  if (length fdata <? 4)%nat then Err StructError
  else if list_eq_dec Byte.byte_eq_dec (firstn 4 fdata) header
       then st <- read_loop fuel fdata read_init ;; Ok (file_element st)
       else Err (NotImplementedError UnknownFileHeader).
Proof.
  unfold read_mesh_data, read_mesh_state. rewrite unpack_header.
  destruct (length fdata <? 4)%nat; cbn [bind]; [reflexivity|].
  destruct (list_eq_dec Byte.byte_eq_dec (firstn 4 fdata) header); reflexivity.
Qed.


(** ** The scanning loops of [parseObject] terminate *)

Lemma unpack_c_room (bdata : bytes) (pos : Z) (b : byte) :
  unpack_c bdata pos = Ok b ->
  (scan_room bdata (pos + 1) < scan_room bdata pos)%nat.
Proof.
  unfold unpack_c, unpack_from, scan_room.
  set (len := Z.of_nat (length bdata)).
  change (Z.of_nat 1) with 1.
  repeat match goal with
         | |- context [Z.ltb ?a ?b] => destruct (Z.ltb_spec a b)
         end; cbn [orb bind]; try discriminate; intros _; lia.
Qed.

Lemma scan_room_bound (bdata : bytes) (pos : Z) :
  (scan_room bdata pos <= 2 * length bdata)%nat.
Proof.
  unfold scan_room.
  destruct (Z.ltb_spec (pos + Z.of_nat (length bdata)) 0); lia.
Qed.

Lemma parseObject_depth_room (fuel : nat) :
  forall bdata objdepth pos,
    (scan_room bdata pos < fuel)%nat ->
    parseObject_depth fuel bdata objdepth pos <> OutOfFuel.
Proof.
  induction fuel as [|fuel IH]; intros bdata objdepth pos R; [lia|].
  cbn [parseObject_depth].
  destruct (unpack_c bdata pos) as [b| |] eqn:U; cbn [bind]; try discriminate.
  - destruct (decode_c b) as [c| |] eqn:D; cbn [bind]; try discriminate.
    + destruct (c =? 91)%N; [|discriminate].
      apply IH. apply unpack_c_room in U. lia.
    + unfold decode_c in D. destruct (Byte.to_N b <? 128)%N; discriminate.
  - unfold unpack_c, unpack_from in U.
    destruct ((_ <? 0) || _); cbn [bind] in U; [discriminate|].
    destruct (firstn 1 _) as [|? [|? ?]]; discriminate.
Qed.

Lemma unpack_c_fuel (bdata : bytes) (pos : Z) : unpack_c bdata pos <> OutOfFuel.
Proof.
  unfold unpack_c, unpack_from.
  destruct ((_ <? 0) || _); cbn [bind]; [discriminate|].
  destruct (firstn 1 _) as [|? [|? ?]]; discriminate.
Qed.

Lemma parseObject_name_room (fuel : nat) :
  forall bdata obj_name pos,
    (scan_room bdata pos < fuel)%nat ->
    parseObject_name fuel bdata obj_name pos <> OutOfFuel.
Proof.
  induction fuel as [|fuel IH]; intros bdata obj_name pos R; [lia|].
  cbn [parseObject_name]. unfold unpack_b.
  destruct (unpack_c bdata pos) as [b| |] eqn:U; cbn [bind]; try discriminate.
  - destruct (negb (signed_byte b =? 0)); [|discriminate].
    apply IH. apply unpack_c_room in U. lia.
  - exfalso. exact (unpack_c_fuel _ _ U).
Qed.

Lemma unpack_from_fuel (size : nat) (bdata : bytes) (offset : Z) :
  unpack_from size bdata offset <> OutOfFuel.
Proof. unfold unpack_from. destruct ((_ <? 0) || _); discriminate. Qed.

Lemma unpack_i_fuel (bdata : bytes) (offset : Z) : unpack_i bdata offset <> OutOfFuel.
Proof.
  unfold unpack_i. pose proof (unpack_from_fuel 4 bdata offset).
  destruct (unpack_from 4 bdata offset); cbn [bind]; congruence.
Qed.

Lemma parseString_fuel (bdata : bytes) (pos length : Z) :
  parseString bdata pos length <> OutOfFuel.
Proof.
  unfold parseString. pose proof (unpack_from_fuel (Z.to_nat length) bdata pos).
  destruct (unpack_from (Z.to_nat length) bdata pos) as [v| |]; cbn [bind]; try congruence.
  destruct (rev (decode_latin1 v)) as [|c ?]; [discriminate|].
  destruct (c =? 0)%N; discriminate.
Qed.

Lemma parseData_fuel (bdata : bytes) (pos : Z) : parseData bdata pos <> OutOfFuel.
Proof.
  unfold parseData.
  pose proof (unpack_c_fuel bdata pos).
  destruct (unpack_c bdata pos) as [b| |]; cbn [bind]; try congruence.
  destruct (decode_c b) as [t| |] eqn:D; cbn [bind]; try discriminate.
  2:{ unfold decode_c in D. destruct (Byte.to_N b <? 128)%N; discriminate. }
  pose proof (unpack_i_fuel bdata (pos + 1)).
  destruct (unpack_i bdata (pos + 1)) as [n| |]; cbn [bind]; try congruence.
  destruct (t =? 105)%N.
  { unfold unpack_is. pose proof (unpack_from_fuel (4 * Z.to_nat n) bdata (pos + 1 + 4)).
    destruct (unpack_from (4 * Z.to_nat n) bdata (pos + 1 + 4)); cbn [bind]; congruence. }
  destruct (t =? 102)%N.
  { unfold unpack_fs. pose proof (unpack_from_fuel (4 * Z.to_nat n) bdata (pos + 1 + 4)).
    destruct (unpack_from (4 * Z.to_nat n) bdata (pos + 1 + 4)); cbn [bind]; congruence. }
  destruct (t =? 115)%N; [|discriminate].
  pose proof (unpack_i_fuel bdata (pos + 1 + 4)).
  destruct (unpack_i bdata (pos + 1 + 4)) as [l| |]; cbn [bind]; try congruence.
  pose proof (parseString_fuel bdata (pos + 1 + 4 + 4) l).
  destruct (parseString bdata (pos + 1 + 4 + 4) l); cbn [bind]; congruence.
Qed.

Lemma parseProperty_fuel (bdata : bytes) (pos : Z) : parseProperty bdata pos <> OutOfFuel.
Proof.
  unfold parseProperty, unpack_b.
  pose proof (unpack_c_fuel bdata (pos + 1)).
  destruct (unpack_c bdata (pos + 1)) as [b| |]; cbn [bind]; try congruence.
  pose proof (parseString_fuel bdata (pos + 1 + 1) (signed_byte b)).
  destruct (parseString bdata (pos + 1 + 1) (signed_byte b)) as [n| |]; cbn [bind];
    try congruence.
  pose proof (parseData_fuel bdata (pos + 1 + 1 + signed_byte b)).
  destruct (parseData bdata (pos + 1 + 1 + signed_byte b)) as [[v p]| |]; cbn [bind];
    congruence.
Qed.

Lemma parseObject_room (fuel : nat) (bdata : bytes) (offset : Z) :
  (2 * length bdata < fuel)%nat -> parseObject fuel bdata offset <> OutOfFuel.
Proof.
  intros F. unfold parseObject.
  pose proof (parseObject_depth_room fuel bdata 0 offset) as D.
  destruct (parseObject_depth fuel bdata 0 offset) as [[d p']| |]; cbn [bind].
  - pose proof (parseObject_name_room fuel bdata [] p') as Nm.
    destruct (parseObject_name fuel bdata [] p') as [[n p'']| |]; cbn [bind].
    + discriminate.
    + discriminate.
    + intros _. apply Nm; [|reflexivity]. pose proof (scan_room_bound bdata p'). lia.
  - discriminate.
  - intros _. apply D; [|reflexivity]. pose proof (scan_room_bound bdata offset). lia.
Qed.

Lemma read_step_room (fuel : nat) (fdata : bytes) (st : reader) :
  (2 * length fdata < fuel)%nat -> read_step fuel fdata st <> OutOfFuel.
Proof.
  intros F. unfold read_step.
  pose proof (unpack_c_fuel fdata (pos st)) as U.
  destruct (unpack_c fdata (pos st)) as [b| |]; cbn [bind]; try congruence.
  destruct (decode_c b) as [c| |] eqn:D; cbn [bind]; try discriminate.
  2:{ unfold decode_c in D. destruct (Byte.to_N b <? 128)%N; discriminate. }
  destruct (c =? 91)%N.
  - pose proof (parseObject_room fuel fdata (pos st) F) as P.
    destruct (parseObject fuel fdata (pos st)) as [[[n d] p']| |];
      cbn [bind]; try congruence.
    destruct (negb (d >? current_depth st)); cbn [bind]; [|discriminate].
    destruct (last_error _); cbn [bind]; discriminate.
  - destruct (c =? 33)%N; [|discriminate].
    pose proof (parseProperty_fuel fdata (pos st)) as PP.
    destruct (parseProperty fdata (pos st)) as [[[n v] p']| |];
      cbn [bind]; congruence.
Qed.

(** X1. With more fuel than twice the length of the buffer, neither loop of
    [parseObject] is cut short: the function returns or raises, and so does
    every iteration of the loop of [read_meshfile]. *)
Theorem parseObject_terminates (fuel : nat) (bdata : bytes) (offset : Z) :
  (2 * length bdata < fuel)%nat ->
  parseObject fuel bdata offset <> OutOfFuel /\
  forall st, read_step fuel bdata st <> OutOfFuel.
Proof.
  intros F. split.
  - exact (parseObject_room fuel bdata offset F).
  - intros st. exact (read_step_room fuel bdata st F).
Qed.


(** ** A property that rewinds the cursor *)

Lemma parseObject_depth_advance (fuel : nat) :
  forall bdata objdepth pos d p,
    parseObject_depth fuel bdata objdepth pos = Ok (d, p) -> pos <= p.
Proof.
  induction fuel as [|fuel IH]; intros bdata objdepth pos d p H; [discriminate|].
  cbn [parseObject_depth] in H.
  destruct (unpack_c bdata pos) as [b| |]; cbn [bind] in H; try discriminate.
  destruct (decode_c b) as [c| |]; cbn [bind] in H; try discriminate.
  destruct (c =? 91)%N.
  - apply IH in H. lia.
  - inversion H. lia.
Qed.

Lemma parseObject_name_advance (fuel : nat) :
  forall bdata obj_name pos n p,
    parseObject_name fuel bdata obj_name pos = Ok (n, p) -> pos <= p.
Proof.
  induction fuel as [|fuel IH]; intros bdata obj_name pos n p H; [discriminate|].
  cbn [parseObject_name] in H.
  destruct (unpack_b bdata pos) as [b| |]; cbn [bind] in H; try discriminate.
  destruct (negb (b =? 0)).
  - destruct (unpack_c bdata pos) as [c| |]; cbn [bind] in H; try discriminate.
    apply IH in H. lia.
  - inversion H. lia.
Qed.

Lemma parseObject_advance (fuel : nat) (bdata : bytes) (pos : Z) (n : pystr) (d p : Z) :
  parseObject fuel bdata pos = Ok (n, d, p) -> pos < p.
Proof.
  unfold parseObject. intros H.
  destruct (parseObject_depth fuel bdata 0 pos) as [[d1 p1]| |] eqn:D;
    cbn [bind] in H; try discriminate.
  destruct (parseObject_name fuel bdata [] p1) as [[n2 p2]| |] eqn:Nm;
    cbn [bind] in H; try discriminate.
  apply parseObject_depth_advance in D. apply parseObject_name_advance in Nm.
  inversion H. lia.
Qed.

(** An object token always moves the cursor forward. *)
Lemma read_step_object_advance (fuel : nat) (fdata : bytes) (st st' : reader) :
  unpack_c fdata (pos st) = Ok "["%byte ->
  read_step fuel fdata st = Ok st' -> pos st < pos st'.
Proof.
  intros U H. unfold read_step in H. rewrite U in H. cbn [bind] in H.
  change (decode_c "["%byte) with (Ok (A := N) 91%N) in H. cbn [bind] in H.
  change (91 =? 91)%N with true in H. cbv iota in H.
  destruct (parseObject fuel fdata (pos st)) as [[[n d] p]| |] eqn:P;
    cbn [bind] in H; try discriminate.
  apply parseObject_advance in P.
  destruct (negb (d >? current_depth st)); cbn [bind] in H.
  - destruct (last_error _); cbn [bind] in H; [|discriminate].
    inversion H. exact P.
  - inversion H. exact P.
Qed.

(** A property token read from the same cursor leaves the same cursor,
    whatever the rest of the state is. *)
Lemma read_step_property_pos (fuel : nat) (fdata : bytes) (st : reader)
      (name : pystr) (values : list pyval) (p : Z) :
  unpack_c fdata (pos st) = Ok "!"%byte ->
  parseProperty fdata (pos st) = Ok (name, values, p) ->
  exists st', read_step fuel fdata st = Ok st' /\ pos st' = p.
Proof.
  intros U P. unfold read_step. rewrite U. cbn [bind].
  change (decode_c "!"%byte) with (Ok (A := N) 33%N). cbn [bind].
  change (33 =? 91)%N with false. change (33 =? 33)%N with true. cbv iota.
  rewrite P. cbn [bind]. eexists. split; reflexivity.
Qed.

(** X2. The loop of [read_meshfile] has no progress check: when some
    iteration leaves the cursor where it found it (a property whose negative
    count takes the cursor back to the start of its own token), the loop
    never ends, so no amount of fuel gives a result. *)
Theorem rewinding_property_never_returns (fdata : bytes) (st : reader) (fuel0 : nat)
        (st' : reader) :
  firstn 4 fdata = header ->
  reaches fdata st ->
  pos st < Z.of_nat (length fdata) ->
  read_step fuel0 fdata st = Ok st' ->
  pos st' = pos st ->
  forall fuel, read_mesh_data fuel fdata = OutOfFuel.
Proof.
  intros Hd R L H E.
  assert (Q : exists name values,
             unpack_c fdata (pos st) = Ok "!"%byte /\
             parseProperty fdata (pos st) = Ok (name, values, pos st)).
  { destruct (read_step_inv _ _ _ _ H)
      as [(n & d & par & dl & U & _) | (n & v & U & P & _)].
    - pose proof (read_step_object_advance _ _ _ _ U H). lia.
    - exists n, v. rewrite E in P. split; assumption. }
  destruct Q as (name & values & U & P).
  assert (Loop : forall fuel s, pos s = pos st -> read_loop fuel fdata s = OutOfFuel).
  { induction fuel as [|fuel IH]; intros s Es; [reflexivity|].
    cbn [read_loop]. rewrite Es.
    destruct (Z.ltb_spec (pos st) (Z.of_nat (length fdata))) as [_|G]; [|lia].
    rewrite <- Es in U, P.
    destruct (read_step_property_pos fuel fdata s name values (pos s) U P)
      as (s' & Hs & Ep).
    rewrite Hs. cbn [bind]. apply IH. congruence. }
  assert (Len : (length fdata <? 4)%nat = false).
  { apply Nat.ltb_ge.
    assert (F : length (firstn 4 fdata) = 4%nat) by (rewrite Hd; reflexivity).
    rewrite length_firstn in F. lia. }
  assert (Run : forall fuel, read_mesh_data fuel fdata =
                             (s <- read_loop fuel fdata read_init ;; Ok (file_element s))).
  { intros fuel. rewrite read_mesh_data_unfold, Len.
    destruct (list_eq_dec Byte.byte_eq_dec (firstn 4 fdata) header); [reflexivity|].
    contradiction. }
  destruct (reaches_run _ _ R) as (k & n & RR).
  intros fuel.
  assert (Big : read_mesh_data (k + (n + fuel)) fdata = OutOfFuel).
  { rewrite Run, RR by lia. rewrite Loop by reflexivity. reflexivity. }
  destruct (read_mesh_data fuel fdata) eqn:Small; [| |reflexivity].
  - rewrite (read_mesh_data_mono fuel (k + (n + fuel))) in Big by (try lia; congruence).
    congruence.
  - rewrite (read_mesh_data_mono fuel (k + (n + fuel))) in Big by (try lia; congruence).
    congruence.
Qed.


(** ** What every decoded tree satisfies *)

Lemma dict_set_keys_in (d : list (pystr * list pyval)) (k : pystr) (v : list pyval)
      (x : pystr) :
  In x (map fst (dict_set d k v)) -> In x (map fst d) \/ x = k.
Proof.
  induction d as [|[k0 v0] d IH]; cbn [dict_set map fst In].
  - intros [<-|[]]. right. reflexivity.
  - destruct (pystr_eqb k0 k); cbn [map fst In]; intuition.
Qed.

Lemma dict_set_keys_nodup (d : list (pystr * list pyval)) (k : pystr) (v : list pyval) :
  NoDup (map fst d) -> NoDup (map fst (dict_set d k v)).
Proof.
  induction d as [|[k0 v0] d IH]; cbn [dict_set map fst]; intros H.
  - constructor; [intros [] | constructor].
  - destruct (pystr_eqb k0 k) eqn:E; cbn [map fst]; [exact H|].
    inversion H as [|? ? Hn Hd]; subst. constructor; [|apply IH; exact Hd].
    intros Hin. apply dict_set_keys_in in Hin. destruct Hin as [Hin| ->]; [tauto|].
    assert (T : pystr_eqb k k = true) by (apply pystr_eqb_eq; reflexivity).
    congruence.
Qed.

Lemma dict_set_values (P : list pyval -> Prop) (d : list (pystr * list pyval))
      (k : pystr) (v : list pyval) :
  Forall (fun kv => P (snd kv)) d -> P v ->
  Forall (fun kv => P (snd kv)) (dict_set d k v).
Proof.
  intros H Pv. induction d as [|[k0 v0] d IH]; cbn [dict_set].
  - constructor; [exact Pv | constructor].
  - inversion H; subst. destruct (pystr_eqb k0 k); constructor; auto.
Qed.

Lemma Forall_update_nth {A : Type} (P : A -> Prop) (f : A -> A) (i : nat) (l : list A) :
  (forall x, P x -> P (f x)) -> Forall P l -> Forall P (update_nth i f l).
Proof.
  intros Hf. revert i. induction l as [|x l IH]; intros i H; [destruct i; constructor|].
  inversion H; subst. destruct i; cbn [update_nth]; constructor; auto.
Qed.

Lemma decoded_ok_update_at (f : Element -> Element) (q : path) :
  (forall x, decoded_ok x -> decoded_ok (f x)) ->
  forall T, decoded_ok T -> decoded_ok (update_at q f T).
Proof.
  intros Hf. induction q as [|i q IH]; intros T H; cbn [update_at]; [auto|].
  destruct H as [t a cs Ht Ha Hv Hc]. cbn [tag attrib children].
  constructor; try assumption. apply Forall_update_nth; assumption.
Qed.

Lemma tag_update_at (f : Element -> Element) (q : path) (T : Element) :
  (forall x, tag (f x) = tag x) -> tag (update_at q f T) = tag T.
Proof.
  intros Hf. destruct q; cbn [update_at]; [apply Hf | reflexivity].
Qed.

Lemma decoded_ok_append (name : pystr) (x : Element) :
  Forall (fun c => (0 < c <= 255)%N) name ->
  decoded_ok x -> decoded_ok (append (mkElement name [] []) x).
Proof.
  intros Hn [t a cs Ht Ha Hv Hc]. unfold append. cbn [tag attrib children].
  constructor; try assumption. apply Forall_app. split; [exact Hc|].
  constructor; [|constructor]. constructor; try constructor. exact Hn.
Qed.

Lemma decoded_ok_set (name : pystr) (v : list pyval) (x : Element) :
  decoded_value v -> decoded_ok x -> decoded_ok (set name v x).
Proof.
  intros Hv [t a cs Ht Ha Hvs Hc]. unfold set. cbn [tag attrib children].
  constructor; try assumption.
  - apply dict_set_keys_nodup. exact Ha.
  - apply (dict_set_values decoded_value); assumption.
Qed.

Lemma to_N_range (b : byte) : (Byte.to_N b <= 255)%N.
Proof. pose proof (Z_of_byte_range b). unfold Z_of_byte in *. lia. Qed.

Lemma decode_latin1_latin1 (bs : bytes) : latin1 (decode_latin1 bs).
Proof.
  unfold latin1, decode_latin1. apply Forall_map, Forall_forall.
  intros b _. apply to_N_range.
Qed.

Lemma int_of_le32_range (bs : bytes) : int32 (int_of_le32 bs).
Proof.
  unfold int32, int_of_le32.
  destruct bs as [|b0 [|b1 [|b2 [|b3 [|? ?]]]]]; try lia.
  pose proof (Z_of_byte_range b0). pose proof (Z_of_byte_range b1).
  pose proof (Z_of_byte_range b2). pose proof (Z_of_byte_range b3).
  match goal with |- context [Z.ltb ?a ?b] => destruct (Z.ltb_spec a b) end; lia.
Qed.

Lemma parseString_latin1 (bdata : bytes) (pos length : Z) (s : pystr) :
  parseString bdata pos length = Ok s -> latin1 s.
Proof.
  unfold parseString.
  destruct (unpack_from (Z.to_nat length) bdata pos) as [v| |]; cbn [bind];
    try discriminate.
  pose proof (decode_latin1_latin1 v) as L.
  destruct (rev (decode_latin1 v)) as [|c r] eqn:R; [discriminate|].
  destruct (c =? 0)%N; intros H; inversion H; subst; [|exact L].
  assert (E : decode_latin1 v = rev r ++ [c]).
  { rewrite <- (rev_involutive (decode_latin1 v)), R. reflexivity. }
  rewrite E in *. rewrite removelast_last.
  unfold latin1 in L. apply Forall_app in L. apply L.
Qed.

Lemma parseData_decoded (bdata : bytes) (pos : Z) (v : list pyval) (p : Z) :
  parseData bdata pos = Ok (v, p) -> decoded_value v.
Proof.
  unfold parseData.
  destruct (unpack_c bdata pos) as [b| |]; cbn [bind]; try discriminate.
  destruct (decode_c b) as [t| |]; cbn [bind]; try discriminate.
  destruct (unpack_i bdata (pos + 1)) as [n| |]; cbn [bind]; try discriminate.
  destruct (t =? 105)%N.
  { unfold unpack_is.
    destruct (unpack_from _ bdata _) as [bs| |]; cbn [bind]; try discriminate.
    intros H. inversion H; subst. left. eexists. split; [reflexivity|].
    apply Forall_map, Forall_forall. intros x _. apply int_of_le32_range. }
  destruct (t =? 102)%N.
  { unfold unpack_fs.
    destruct (unpack_from _ bdata _) as [bs| |]; cbn [bind]; try discriminate.
    intros H. inversion H; subst. right. left. eexists. reflexivity. }
  destruct (t =? 115)%N; [|discriminate].
  destruct (unpack_i bdata (pos + 1 + 4)) as [l| |]; cbn [bind]; try discriminate.
  destruct (parseString bdata (pos + 1 + 4 + 4) l) as [s| |] eqn:S; cbn [bind];
    try discriminate.
  intros H. inversion H; subst. right. right. exists s. split; [reflexivity|].
  exact (parseString_latin1 _ _ _ _ S).
Qed.

Lemma parseObject_name_chars (fuel : nat) :
  forall bdata obj_name pos n p,
    Forall (fun c => (0 < c <= 255)%N) obj_name ->
    parseObject_name fuel bdata obj_name pos = Ok (n, p) ->
    Forall (fun c => (0 < c <= 255)%N) n.
Proof.
  induction fuel as [|fuel IH]; intros bdata obj_name pos n p A H; [discriminate|].
  cbn [parseObject_name] in H. unfold unpack_b in H.
  destruct (unpack_c bdata pos) as [b| |]; cbn [bind] in H; try discriminate.
  destruct (signed_byte b =? 0) eqn:Z0; cbn [negb] in H.
  - inversion H; subst. exact A.
  - apply IH in H; [exact H|]. apply Forall_app. split; [exact A|].
    constructor; [|constructor]. split; [|apply to_N_range].
    apply Z.eqb_neq in Z0.
    assert (Nz : Byte.to_N b <> 0%N).
    { intros E. apply to_N_zero in E. apply signed_byte_zero in E. contradiction. }
    lia.
Qed.

(** What an iteration that does not raise has done to the document. *)
Lemma read_step_tree (fuel : nat) (fdata : bytes) (st st' : reader) :
  read_step fuel fdata st = Ok st' ->
  (exists parent name,
      Forall (fun c => (0 < c <= 255)%N) name /\
      file_element st' =
        update_at parent (append (mkElement name [] [])) (file_element st)) \/
  (exists name values,
      decoded_value values /\
      file_element st' =
        update_at (parent_element st) (set name values) (file_element st)).
Proof.
  unfold read_step. intros H.
  destruct (unpack_c fdata (pos st)) as [b| |]; cbn [bind] in H; try discriminate.
  destruct (decode_c b) as [c| |]; cbn [bind] in H; try discriminate.
  destruct (c =? 91)%N.
  - left. unfold parseObject in H.
    destruct (parseObject_depth fuel fdata 0 (pos st)) as [[d p1]| |];
      cbn [bind] in H; try discriminate.
    destruct (parseObject_name fuel fdata [] p1) as [[n p2]| |] eqn:Nm;
      cbn [bind] in H; try discriminate.
    apply parseObject_name_chars in Nm; [|constructor].
    destruct (negb (d >? current_depth st)); cbn [bind] in H.
    + destruct (last_error _) as [parent|]; cbn [bind] in H; [|discriminate].
      inversion H. exists parent, n. split; [exact Nm | reflexivity].
    + inversion H. exists (parent_element st), n. split; [exact Nm | reflexivity].
  - destruct (c =? 33)%N; [|discriminate]. right.
    unfold parseProperty in H.
    destruct (unpack_b fdata (pos st + 1)) as [l| |]; cbn [bind] in H; try discriminate.
    destruct (parseString fdata (pos st + 1 + 1) l) as [n| |]; cbn [bind] in H;
      try discriminate.
    destruct (parseData fdata (pos st + 1 + 1 + l)) as [[v p]| |] eqn:D; cbn [bind] in H;
      try discriminate.
    inversion H. exists n, v. split; [exact (parseData_decoded _ _ _ _ D) | reflexivity].
Qed.

Lemma reaches_decoded (fdata : bytes) (st : reader) :
  reaches fdata st ->
  tag (file_element st) = str_of "File" /\ decoded_ok (file_element st).
Proof.
  induction 1 as [|st fuel st' _ [IT ID] _ S].
  - split; [reflexivity|].
    apply decoded_ok_intro; [|constructor|constructor|constructor].
    repeat first [apply Forall_nil | apply Forall_cons; [cbn; lia|]].
  - apply read_step_tree in S.
    destruct S as [(parent & name & Hn & ->)|(name & values & Hv & ->)].
    + split.
      * rewrite tag_update_at; [exact IT | reflexivity].
      * apply decoded_ok_update_at; [|exact ID].
        intros x. apply decoded_ok_append. exact Hn.
    + split.
      * rewrite tag_update_at; [exact IT | reflexivity].
      * apply decoded_ok_update_at; [|exact ID].
        intros x. apply decoded_ok_set. exact Hv.
Qed.

(** X3. Every tree that [read_meshfile] returns has the root tag "File",
    holds each attribute name at most once on an element, and carries only
    values the format can hold: 32-bit integers, floats, or one Latin-1
    string; its tags are Latin-1 without NUL. *)
Theorem decoded_tree_well_formed (fuel : nat) (fdata : bytes) (t : Element) :
  read_mesh_data fuel fdata = Ok t ->
  tag t = str_of "File" /\ decoded_ok t.
Proof.
  unfold read_mesh_data. intros H.
  destruct (read_mesh_state fuel fdata) as [st| |] eqn:S; cbn [bind] in H;
    try discriminate.
  inversion H; subst. apply read_mesh_state_reaches in S.
  exact (reaches_decoded _ _ S).
Qed.

(** ** Levels and marker counts, for every buffer *)

Lemma reaches_bounds (fdata : bytes) (st : reader) :
  reaches fdata st ->
  nth_error (depth_list st) 0 = Some [] /\
  Z.of_nat (length (depth_list st)) <= current_depth st + 1 /\
  (forall i p, nth_error (depth_list st) i = Some p -> (length p <= i)%nat) /\
  last_error (depth_list st) = Some (parent_element st) /\
  Forall level_bounded (created st).
Proof.
  induction 1 as [|st fuel st' _ IH _ S].
  - repeat split; try constructor; try (cbn; lia).
    intros [|i] p H; cbn in H; [inversion H; cbn; lia | destruct i; discriminate].
  - destruct IH as (I0 & IL & IN & IP & IF).
    apply read_step_inv in S.
    destruct S as [(name & depth & parent & dl & _ & D1 & Hdl & _ & HP & HD & HCd & HC)
                  |(name & values & _ & _ & _ & HP & HD & HCd & HC)].
    + assert (P : (length dl <= Z.to_nat depth)%nat /\
                  nth_error dl 0 = Some [] /\
                  (forall i p, nth_error dl i = Some p -> (length p <= i)%nat) /\
                  (length parent + 1 <= length dl)%nat).
      { destruct Hdl as [(Hlt & -> & ->)|(Hle & -> & L)].
        - pose proof (nth_error_length _ _ _ I0).
          repeat split; [lia | exact I0 | exact IN |].
          apply last_error_nth in IP. apply IN in IP. lia.
        - assert (N0 : nth_error (firstn (Z.to_nat depth) (depth_list st)) 0 = Some []).
          { rewrite nth_error_firstn_lt by lia. exact I0. }
          pose proof (nth_error_length _ _ _ N0).
          repeat split; [rewrite length_firstn; lia | exact N0 | |].
          + intros i p Hi. pose proof (nth_error_length _ _ _ Hi) as Li.
            rewrite length_firstn in Li.
            rewrite nth_error_firstn_lt in Hi by lia. apply (IN i p Hi).
          + apply last_error_nth in L.
            pose proof (nth_error_length _ _ _ L) as Li.
            rewrite length_firstn in L, Li |- *.
            rewrite nth_error_firstn_lt in L by lia. apply IN in L. lia. }
      destruct P as (PL & P0 & PN & PP).
      assert (LN : (length (parent_element st') <= length dl)%nat).
      { rewrite HP, length_app. cbn [length]. lia. }
      pose proof (nth_error_length _ _ _ P0) as L0.
      repeat split.
      * rewrite HD, nth_error_app1 by lia. exact P0.
      * rewrite HD, length_app. cbn [length]. lia.
      * intros i p Hi. rewrite HD in Hi. apply nth_error_snoc in Hi.
        destruct Hi as [[_ Hi]|[-> ->]]; [apply (PN i p Hi) | lia].
      * rewrite HD. apply last_error_snoc.
      * rewrite HC. apply Forall_app. split; [exact IF|].
        constructor; [|constructor]. unfold level_bounded. cbn [fst snd].
        rewrite HP, length_app in *. cbn [length] in *. lia.
    + rewrite HD, HCd, HP, HC. repeat split; assumption.
Qed.

(** X4. For every buffer that [read_meshfile] accepts, each node of the
    returned tree other than the root was made for an object token and sits
    at a nesting level of at least 1 and at most the number of "[" marker
    bytes of that token. *)
Theorem levels_bounded_by_markers (fuel : nat) (fdata : bytes) (st : reader) :
  read_mesh_state fuel fdata = Ok st ->
  forall p, get_at p (file_element st) <> None ->
            p = [] \/
            exists depth, In (depth, p) (created st) /\
                          1 <= Z.of_nat (length p) <= depth.
Proof.
  intros H p G. apply read_mesh_state_reaches in H.
  destruct (reaches_nodes _ _ H p G) as [->|Hin]; [left; reflexivity|].
  right. apply in_map_iff in Hin. destruct Hin as ([depth q] & E & Hin).
  cbn [snd] in E. subst q. exists depth. split; [exact Hin|].
  destruct (reaches_bounds _ _ H) as (_ & _ & _ & _ & B).
  rewrite Forall_forall in B. exact (B _ Hin).
Qed.

Lemma last_error_none {A : Type} (l : list A) : last_error l = None -> l = [].
Proof.
  unfold last_error. destruct l as [|x l]; [reflexivity|]. cbn [rev].
  destruct (rev l); discriminate.
Qed.

(** X5. Depth reconciliation cannot fail: in every state the loop reaches,
    an iteration on an object token finds an ancestor to attach the new
    element to, so it raises only when [parseObject] does, with
    [struct.error] or [UnicodeDecodeError], and never with [IndexError]. *)
Theorem reconciliation_finds_parent (fuel : nat) (fdata : bytes) (st : reader) (e : pyerr) :
  reaches fdata st ->
  unpack_c fdata (pos st) = Ok "["%byte ->
  read_step fuel fdata st = Err e ->
  parseObject fuel fdata (pos st) = Err e /\ (e = StructError \/ e = UnicodeDecodeError).
Proof.
  intros R U H. unfold read_step in H. rewrite U in H. cbn [bind] in H.
  change (decode_c "["%byte) with (Ok (A := N) 91%N) in H. cbn [bind] in H.
  change (91 =? 91)%N with true in H. cbv iota in H.
  destruct (parseObject fuel fdata (pos st)) as [[[n d] p]|e'|] eqn:P;
    cbn [bind] in H; try discriminate.
  - exfalso.
    assert (D : 1 <= d) by (eapply parseObject_depth_pos; [exact U | reflexivity | exact P]).
    destruct (negb (d >? current_depth st)); cbn [bind] in H; [|discriminate].
    destruct (last_error (firstn (Z.to_nat d) (depth_list st))) eqn:L;
      cbn [bind] in H; [discriminate|].
    apply last_error_none in L.
    destruct (reaches_bounds _ _ R) as (I0 & _).
    destruct (depth_list st) as [|x l]; [discriminate|].
    destruct (Z.to_nat d) eqn:Zd; [lia | discriminate].
  - inversion H; subst e'. split; [reflexivity|]. exact (parseObject_err _ _ _ _ P).
Qed.


(** ** Tokens written and read back *)

(** X6. An object token read back: for a tag that [parseObject] can give
    back, [writeObject] succeeds at every depth, writes the markers, the tag
    and one zero byte, and [parseObject] on these bytes returns the tag, the
    depth and the position just after them. *)
Theorem object_token_round_trip (xml : Element) (depth : nat) :
  tag_ok (tag xml) ->
  exists bs,
    writeObject xml depth = Ok bs /\
    length bs = (depth + length (tag xml) + 1)%nat /\
    forall fuel fdata pos rest,
      at_suffix fdata pos (bs ++ rest) -> (length bs <= fuel)%nat ->
      parseObject fuel fdata pos =
        Ok (tag xml, Z.of_nat depth, pos + Z.of_nat (length bs)).
Proof.
  intros T. destruct (tag_ok_bytes _ T) as (name & E & Nok & Dec & Len).
  exists (object_bytes depth name). split; [|split].
  - apply writeObject_bytes; [apply T | exact E].
  - unfold object_bytes. rewrite !length_app, repeat_length, Len. cbn [length]. lia.
  - intros fuel fdata pos rest A F.
    rewrite (parseObject_at depth name fuel fdata pos rest A Nok F), Dec. reflexivity.
Qed.

(** X7. A property token read back: for a name of 1 to 127 Latin-1
    characters that does not end in NUL and a non-empty value of the tree
    model, [writeProperty] succeeds and [parseProperty] on its bytes returns
    the name, the value and the position just after them. *)
Theorem property_token_round_trip (name : pystr) (v : list pyval) :
  prop_name_ok name = true -> nonempty_value v ->
  exists bs,
    writeProperty name (Some v) = Ok bs /\
    forall fdata pos rest,
      at_suffix fdata pos (bs ++ rest) ->
      parseProperty fdata pos = Ok (name, v, pos + Z.of_nat (length bs)).
Proof.
  intros Nm V. destruct (writeProperty_parseProperty name v Nm V) as (tl & W & R).
  exists ("!"%byte :: tl). split; [exact W | exact R].
Qed.

(** X8. [parseString] drops one trailing zero byte and no more: a field
    that ends in a zero byte loses exactly that byte, any other non-empty
    field is returned whole. *)
Theorem parseString_terminator (fdata : bytes) (pos : Z) (field rest : bytes) :
  field <> [] ->
  at_suffix fdata pos (field ++ rest) ->
  parseString fdata pos (Z.of_nat (length field)) =
    Ok (if Byte.byte_eq_dec (last field x01) x00
        then decode_latin1 (removelast field)
        else decode_latin1 field).
Proof.
  intros Ne A. destruct (exists_last Ne) as (y & b & ->).
  rewrite (parseString_at fdata pos y b rest A), last_last, removelast_last.
  reflexivity.
Qed.

(** X9. A length that is zero or negative makes [parseString] read no
    bytes and then index the empty string: it raises [IndexError] where the
    offset is valid, [struct.error] otherwise, and so does [parseProperty]
    on a property whose name-length byte is not positive. *)
Theorem parseString_nonpositive (bdata : bytes) (pos length : Z) :
  length <= 0 ->
  parseString bdata pos length = (_ <- unpack_from 0 bdata pos ;; Err IndexError) /\
  (unpack_b bdata (pos + 1) = Ok length ->
   exists e, parseProperty bdata pos = Err e /\ (e = IndexError \/ e = StructError)).
Proof.
  intros L.
  assert (P : forall p, parseString bdata p length =
                        (_ <- unpack_from 0 bdata p ;; Err IndexError)).
  { intros p. unfold parseString.
    replace (Z.to_nat length) with O by lia.
    unfold unpack_from. destruct ((_ <? 0) || _); cbn [bind]; reflexivity. }
  split; [apply P|].
  intros U. unfold parseProperty. rewrite U. cbn [bind]. rewrite P.
  destruct (unpack_from 0 bdata (pos + 1 + 1)) as [x|e|] eqn:F; cbn [bind].
  - exists IndexError. split; [reflexivity | left; reflexivity].
  - exists e. split; [reflexivity|]. right. exact (unpack_from_err _ _ _ _ F).
  - exfalso. exact (unpack_from_fuel _ _ _ F).
Qed.

(** *** Integer records, byte for byte *)

Lemma byte_of_Z_mod (z : Z) (b : byte) : z mod 256 = Z_of_byte b -> byte_of_Z z = b.
Proof.
  intros H. rewrite <- (byte_of_Z_of_byte b). unfold byte_of_Z.
  rewrite H, (Z.mod_small (Z_of_byte b)) by apply Z_of_byte_range. reflexivity.
Qed.

Lemma le32_int_of_le32 (bs : bytes) : length bs = 4%nat -> le32 (int_of_le32 bs) = bs.
Proof.
  intros L. destruct bs as [|b0 [|b1 [|b2 [|b3 [|? ?]]]]]; try discriminate.
  unfold int_of_le32, le32.
  pose proof (Z_of_byte_range b0). pose proof (Z_of_byte_range b1).
  pose proof (Z_of_byte_range b2). pose proof (Z_of_byte_range b3).
  set (u := Z_of_byte b0 + 256 * Z_of_byte b1 + 65536 * Z_of_byte b2
            + 16777216 * Z_of_byte b3).
  assert (E : forall s, s = u \/ s = u - 4294967296 -> le32 s = [b0; b1; b2; b3]).
  { intros s Hs. unfold le32.
    repeat f_equal; apply byte_of_Z_mod; subst u;
      Z.to_euclidean_division_equations; lia. }
  destruct (u <? 2147483648); apply E; [left | right]; reflexivity.
Qed.

Lemma unpack_from_inv (size : nat) (bdata : bytes) (offset : Z) (bs : bytes) :
  0 <= offset ->
  unpack_from size bdata offset = Ok bs ->
  length bs = size /\ exists rest, at_suffix bdata offset (bs ++ rest).
Proof.
  intros P. unfold unpack_from.
  destruct (Z.ltb_spec offset 0) as [|_]; [lia|].
  destruct (Z.ltb_spec offset 0) as [|_]; [lia|].
  destruct (Z.ltb_spec (Z.of_nat (length bdata) - offset) (Z.of_nat size)) as [|G];
    cbn [orb]; [discriminate|].
  intros H. inversion H; subst bs. split.
  - rewrite length_firstn, length_skipn. lia.
  - exists (skipn size (skipn (Z.to_nat offset) bdata)).
    split; [lia|]. symmetry. apply firstn_skipn.
Qed.

Lemma at_suffix_same (fdata : bytes) (pos : Z) (x y : bytes) :
  at_suffix fdata pos x -> at_suffix fdata pos y -> x = y.
Proof. intros [_ A] [_ B]. congruence. Qed.

Lemma concat_chunks4 (n : nat) :
  forall bs, length bs = (4 * n)%nat ->
             concat (map le32 (map int_of_le32 (chunks4 n bs))) = bs /\
             length (chunks4 n bs) = n.
Proof.
  induction n as [|n IH]; intros bs L.
  - destruct bs; [split; reflexivity | discriminate].
  - cbn [chunks4 map concat length].
    destruct (IH (skipn 4 bs)) as [IC IL]; [rewrite length_skipn; lia|].
    rewrite IC, IL, le32_int_of_le32 by (rewrite length_firstn; lia).
    split; [apply firstn_skipn | reflexivity].
Qed.

(** X10. An integer record is re-encoded byte for byte: when [parseData]
    reads a non-empty integer array at a position of the buffer, [writeData]
    on that array gives exactly the bytes that were read. *)
Theorem int_record_reencoded (fdata : bytes) (pos : Z) (zs : list Z) (p : Z) :
  0 <= pos -> zs <> [] ->
  parseData fdata pos = Ok (map PInt zs, p) ->
  exists data rest,
    writeData (Some (map PInt zs)) = Ok data /\
    at_suffix fdata pos (data ++ rest) /\
    p = pos + Z.of_nat (length data).
Proof.
  intros P0 Ne. unfold parseData.
  destruct (unpack_c fdata pos) as [b| |] eqn:Ub; cbn [bind]; try discriminate.
  destruct (decode_c b) as [t| |] eqn:Dt; cbn [bind]; try discriminate.
  destruct (unpack_i fdata (pos + 1)) as [n| |] eqn:Un; cbn [bind]; try discriminate.
  destruct (t =? 105)%N eqn:Ti.
  2:{ destruct (t =? 102)%N.
      - destruct (unpack_fs n fdata (pos + 1 + 4)) as [xs| |]; cbn [bind];
          try discriminate.
        intros H. inversion H as [[Hv Hp]]. exfalso.
        destruct zs as [|z zs]; [congruence|]. destruct xs; discriminate.
      - destruct (t =? 115)%N; [|discriminate].
        destruct (unpack_i fdata (pos + 1 + 4)) as [l| |]; cbn [bind]; try discriminate.
        destruct (parseString fdata (pos + 1 + 4 + 4) l) as [s| |]; cbn [bind];
          try discriminate.
        intros H. inversion H as [[Hv Hp]]. exfalso.
        destruct zs as [|z zs]; [congruence|]. discriminate. }
  unfold unpack_is.
  destruct (unpack_from (4 * Z.to_nat n) fdata (pos + 1 + 4)) as [payload| |] eqn:Up;
    cbn [bind]; try discriminate.
  intros H.
  assert (Hv : map PInt (map int_of_le32 (chunks4 (Z.to_nat n) payload)) = map PInt zs)
    by congruence.
  assert (Hp : p = pos + 1 + 4 + 4 * n) by congruence.
  clear H.
  assert (Ez : zs = map int_of_le32 (chunks4 (Z.to_nat n) payload)).
  { clear - Hv. revert Hv. generalize (map int_of_le32 (chunks4 (Z.to_nat n) payload)).
    induction zs as [|z zs IH]; intros [|x l] E; try discriminate; [reflexivity|].
    cbn [map] in E. inversion E. f_equal. apply IH. assumption. }
  (* the bytes that were read *)
  apply N.eqb_eq in Ti. subst t.
  apply decode_c_ok in Dt. destruct Dt as [_ Dt].
  assert (Eb : b = "i"%byte) by (apply to_N_inj; rewrite <- Dt; reflexivity).
  subst b.
  unfold unpack_c in Ub.
  destruct (unpack_from 1 fdata pos) as [tb| |] eqn:Ut; cbn [bind] in Ub; try discriminate.
  destruct tb as [|tb0 [|? ?]]; try discriminate.
  assert (tb0 = "i"%byte) by congruence. subst tb0. clear Ub.
  unfold unpack_i in Un.
  destruct (unpack_from 4 fdata (pos + 1)) as [cb| |] eqn:Uc; cbn [bind] in Un;
    try discriminate.
  assert (Hn : int_of_le32 cb = n) by congruence. clear Un.
  destruct (unpack_from_inv _ _ _ _ P0 Ut) as (_ & r1 & A1).
  destruct (unpack_from_inv 4 fdata (pos + 1) cb ltac:(lia) Uc) as (Lc & r2 & A2).
  destruct (unpack_from_inv _ fdata (pos + 1 + 4) payload ltac:(lia) Up) as (Lp & r3 & A3).
  pose proof (at_suffix_next _ _ _ _ A1) as A1'.
  pose proof (at_suffix_same _ _ _ _ A1' A2) as E1. subst r1.
  pose proof (at_suffix_advance _ _ _ _ A2) as A2'. rewrite Lc in A2'.
  change (Z.of_nat 4) with 4 in A2'.
  pose proof (at_suffix_same _ _ _ _ A2' A3) as E2. subst r2.
  destruct (concat_chunks4 (Z.to_nat n) payload Lp) as [CC CL].
  assert (Lz : length zs = Z.to_nat n) by (rewrite Ez, length_map; exact CL).
  assert (Npos : 1 <= n).
  { destruct zs; [congruence|]. cbn [length] in Lz. lia. }
  pose proof (int_of_le32_range cb) as Rn. rewrite Hn in Rn. unfold int32 in Rn.
  (* the bytes that are written *)
  exists ("i"%byte :: cb ++ payload), r3.
  split; [|split].
  - unfold writeData.
    rewrite (types_of_map PInt TInt zs) by (try reflexivity; exact Ne).
    rewrite (forallb_map_const PInt is_int zs true) by (try reflexivity; exact Ne).
    rewrite length_map, Lz, Z2Nat.id by lia.
    rewrite pack_i_ok by exact Rn. cbn [bind].
    rewrite for_bytes_pack_int.
    + cbn [bind]. rewrite Ez, CC, <- Hn, le32_int_of_le32 by exact Lc. reflexivity.
    + rewrite Ez. apply Forall_map, Forall_forall. intros x _. apply int_of_le32_range.
  - cbn [app] in A1 |- *. rewrite <- app_assoc. exact A1.
  - rewrite Hp. cbn [length]. rewrite length_app, Lc, Lp. lia.
Qed.


(** ** What the writer rejects and what it leaves out *)

(** X11. Of an array of strings only the first is written: the record that
    [writeData] makes for a list of several strings is the record of its
    first string, with a count of 1. *)
Theorem writeData_first_string_only (s : pystr) (others : list pyval) :
  forallb is_str others = true ->
  writeData (Some (PStr s :: others)) = writeData (Some [PStr s]).
Proof.
  intros H. unfold writeData.
  assert (T : nodup pytype_eq_dec (map type_of (PStr s :: others)) = [TStr]).
  { apply nodup_const; [discriminate|].
    constructor; [reflexivity|]. apply Forall_map, Forall_forall.
    intros v Hv. rewrite forallb_forall in H. specialize (H v Hv).
    destruct v; try discriminate. reflexivity. }
  rewrite T. cbn [map type_of nodup in_dec forallb is_int is_float is_str andb].
  rewrite H. reflexivity.
Qed.

Lemma of_N_latin1 (c : N) (b : byte) : Byte.of_N c = Some b -> (c <= 255)%N.
Proof.
  intros H. apply Byte.to_of_N in H. subst c. apply to_N_range.
Qed.

(** X12. [writeString] succeeds exactly on the strings of Latin-1: on such
    a string it gives one byte per character, which decode back to the
    string; any character beyond U+00FF raises [UnicodeEncodeError]. *)
Theorem writeString_latin1 (s : pystr) :
  (latin1 s ->
   exists bs, writeString s = Ok bs /\ decode_latin1 bs = s /\ length bs = length s) /\
  (~ latin1 s -> writeString s = Err UnicodeEncodeError).
Proof.
  unfold writeString. split.
  - intros L. destruct (encode_latin1_total s L) as (bs & E).
    exists bs. split; [exact E|]. exact (encode_latin1_decode _ _ E).
  - induction s as [|c s IH]; intros Nl.
    + exfalso. apply Nl. constructor.
    + cbn [encode_latin1]. destruct (Byte.of_N c) as [b|] eqn:E; [|reflexivity].
      rewrite IH; [reflexivity|].
      intros L. apply Nl. constructor; [exact (of_N_latin1 _ _ E) | exact L].
Qed.

Lemma pack_i_range (z : Z) : ~ int32 z -> pack_i z = Err StructError.
Proof.
  unfold int32, pack_i. intros H.
  destruct (Z.leb_spec (-2147483648) z); [|reflexivity].
  destruct (Z.leb_spec z 2147483647); [|reflexivity]. lia.
Qed.

Lemma pack_i_err (z : Z) (e : pyerr) : pack_i z = Err e -> e = StructError.
Proof.
  unfold pack_i. destruct (_ && _); [discriminate|]. congruence.
Qed.

Lemma for_bytes_pack_int_range (zs : list Z) :
  Exists (fun z => ~ int32 z) zs ->
  for_bytes (map PInt zs) pack_int = Err StructError.
Proof.
  induction zs as [|z zs IH]; intros H; [inversion H|].
  cbn [map for_bytes pack_int].
  destruct (pack_i z) as [b|e|] eqn:P; cbn [bind].
  - rewrite IH; [reflexivity|].
    inversion H as [? ? Hz|? ? Hz]; subst; [|exact Hz].
    rewrite (pack_i_range _ Hz) in P. discriminate.
  - rewrite (pack_i_err _ _ P). reflexivity.
  - exfalso. exact (pack_i_fuel _ P).
Qed.

(** X13. An integer outside the signed 32-bit range cannot be written:
    [writeData] raises [struct.error] on an integer array that holds one,
    wherever it stands in the array. *)
Theorem writeData_int_out_of_range (zs : list Z) :
  Z.of_nat (length zs) <= 2147483647 ->
  Exists (fun z => ~ int32 z) zs ->
  writeData (Some (map PInt zs)) = Err StructError.
Proof.
  intros L H.
  assert (Ne : zs <> []) by (intros ->; inversion H).
  unfold writeData.
  rewrite (types_of_map PInt TInt zs) by (try reflexivity; exact Ne).
  rewrite (forallb_map_const PInt is_int zs true) by (try reflexivity; exact Ne).
  rewrite length_map, pack_i_ok by (unfold int32; lia). cbn [bind].
  rewrite (for_bytes_pack_int_range _ H). reflexivity.
Qed.

(** X14. Both file writers check the root before anything else and write
    nothing when the check fails: a root whose tag is not "File" raises
    [NotImplementedError], a "File" root without the [pdxasset] attribute
    raises [TypeError], and the file system is left as it was. *)
Theorem writers_check_root (fs : filesystem) (filepath : string) (root_xml : Element) :
  (tag root_xml <> str_of "File" ->
   write_meshfile fs filepath root_xml = (fs, Err (NotImplementedError UnknownXMLRoot)) /\
   write_animfile fs filepath root_xml = (fs, Err (NotImplementedError UnknownXMLRoot))) /\
  (tag root_xml = str_of "File" -> get root_xml (str_of "pdxasset") = None ->
   write_meshfile fs filepath root_xml = (fs, Err TypeError) /\
   write_animfile fs filepath root_xml = (fs, Err TypeError)).
Proof.
  split.
  - intros T. unfold write_meshfile, write_animfile, mesh_datastring, anim_datastring.
    rewrite (pystr_eqb_neq _ _ T). split; reflexivity.
  - intros T G. unfold write_meshfile, write_animfile, mesh_datastring, anim_datastring.
    rewrite T, pystr_eqb_refl, G. split; reflexivity.
Qed.

Lemma find_app_found (name : pystr) (cs extra : list Element) (x : Element) :
  List.find (fun c => pystr_eqb (tag c) name) cs = Some x ->
  List.find (fun c => pystr_eqb (tag c) name) (cs ++ extra) = Some x.
Proof.
  induction cs as [|c cs IH]; cbn [List.find app]; [discriminate|].
  destruct (pystr_eqb (tag c) name); [trivial | exact IH].
Qed.

(** X15. [write_meshfile] writes one [object] and one [locator] element
    and nothing else of the root: once the root has both, any children that
    follow them, whatever their tags, leave the written bytes unchanged. *)
Theorem later_children_not_written (t : pystr) (a : list (pystr * list pyval))
        (cs extra : list Element) (o l : Element) :
  find (mkElement t a cs) (str_of "object") = Some o ->
  find (mkElement t a cs) (str_of "locator") = Some l ->
  mesh_datastring (mkElement t a (cs ++ extra)) = mesh_datastring (mkElement t a cs).
Proof.
  unfold find, mesh_datastring. cbn [tag attrib children get]. intros Ho Hl.
  unfold find. cbn [children].
  rewrite (find_app_found _ _ extra _ Ho), (find_app_found _ _ extra _ Hl), Ho, Hl.
  reflexivity.
Qed.

Lemma find_map_tag (f : Element -> Element) (name : pystr) (cs : list Element) :
  (forall c, tag (f c) = tag c) ->
  List.find (fun c => pystr_eqb (tag c) name) (map f cs) =
  option_map f (List.find (fun c => pystr_eqb (tag c) name) cs).
Proof.
  intros Hf. induction cs as [|c cs IH]; cbn [List.find map]; [reflexivity|].
  rewrite Hf. destruct (pystr_eqb (tag c) name); [reflexivity | exact IH].
Qed.

Lemma without_root_attributes_tag (e : Element) : tag (without_root_attributes e) = tag e.
Proof.
  unfold without_root_attributes. destruct (_ || _); reflexivity.
Qed.

Lemma without_root_attributes_children (e : Element) :
  children (without_root_attributes e) = children e.
Proof.
  unfold without_root_attributes. destruct (_ || _); reflexivity.
Qed.

(** X16. The attributes of the [object] and [locator] elements are never
    written: removing them from the children of the root leaves the bytes
    of [write_meshfile] unchanged. *)
Theorem root_child_attributes_not_written (t : pystr) (a : list (pystr * list pyval))
        (cs : list Element) :
  mesh_datastring (mkElement t a (map without_root_attributes cs)) =
  mesh_datastring (mkElement t a cs).
Proof.
  unfold mesh_datastring, find. cbn [tag attrib children get].
  rewrite !(find_map_tag without_root_attributes) by apply without_root_attributes_tag.
  destruct (List.find (fun c => pystr_eqb (tag c) (str_of "object")) cs) as [o|];
    destruct (List.find (fun c => pystr_eqb (tag c) (str_of "locator")) cs) as [l|];
    cbn [option_map];
    unfold writeObject;
    rewrite ?without_root_attributes_tag, ?without_root_attributes_children;
    reflexivity.
Qed.


(** ** Animation files *)

Lemma anim_info_props_ok : props_ok anim_info_props.
Proof. apply props_ok_check; reflexivity. Qed.

Lemma anim_bone_props_ok : props_ok anim_bone_props.
Proof. apply props_ok_check; reflexivity. Qed.

Lemma anim_samples_props_ok : props_ok anim_samples_props.
Proof. apply props_ok_check; reflexivity. Qed.

Lemma anim_datastring_tokens (root_xml : Element) :
  tag root_xml = str_of "File" ->
  anim_datastring root_xml =
  (bs <- for_bytes (anim_tokens root_xml) write_token ;; Ok (header ++ bs)).
Proof.
  intros Ht. unfold anim_datastring, anim_tokens.
  rewrite Ht, pystr_eqb_refl.
  cbn [for_bytes write_token]. rewrite for_bytes_app, <- write_sub_tokens.
  unfold write_sub, anim_samples_props.
  assert (B : forall info_xml,
             for_bytes (children info_xml) write_anim_bone =
             for_bytes (flat_map (fun bone_xml =>
               TObject bone_xml 2 :: props_tokens anim_bone_props bone_xml)
               (children info_xml)) write_token).
  { intros info_xml. rewrite for_bytes_flat_map.
    apply for_bytes_ext. intros c _. cbn [for_bytes write_token].
    unfold write_anim_bone. rewrite write_props_tokens. reflexivity. }
  unfold anim_info_props, anim_bone_props in *.
  destruct (find root_xml (str_of "info")) as [info_xml|];
    destruct (find root_xml (str_of "samples")) as [samples_xml|];
    cbn [for_bytes write_token]; rewrite ?for_bytes_app, ?B, ?write_props_tokens;
    same_calls.
Qed.

Lemma same_written_anim (root_xml : Element) :
  anim_schema root_xml ->
  same_written (anim_tokens root_xml) (document_tokens (ordered_anim_document root_xml)).
Proof.
  intros (_ & _ & Hp & infos & samples & Hc & Hi & Hs).
  unfold anim_tokens, sub_tokens, document_tokens, ordered_anim_document, find.
  cbn [attrib children]. unfold ordered_attrs at 1. cbn [flat_map].
  destruct (get root_xml (str_of "pdxasset")) as [v|]; [|congruence].
  cbn [app map]. constructor; [reflexivity|]. rewrite Hc.
  assert (I : forall i, tagged "info" info_ok i ->
              same_written
                (TObject i 1 :: props_tokens anim_info_props i
                 ++ flat_map (fun b => TObject b 2 :: props_tokens anim_bone_props b)
                      (children i))
                (tokens_of 1 (ordered_anim_top i))).
  { intros i (Ht & _ & _). unfold ordered_anim_top. rewrite Ht, pystr_eqb_refl.
    cbn [tokens_of]. apply same_written_object; [cbn [tag]; congruence|].
    apply same_written_app.
    - rewrite props_tokens_ordered. apply same_written_refl.
    - apply same_written_flat_map. apply Forall_forall. intros b _.
      apply same_written_leaf. }
  assert (S : forall s, tagged "samples" (leaf_ok nonempty_value anim_samples_props) s ->
              same_written (TObject s 1 :: props_tokens anim_samples_props s)
                           (tokens_of 1 (ordered_anim_top s))).
  { intros s (Ht & _). unfold ordered_anim_top. rewrite Ht.
    change (pystr_eqb (str_of "samples") (str_of "info")) with false. cbv iota.
    apply same_written_leaf. }
  destruct (optional_cases _ _ Hi) as [->|(i & -> & Ti)];
    destruct (optional_cases _ _ Hs) as [->|(s & -> & Ts)];
    cbn [app List.find map flat_map];
    rewrite ?(proj1 Ti), ?(proj1 Ts); cbn [pystr_eqb]; rewrite ?app_nil_r.
  - constructor.
  - change (pystr_eqb (str_of "samples") (str_of "info")) with false.
    change (pystr_eqb (str_of "samples") (str_of "samples")) with true.
    cbv iota. cbn [app]. exact (S s Ts).
  - change (pystr_eqb (str_of "info") (str_of "info")) with true.
    change (pystr_eqb (str_of "info") (str_of "samples")) with false.
    cbv iota. rewrite ?app_nil_r. exact (I i Ti).
  - change (pystr_eqb (str_of "info") (str_of "info")) with true.
    change (pystr_eqb (str_of "info") (str_of "samples")) with false.
    change (pystr_eqb (str_of "samples") (str_of "samples")) with true.
    cbv iota. apply same_written_app; [exact (I i Ti) | exact (S s Ts)].
Qed.

Lemma ordering_anim_top (c : Element) :
  tagged "info" info_ok c \/
  tagged "samples" (leaf_ok nonempty_value anim_samples_props) c ->
  ordering c (ordered_anim_top c).
Proof.
  intros [(Ht & Ha & Hc)|(Ht & Hl)]; unfold ordered_anim_top; rewrite Ht.
  - rewrite pystr_eqb_refl. rewrite <- Ht.
    apply ordering_node;
      [rewrite Ht; apply tag_ok_check; reflexivity | apply anim_info_props_ok | exact Ha |].
    eapply Forall_impl; [|exact Hc]. intros b Lb.
    apply ordering_leaf; [apply anim_bone_props_ok | exact Lb].
  - change (pystr_eqb (str_of "samples") (str_of "info")) with false. cbv iota.
    apply ordering_leaf; [apply anim_samples_props_ok | exact Hl].
Qed.

Lemma ordering_anim_document (root_xml : Element) :
  anim_schema root_xml ->
  NoDup (map fst (attrib (ordered_anim_document root_xml))) /\
  Forall attr_ok (attrib (ordered_anim_document root_xml)) /\
  Forall elem_ok (children (ordered_anim_document root_xml)) /\
  same_tree root_xml (ordered_anim_document root_xml).
Proof.
  intros (Ht & Ha & _ & infos & samples & Hc & [_ Hi] & [_ Hs]).
  assert (C : Forall (fun c => ordering c (ordered_anim_top c)) (children root_xml)).
  { rewrite Hc. apply Forall_app. split.
    - eapply Forall_impl; [|exact Hi]. intros c Hx. apply ordering_anim_top. left. exact Hx.
    - eapply Forall_impl; [|exact Hs]. intros c Hx. apply ordering_anim_top. right. exact Hx. }
  destruct (ordering_children ordered_anim_top _ C) as [C1 C2].
  unfold ordered_anim_document. cbn [attrib children]. repeat split.
  - apply ordered_attrs_nodup, pdxasset_props_ok.
  - apply (ordered_attrs_ok _ _ root_xml pdxasset_props_ok Ha).
  - exact C1.
  - destruct root_xml as [t a cs]. cbn [tag attrib children] in *. constructor; [|exact C2].
    intros k. symmetry. destruct Ha as (_ & Hin & _).
    apply (ordered_attrs_get _ (mkElement t a cs) k (proj1 pdxasset_props_ok) Hin).
Qed.

Lemma anim_round_trip (root_xml : Element) :
  anim_schema root_xml ->
  exists bs,
    anim_datastring root_xml = Ok (header ++ bs) /\
    same_tree root_xml (ordered_anim_document root_xml) /\
    forall fuel, (length bs < fuel)%nat ->
                 read_mesh_data fuel (header ++ bs) = Ok (ordered_anim_document root_xml).
Proof.
  intros Hs. destruct (ordering_anim_document root_xml Hs) as (ND & Ha & Hc & Hsame).
  assert (W : Forall (fun t => exists b, write_token t = Ok b)
                     (document_tokens (ordered_anim_document root_xml))).
  { unfold document_tokens. apply Forall_app. split.
    - apply Forall_map. eapply Forall_impl; [|exact Ha].
      intros [k v] [Hk Hv]. cbn [fst snd] in *.
      destruct (writeProperty_parseProperty k v Hk Hv) as (tl & W & _).
      eexists. exact W.
    - apply Forall_flat_map. eapply Forall_impl; [|exact Hc].
      intros c Hok. apply tokens_written. exact Hok. }
  destruct (for_bytes_all_ok _ _ W) as [bs E]. exists bs. split; [|split].
  - rewrite (anim_datastring_tokens root_xml (proj1 Hs)).
    rewrite (for_bytes_same _ _ (same_written_anim root_xml Hs)), E. reflexivity.
  - exact Hsame.
  - intros fuel Hf.
    pose proof (read_document (tag root_xml) _ _ bs fuel ND Ha Hc) as R.
    unfold ordered_anim_document in *. cbn [attrib children] in *.
    rewrite (proj1 Hs) in *. apply R; assumption.
Qed.

Lemma write_anim_bone_same (b b' : Element) :
  same_tree b b' -> write_anim_bone b = write_anim_bone b'.
Proof.
  intros H. unfold write_anim_bone.
  rewrite (writeObject_same _ _ 2 H), (write_props_same _ _ _ H). reflexivity.
Qed.

Lemma anim_datastring_same (root_xml root_xml' : Element) :
  same_tree root_xml root_xml' ->
  anim_datastring root_xml = anim_datastring root_xml'.
Proof.
  intros H. unfold anim_datastring, find.
  rewrite <- (same_tree_tag _ _ H), <- (same_tree_get _ _ (str_of "pdxasset") H).
  pose proof (find_same (str_of "info") _ _ (same_tree_children _ _ H)) as FI.
  pose proof (find_same (str_of "samples") _ _ (same_tree_children _ _ H)) as FS.
  destruct (List.find _ (children root_xml)) as [i|],
           (List.find _ (children root_xml')) as [i'|]; try contradiction;
    destruct (List.find _ (children root_xml)) as [s|],
             (List.find _ (children root_xml')) as [s'|]; try contradiction;
    rewrite ?(writeObject_same _ _ 1 FI), ?(writeObject_same _ _ 1 FS),
      ?(write_props_same _ _ _ FI), ?(write_props_same _ _ _ FS),
      ?(for_bytes_children_same write_anim_bone i i' write_anim_bone_same FI);
    reflexivity.
Qed.

(** X17. An animation document is read back as written: for every tree
    that satisfies the animation schema ([info] with its bones, then
    [samples]) with non-empty attribute arrays, [write_animfile] writes a
    file, and [read_meshfile] on that file returns a tree with the same
    tags, the same value under every attribute name and the same children
    in the same order. *)
Theorem anim_round_trip_tree (fs : filesystem) (filepath : string) (root_xml : Element) :
  anim_schema root_xml ->
  exists datastring decoded,
    write_animfile fs filepath root_xml = (fs_write fs filepath datastring, Ok tt) /\
    same_tree root_xml decoded /\
    forall fuel, (length datastring <= fuel)%nat ->
                 read_meshfile fuel (fs_write fs filepath datastring) filepath = Ok decoded.
Proof.
  intros Hs. destruct (anim_round_trip root_xml Hs) as (bs & W & Hsame & R).
  exists (header ++ bs), (ordered_anim_document root_xml). split; [|split].
  - unfold write_animfile. rewrite W. reflexivity.
  - exact Hsame.
  - intros fuel Hf. rewrite read_meshfile_written. apply R.
    rewrite length_app in Hf. cbn [length header] in Hf. lia.
Qed.

(** X18. The bytes of an animation file are reproduced: reading a file
    that [write_animfile] wrote from a tree of the animation schema with
    non-empty attribute arrays, and writing the tree read with
    [write_animfile], gives the same byte sequence. *)
Theorem anim_round_trip_bytes (fs : filesystem) (filepath : string) (root_xml : Element) :
  anim_schema root_xml ->
  exists datastring decoded,
    write_animfile fs filepath root_xml = (fs_write fs filepath datastring, Ok tt) /\
    (forall fuel, (length datastring <= fuel)%nat ->
                  read_meshfile fuel (fs_write fs filepath datastring) filepath = Ok decoded) /\
    (forall fs' filepath',
        write_animfile fs' filepath' decoded = (fs_write fs' filepath' datastring, Ok tt)).
Proof.
  intros Hs. destruct (anim_round_trip root_xml Hs) as (bs & W & Hsame & R).
  exists (header ++ bs), (ordered_anim_document root_xml). split; [|split].
  - unfold write_animfile. rewrite W. reflexivity.
  - intros fuel Hf. rewrite read_meshfile_written. apply R.
    rewrite length_app in Hf. cbn [length header] in Hf. lia.
  - intros fs' filepath'. unfold write_animfile.
    rewrite <- (anim_datastring_same _ _ Hsame), W. reflexivity.
Qed.


(** X19. Neither file writer looks at the order in which an element holds
    its attributes: two documents with the same tags, the same value under
    every attribute name and the same children are written alike, by
    [write_meshfile] and by [write_animfile]. *)
Theorem writers_ignore_attribute_order (fs : filesystem) (filepath : string)
        (root_xml root_xml' : Element) :
  same_tree root_xml root_xml' ->
  write_meshfile fs filepath root_xml = write_meshfile fs filepath root_xml' /\
  write_animfile fs filepath root_xml = write_animfile fs filepath root_xml'.
Proof.
  intros H. unfold write_meshfile, write_animfile.
  rewrite (mesh_datastring_same _ _ H), (anim_datastring_same _ _ H).
  split; reflexivity.
Qed.

Lemma unpack_c_end (fdata : bytes) (pos : Z) :
  at_suffix fdata pos [] -> unpack_c fdata pos = Err StructError.
Proof.
  intros H. pose proof (at_suffix_end _ _ H) as E. destruct H as [[P _] _].
  unfold unpack_c, unpack_from.
  destruct (Z.ltb_spec pos 0) as [|_]; [lia|].
  destruct (Z.ltb_spec pos 0) as [|_]; [lia|].
  destruct (Z.ltb_spec (Z.of_nat (length fdata) - pos) (Z.of_nat 1)) as [_|G];
    [reflexivity|]. cbn in G. lia.
Qed.

(** X20. A property written for an empty array cannot be read back:
    [writeProperty] writes only the name, so [parseProperty] takes the byte
    that follows for the data type.  At the end of the file, or before the
    next object or property token, it raises [struct.error] or the
    unknown-data-type [NotImplementedError]. *)
Theorem empty_array_unreadable (name : pystr) (fdata : bytes) (pos : Z) (bs rest : bytes) :
  prop_name_ok name = true ->
  writeProperty name (Some []) = Ok bs ->
  at_suffix fdata pos (bs ++ rest) ->
  match rest with
  | [] => True
  | b :: _ => b = "["%byte \/ b = "!"%byte
  end ->
  parseProperty fdata pos = Err StructError \/
  parseProperty fdata pos = Err (NotImplementedError UnknownDataTypeRead).
Proof.
  intros Hn W H Next.
  destruct (prop_name_ok_spec name Hn) as (L & La & y & c & En & Hc).
  destruct (encode_latin1_total name La) as [nb E].
  destruct (encode_latin1_decode name nb E) as [D Lb].
  unfold writeProperty, writeString in W. rewrite pack_b_ok in W by lia.
  cbn [bind] in W. rewrite E in W. cbn [bind writeData map nodup] in W.
  unfold pack_c in W. cbn [app] in W. inversion W; subst bs. clear W.
  unfold parseProperty, unpack_b.
  cbn [app] in H. rewrite app_nil_r in H.
  apply at_suffix_next in H. rewrite (unpack_c_at _ _ _ _ H). cbn [bind].
  rewrite signed_byte_small by lia. apply at_suffix_next in H.
  assert (E' := E). rewrite En in E'.
  destruct (encode_latin1_app_inv _ _ _ E') as (yb & b & -> & Hb).
  rewrite <- Lb. rewrite (parseString_at _ _ _ _ _ H). cbn [bind].
  apply at_suffix_advance in H.
  set (p := pos + 1 + 1 + Z.of_nat (length (yb ++ [b]))) in *.
  unfold parseData.
  destruct rest as [|t r].
  - rewrite (unpack_c_end _ _ H). left. reflexivity.
  - rewrite (unpack_c_at _ _ _ _ H). cbn [bind].
    pose proof (unpack_i_fuel fdata (p + 1)) as F.
    destruct Next as [-> | ->].
    + change (decode_c "["%byte) with (Ok (A := N) 91%N). cbn [bind].
      destruct (unpack_i fdata (p + 1)) as [n|e|] eqn:U; cbn [bind].
      * right. reflexivity.
      * left. rewrite (unpack_i_err _ _ _ U). reflexivity.
      * congruence.
    + change (decode_c "!"%byte) with (Ok (A := N) 33%N). cbn [bind].
      destruct (unpack_i fdata (p + 1)) as [n|e|] eqn:U; cbn [bind].
      * right. reflexivity.
      * left. rewrite (unpack_i_err _ _ _ U). reflexivity.
      * congruence.
Qed.


Lemma datastring_header (root_xml : Element) (datastring : bytes) :
  mesh_datastring root_xml = Ok datastring \/ anim_datastring root_xml = Ok datastring ->
  exists bs, datastring = header ++ bs.
Proof.
  assert (T : tag root_xml = str_of "File" \/
              pystr_eqb (tag root_xml) (str_of "File") = false).
  { destruct (pystr_eqb (tag root_xml) (str_of "File")) eqn:E; [left | right; reflexivity].
    apply pystr_eqb_eq. exact E. }
  intros [H|H].
  - destruct T as [T|T].
    + rewrite (mesh_datastring_tokens _ T) in H.
      destruct (for_bytes (mesh_tokens root_xml) write_token) as [bs| |];
        cbn [bind] in H; try discriminate.
      exists bs. congruence.
    + unfold mesh_datastring in H. rewrite T in H. discriminate.
  - destruct T as [T|T].
    + rewrite (anim_datastring_tokens _ T) in H.
      destruct (for_bytes (anim_tokens root_xml) write_token) as [bs| |];
        cbn [bind] in H; try discriminate.
      exists bs. congruence.
    + unfold anim_datastring in H. rewrite T in H. discriminate.
Qed.

(** X21. A writer that succeeds has written one file and touched no other:
    after [write_meshfile] or [write_animfile] returns, the file at the
    given path starts with the header "@@b@", every other path holds what it
    held before, and [read_meshfile] on the written file never raises the
    unknown-header [NotImplementedError]. *)
Theorem written_file_header (fs fs' : filesystem) (filepath : string) (root_xml : Element) :
  write_meshfile fs filepath root_xml = (fs', Ok tt) \/
  write_animfile fs filepath root_xml = (fs', Ok tt) ->
  (exists bs, fs' filepath = Some (header ++ bs)) /\
  (forall other, other <> filepath -> fs' other = fs other) /\
  (forall fuel,
      read_meshfile fuel fs' filepath <> Err (NotImplementedError UnknownFileHeader)).
Proof.
  intros H.
  assert (W : exists bs, fs' = fs_write fs filepath (header ++ bs)).
  { unfold write_meshfile, write_animfile in H.
    destruct H as [H|H].
    - destruct (mesh_datastring root_xml) as [d| |] eqn:M; try discriminate.
      destruct (datastring_header root_xml d (or_introl M)) as [bs ->].
      exists bs. congruence.
    - destruct (anim_datastring root_xml) as [d| |] eqn:M; try discriminate.
      destruct (datastring_header root_xml d (or_intror M)) as [bs ->].
      exists bs. congruence. }
  destruct W as [bs ->]. split; [|split].
  - exists bs. unfold fs_write. rewrite String.eqb_refl. reflexivity.
  - intros other Ho. unfold fs_write.
    apply String.eqb_neq in Ho. rewrite Ho. reflexivity.
  - intros fuel. rewrite read_meshfile_written. unfold read_mesh_data.
    rewrite read_mesh_state_header.
    destruct (read_loop fuel (header ++ bs) read_init) as [st|e|] eqn:R; cbn [bind];
      try discriminate.
    intros E. inversion E; subst e.
    destruct (read_loop_raises _ _ _ _ (reaches_init _) R) as (st' & _ & _ & B).
    destruct B as [[B _]|[B _]]; discriminate.
Qed.


(** ** Termination of the reading loop *)

Lemma unpack_c_inside (bdata : bytes) (pos : Z) (b : byte) :
  0 <= pos -> unpack_c bdata pos = Ok b -> pos < Z.of_nat (length bdata).
Proof.
  intros P. unfold unpack_c, unpack_from.
  destruct (Z.ltb_spec pos 0) as [|_]; [lia|].
  destruct (Z.ltb_spec pos 0) as [|_]; [lia|].
  destruct (Z.ltb_spec (Z.of_nat (length bdata) - pos) (Z.of_nat 1)) as [|G];
    cbn [orb bind]; [discriminate|]. intros _. cbn in G. lia.
Qed.

Lemma parseString_positive (bdata : bytes) (pos length : Z) (s : pystr) :
  parseString bdata pos length = Ok s -> 1 <= length.
Proof.
  intros H. destruct (Z.leb_spec length 0) as [L|L]; [|lia]. exfalso.
  unfold parseString in H. replace (Z.to_nat length) with O in H by lia.
  unfold unpack_from in H. destruct ((_ <? 0) || _); cbn [bind] in H; discriminate.
Qed.

Lemma data_advances_spec (fdata : bytes) (q : Z) (v : list pyval) (q' : Z) :
  data_advances fdata = true -> 0 <= q ->
  parseData fdata q = Ok (v, q') -> q < q'.
Proof.
  intros A Q H.
  assert (In_range : q < Z.of_nat (length fdata)).
  { unfold parseData in H.
    destruct (unpack_c fdata q) as [b| |] eqn:U; cbn [bind] in H; try discriminate.
    exact (unpack_c_inside _ _ _ Q U). }
  unfold data_advances in A. rewrite forallb_forall in A.
  specialize (A (Z.to_nat q)). rewrite Z2Nat.id in A by exact Q. rewrite H in A.
  apply Z.ltb_lt. apply A. apply in_seq. lia.
Qed.

Lemma read_step_advance (fuel : nat) (fdata : bytes) (st st' : reader) :
  data_advances fdata = true -> 0 <= pos st ->
  read_step fuel fdata st = Ok st' -> pos st < pos st'.
Proof.
  intros A P H.
  destruct (read_step_inv _ _ _ _ H)
    as [(n & d & par & dl & U & _) | (n & v & U & PP & _)].
  - exact (read_step_object_advance _ _ _ _ U H).
  - unfold parseProperty in PP.
    destruct (unpack_b fdata (pos st + 1)) as [l| |]; cbn [bind] in PP; try discriminate.
    destruct (parseString fdata (pos st + 1 + 1) l) as [s| |] eqn:S; cbn [bind] in PP;
      try discriminate.
    apply parseString_positive in S.
    destruct (parseData fdata (pos st + 1 + 1 + l)) as [[v' q']| |] eqn:D;
      cbn [bind] in PP; try discriminate.
    apply (data_advances_spec _ _ _ _ A) in D; [|lia].
    inversion PP; subst. lia.
Qed.

Lemma read_loop_room (fdata : bytes) (n : nat) :
  data_advances fdata = true ->
  forall fuel st,
    0 <= pos st ->
    (Z.to_nat (Z.of_nat (length fdata) - pos st) <= n)%nat ->
    (n + 2 * length fdata + 2 <= fuel)%nat ->
    read_loop fuel fdata st <> OutOfFuel.
Proof.
  intros A. induction n as [|n IH]; intros fuel st P M F;
    (destruct fuel as [|fuel]; [lia|]); cbn [read_loop];
    destruct (Z.ltb_spec (pos st) (Z.of_nat (length fdata))) as [Lt|Ge];
    try discriminate; [lia|].
  pose proof (read_step_room fuel fdata st ltac:(lia)) as R.
  destruct (read_step fuel fdata st) as [st'| |] eqn:S; cbn [bind];
    try congruence.
  pose proof (read_step_advance _ _ _ _ A P S) as Adv.
  apply IH; lia.
Qed.

(** X22. [read_meshfile] terminates on every buffer in which no data
    record moves the cursor backwards: it then returns or raises within a
    number of steps that is linear in the length of the buffer. *)
Theorem read_meshfile_terminates (fdata : bytes) (fuel : nat) :
  data_advances fdata = true ->
  (3 * length fdata + 2 <= fuel)%nat ->
  read_mesh_data fuel fdata <> OutOfFuel.
Proof.
  intros A F. unfold read_mesh_data, read_mesh_state.
  pose proof (unpack_from_fuel 4 fdata 0) as U.
  destruct (unpack_from 4 fdata 0) as [hdr| |]; cbn [bind]; try congruence.
  destruct (list_eq_dec Byte.byte_eq_dec hdr header); [|discriminate].
  pose proof (read_loop_room fdata (length fdata) A fuel read_init) as R.
  destruct (read_loop fuel fdata read_init); cbn [bind]; try discriminate.
  intros _. apply R; cbn [pos read_init]; try lia. reflexivity.
Qed.

(** X23. The count field of a string record is not used: whatever its
    four bytes are, [parseData] reads one string of the length that follows
    and continues just after it. *)
Theorem string_count_ignored (fdata : bytes) (pos : Z) (count field rest : bytes) :
  length count = 4%nat -> field <> [] ->
  Z.of_nat (length field) <= 2147483647 ->
  at_suffix fdata pos
    ("s"%byte :: count ++ le32 (Z.of_nat (length field)) ++ field ++ rest) ->
  parseData fdata pos =
    Ok ([PStr (if Byte.byte_eq_dec (last field x01) x00
               then decode_latin1 (removelast field)
               else decode_latin1 field)],
        pos + 9 + Z.of_nat (length field)).
Proof.
  intros Lc Ne Lf H. destruct (exists_last Ne) as (y & b & ->).
  unfold parseData. rewrite (unpack_c_at _ _ _ _ H). cbn [bind].
  change (decode_c "s"%byte) with (Ok (A := N) 115%N). cbn [bind].
  apply at_suffix_next in H.
  unfold unpack_i at 1. rewrite <- Lc, (unpack_from_at _ _ _ _ H). cbn [bind].
  change (115 =? 105)%N with false. change (115 =? 102)%N with false.
  change (115 =? 115)%N with true. cbv iota.
  apply at_suffix_advance in H. rewrite Lc in H. change (Z.of_nat 4) with 4 in H.
  rewrite (unpack_i_at _ _ (Z.of_nat (length (y ++ [b]))) _ ltac:(lia) H). cbn [bind].
  apply at_suffix_advance in H. rewrite le32_length in H. change (Z.of_nat 4) with 4 in H.
  rewrite (parseString_at _ _ _ _ _ H). cbn [bind].
  rewrite last_last, removelast_last. f_equal. f_equal. lia.
Qed.


(** ** Format errors and complete buffers *)

Lemma bad_token_unknown (fdata : bytes) (st : reader) (why : not_implemented) :
  bad_token fdata st why -> unknown_token fdata st why.
Proof.
  intros [(W & b & U & _ & B1 & B2)
         |(W & U & l & n & t & c & Ul & Pn & Ut & _ & T1 & T2 & T3 & Uc)].
  - left. split; [exact W|]. exists b. repeat split; assumption.
  - right. split; [exact W|]. split; [exact U|].
    exists l, n, t, c. repeat split; assumption.
Qed.

Lemma unpack_i_bytes (fdata : bytes) (pos : Z) (x rest : bytes) :
  length x = 4%nat -> at_suffix fdata pos (x ++ rest) ->
  unpack_i fdata pos = Ok (int_of_le32 x).
Proof.
  intros L H. unfold unpack_i. rewrite <- L, (unpack_from_at _ _ _ _ H). reflexivity.
Qed.

Lemma parseString_field (fdata : bytes) (pos : Z) (field rest : bytes) :
  field <> [] -> at_suffix fdata pos (field ++ rest) ->
  exists s, parseString fdata pos (Z.of_nat (length field)) = Ok s.
Proof.
  intros Ne H. destruct (exists_last Ne) as (y & b & ->).
  rewrite (parseString_at _ _ _ _ _ H). eexists. reflexivity.
Qed.

Lemma parseData_record (fdata : bytes) (pos : Z) (record rest : bytes) :
  data_record record ->
  at_suffix fdata pos (record ++ rest) ->
  exists v, parseData fdata pos = Ok (v, pos + Z.of_nat (length record)).
Proof.
  intros R H. unfold parseData.
  destruct R as [count payload Lc Nn Lp | count payload Lc Nn Lp
                | count size field Lc Ls Nn Lf];
    cbn [app] in H; rewrite <- !app_assoc in H;
    rewrite (unpack_c_at _ _ _ _ H); cbn [bind];
    apply at_suffix_next in H;
    rewrite (unpack_i_bytes _ _ _ _ Lc H); cbn [bind];
    apply at_suffix_advance in H; rewrite Lc in H; change (Z.of_nat 4) with 4 in H.
  - change (decode_c "i"%byte) with (Ok (A := N) 105%N). cbn [bind].
    change (105 =? 105)%N with true. cbv iota.
    unfold unpack_is. rewrite <- Lp, (unpack_from_at _ _ _ _ H). cbn [bind].
    eexists. f_equal. f_equal. cbn [length]. rewrite length_app, Lc, Lp. lia.
  - change (decode_c "f"%byte) with (Ok (A := N) 102%N). cbn [bind].
    change (102 =? 105)%N with false. change (102 =? 102)%N with true. cbv iota.
    unfold unpack_fs. rewrite <- Lp, (unpack_from_at _ _ _ _ H). cbn [bind].
    eexists. f_equal. f_equal. cbn [length]. rewrite length_app, Lc, Lp. lia.
  - change (decode_c "s"%byte) with (Ok (A := N) 115%N). cbn [bind].
    change (115 =? 105)%N with false. change (115 =? 102)%N with false.
    change (115 =? 115)%N with true. cbv iota.
    rewrite (unpack_i_bytes _ _ _ _ Ls H). cbn [bind].
    apply at_suffix_advance in H. rewrite Ls in H. change (Z.of_nat 4) with 4 in H.
    assert (Ne : field <> []) by (intros ->; cbn [length] in Lf; lia).
    assert (El : int_of_le32 size = Z.of_nat (length field)) by lia.
    rewrite El. destruct (parseString_field _ _ _ _ Ne H) as [s Ps].
    rewrite Ps. cbn [bind]. eexists. f_equal. f_equal.
    cbn [length]. rewrite !length_app, Lc, Ls. lia.
Qed.

Lemma parseProperty_complete (fdata : bytes) (pos : Z) (name record rest : bytes) :
  (1 <= length name <= 127)%nat -> data_record record ->
  at_suffix fdata pos
    (("!"%byte :: byte_of_Z (Z.of_nat (length name)) :: name ++ record) ++ rest) ->
  exists n v,
    parseProperty fdata pos =
      Ok (n, v, pos + Z.of_nat (length ("!"%byte :: byte_of_Z (Z.of_nat (length name))
                                          :: name ++ record))).
Proof.
  intros Ln R H. unfold parseProperty, unpack_b.
  cbn [app] in H. rewrite <- app_assoc in H.
  apply at_suffix_next in H. rewrite (unpack_c_at _ _ _ _ H). cbn [bind].
  rewrite signed_byte_small by lia. apply at_suffix_next in H.
  assert (Ne : name <> []) by (intros ->; cbn [length] in Ln; lia).
  destruct (parseString_field _ _ _ _ Ne H) as [s Ps]. rewrite Ps. cbn [bind].
  apply at_suffix_advance in H.
  destruct (parseData_record _ _ _ _ R H) as [v Pd]. rewrite Pd. cbn [bind].
  exists s, v. f_equal. f_equal. cbn [length]. rewrite length_app. lia.
Qed.

Lemma markers_repeat (depth : nat) (rest : bytes) :
  markers (repeat "["%byte depth ++ rest) = (depth + markers rest)%nat.
Proof.
  induction depth as [|depth IH]; [reflexivity|].
  cbn [repeat app markers]. change (Byte.eqb "["%byte "["%byte) with true.
  cbv iota. rewrite IH. reflexivity.
Qed.

Lemma markers_object (depth : nat) (name : bytes) :
  name_bytes_ok name -> markers (object_bytes depth name) = depth.
Proof.
  intros [_ F]. unfold object_bytes. rewrite markers_repeat.
  destruct name as [|b name]; [cbn; lia|].
  cbn [app markers]. destruct F as [_ Nb].
  destruct (Byte.eqb b "["%byte) eqn:E; [|lia].
  apply Byte.byte_dec_bl in E. contradiction.
Qed.

Lemma object_depths_cons (token : bytes) (tokens : list bytes) :
  object_depths (token :: tokens) = object_depths [token] ++ object_depths tokens.
Proof.
  unfold object_depths. cbn [map filter].
  destruct (negb (markers token =? 0)%nat); reflexivity.
Qed.

Lemma complete_token_length (token : bytes) :
  complete_token token -> (1 <= length token)%nat.
Proof.
  intros [depth name D _ | name record _ _].
  - unfold object_bytes. rewrite length_app, repeat_length. lia.
  - cbn [length]. lia.
Qed.

(** One iteration of the loop on a complete token, in any state the loop
    can be in. *)
Lemma read_step_complete (fuel : nat) (fdata : bytes) (st : reader) (token rest : bytes) :
  reaches fdata st -> complete_token token ->
  at_suffix fdata (pos st) (token ++ rest) ->
  (length token <= fuel)%nat ->
  exists st',
    read_step fuel fdata st = Ok st' /\
    pos st' = pos st + Z.of_nat (length token) /\
    map fst (created st') = map fst (created st) ++ object_depths [token].
Proof.
  intros R C H F. destruct C as [depth name D Nok | name record Ln Rec].
  - assert (U : unpack_c fdata (pos st) = Ok "["%byte).
    { destruct depth as [|depth]; [lia|]. unfold object_bytes in H.
      cbn [repeat app] in H. exact (unpack_c_at _ _ _ _ H). }
    unfold read_step. rewrite U. cbn [bind].
    change (decode_c "["%byte) with (Ok (A := N) 91%N). cbn [bind].
    change (91 =? 91)%N with true. cbv iota.
    rewrite (parseObject_at depth name fuel fdata (pos st) rest H Nok F). cbn [bind].
    assert (Dl : object_depths [object_bytes depth name] = [Z.of_nat depth]).
    { unfold object_depths. cbn [map filter]. rewrite (markers_object _ _ Nok).
      destruct depth as [|depth]; [lia|]. reflexivity. }
    rewrite Dl.
    destruct (negb (Z.of_nat depth >? current_depth st)); cbn [bind].
    + destruct (last_error (firstn (Z.to_nat (Z.of_nat depth)) (depth_list st))) eqn:L;
        cbn [bind].
      * eexists. split; [reflexivity|]. cbn [pos created]. split; [reflexivity|].
        rewrite map_app. reflexivity.
      * exfalso. apply last_error_none in L.
        destruct (reaches_bounds _ _ R) as (I0 & _).
        destruct (depth_list st) as [|x l]; [discriminate|].
        rewrite Nat2Z.id in L. destruct depth as [|depth]; [lia | discriminate].
    + eexists. split; [reflexivity|]. cbn [pos created]. split; [reflexivity|].
      rewrite map_app. reflexivity.
  - assert (U : unpack_c fdata (pos st) = Ok "!"%byte).
    { cbn [app] in H. exact (unpack_c_at _ _ _ _ H). }
    destruct (parseProperty_complete _ _ _ _ _ Ln Rec H) as (n & v & P).
    unfold read_step. rewrite U. cbn [bind].
    change (decode_c "!"%byte) with (Ok (A := N) 33%N). cbn [bind].
    change (33 =? 91)%N with false. change (33 =? 33)%N with true. cbv iota.
    rewrite P. cbn [bind]. eexists. split; [reflexivity|].
    cbn [pos created]. split; [reflexivity|].
    change (object_depths _) with (@nil Z). rewrite app_nil_r. reflexivity.
Qed.

Lemma read_loop_complete (fdata : bytes) (tokens : list bytes) :
  Forall complete_token tokens ->
  forall st fuel,
    reaches fdata st ->
    at_suffix fdata (pos st) (concat tokens) ->
    (length (concat tokens) < fuel)%nat ->
    exists st',
      read_loop fuel fdata st = Ok st' /\
      pos st' = Z.of_nat (length fdata) /\
      map fst (created st') = map fst (created st) ++ object_depths tokens.
Proof.
  induction 1 as [|token tokens C _ IH]; intros st fuel R H F.
  - cbn [concat] in H. apply at_suffix_end in H.
    exists st. split; [apply read_loop_end; [lia | exact H]|].
    split; [exact H|]. change (object_depths []) with (@nil Z).
    rewrite app_nil_r. reflexivity.
  - cbn [concat] in H, F. rewrite length_app in F.
    pose proof (complete_token_length _ C) as L1.
    destruct fuel as [|fuel]; [lia|].
    destruct (read_step_complete fuel fdata st token (concat tokens) R C H ltac:(lia))
      as (st1 & S1 & P1 & C1).
    assert (Lt : pos st < Z.of_nat (length fdata)).
    { pose proof (at_suffix_length _ _ _ H) as E. rewrite length_app in E. lia. }
    cbn [read_loop].
    destruct (Z.ltb_spec (pos st) (Z.of_nat (length fdata))) as [_|G]; [|lia].
    rewrite S1. cbn [bind].
    apply at_suffix_advance in H. rewrite <- P1 in H.
    destruct (IH st1 fuel (reaches_step _ _ _ _ R Lt S1) H ltac:(lia))
      as (st' & Lp & Pe & Ce).
    exists st'. split; [exact Lp|]. split; [exact Pe|].
    rewrite Ce, C1, (object_depths_cons token tokens), app_assoc. reflexivity.
Qed.

(** C3, amended.  [read_meshfile] raises [NotImplementedError] only when the
    buffer has four bytes or more and does not begin with "@@b@", or when,
    the header and zero or more tokens having been read, the cursor is
    before the end of the buffer on a token whose first byte is neither "["
    nor "!", or on a property whose name and 4-byte count can be read and
    whose data-type byte is none of "i", "f", "s".  It does raise it in
    each of these cases when the offending byte is ASCII.  On the header
    followed by complete tokens (zero counts and repeated property names
    included) it returns a tree, having read every token and made one
    element for each object token; on the header followed by the tokens of
    a document whose elements have readable tags and non-empty values of
    the tree model that tree is the document. *)
Theorem format_errors (fdata : bytes) (why : not_implemented) :
  ((exists fuel, read_mesh_data fuel fdata = Err (NotImplementedError why)) ->
   (why = UnknownFileHeader /\ (4 <= length fdata)%nat /\ firstn 4 fdata <> header) \/
   (firstn 4 fdata = header /\
    exists st, reaches fdata st /\ pos st < Z.of_nat (length fdata) /\
               unknown_token fdata st why)) /\
  ((why = UnknownFileHeader /\ (4 <= length fdata)%nat /\ firstn 4 fdata <> header) \/
   (firstn 4 fdata = header /\
    exists st, reaches fdata st /\ pos st < Z.of_nat (length fdata) /\
               bad_token fdata st why) ->
   exists fuel, read_mesh_data fuel fdata = Err (NotImplementedError why)) /\
  (forall tokens fuel,
      Forall complete_token tokens ->
      fdata = header ++ concat tokens -> (length fdata < fuel)%nat ->
      exists st,
        read_mesh_state fuel fdata = Ok st /\
        read_mesh_data fuel fdata = Ok (file_element st) /\
        pos st = Z.of_nat (length fdata) /\
        map fst (created st) = object_depths tokens) /\
  (forall t a cs bs fuel,
      NoDup (map fst a) -> Forall attr_ok a -> Forall elem_ok cs ->
      for_bytes (document_tokens (mkElement t a cs)) write_token = Ok bs ->
      fdata = header ++ bs -> (length bs < fuel)%nat ->
      read_mesh_data fuel fdata = Ok (mkElement (str_of "File") a cs)).
Proof.
  split; [|split; [|split]].
  - intros [fuel H]. rewrite read_mesh_data_unfold in H.
    destruct (Nat.ltb_spec (length fdata) 4) as [L|L]; [discriminate|].
    destruct (list_eq_dec Byte.byte_eq_dec (firstn 4 fdata) header) as [E|E].
    + right. split; [exact E|].
      destruct (read_loop fuel fdata read_init) as [st| |] eqn:R; cbn [bind] in H;
        try discriminate.
      inversion H; subst.
      destruct (read_loop_raises fuel fdata why read_init (reaches_init fdata) R)
        as (st & Rs & Ls & B).
      exists st. split; [exact Rs|]. split; [exact Ls|]. exact (bad_token_unknown _ _ _ B).
    + left. inversion H; subst. repeat split; assumption.
  - intros [(-> & L & E)|(E & st & R & L & B)].
    + exists 0%nat. rewrite read_mesh_data_unfold.
      destruct (Nat.ltb_spec (length fdata) 4); [lia|].
      destruct (list_eq_dec Byte.byte_eq_dec (firstn 4 fdata) header); [contradiction|].
      reflexivity.
    + destruct (reaches_run fdata st R) as (k & n & Hrun).
      exists (k + S n)%nat. rewrite read_mesh_data_unfold.
      assert (L4 : (4 <= length fdata)%nat).
      { rewrite <- (firstn_skipn 4 fdata), E, length_app.
        change (length header) with 4%nat. lia. }
      destruct (Nat.ltb_spec (length fdata) 4); [lia|].
      destruct (list_eq_dec Byte.byte_eq_dec (firstn 4 fdata) header); [|contradiction].
      rewrite (Hrun (S n)) by lia. cbn [read_loop].
      destruct (Z.ltb_spec (pos st) (Z.of_nat (length fdata))); [|lia].
      rewrite (proj2 (read_step_raises n fdata st why) B). reflexivity.
  - intros tokens fuel C -> F.
    rewrite length_app in F. change (length header) with 4%nat in F.
    destruct (read_loop_complete (header ++ concat tokens) tokens C read_init fuel
                (reaches_init _) (at_suffix_header _) ltac:(lia))
      as (st & L & P & Cr).
    exists st. unfold read_mesh_data. rewrite read_mesh_state_header, L.
    repeat split; try assumption.
  - intros t a cs bs fuel ND Ha Hcs W -> Hf.
    apply (read_document t a cs bs fuel ND Ha Hcs W Hf).
Qed.

End CodecFacts.

(** * The properties on concrete documents *)

Section Checks.

#[local] Existing Instance bits_packing.

Ltac int_array zs :=
  split; [split; [simpl; lia
                 | left; exists zs; split;
                   [reflexivity | repeat constructor; unfold int32; lia]]
         | discriminate].

Ltac float_array xs :=
  split; [split; [simpl; lia
                 | right; left; exists (xs : list (@pyfloat bits_packing)); split;
                   [reflexivity | repeat constructor; reflexivity]]
         | discriminate].

Ltac one_string s :=
  split; [split; [simpl; lia
                 | right; right; exists s; split;
                   [reflexivity | split; [apply latin1_check; reflexivity | simpl; lia]]]
         | discriminate].

Ltac attr_names :=
  split; [repeat constructor; simpl; intuition discriminate
         | split; [intros k Hk; simpl in Hk |- *; intuition | ]].

Ltac each :=
  simpl; repeat first [apply Forall_nil | apply Forall_cons]; simpl.

Lemma example_document_schema : mesh_schema nonempty_value example_document.
Proof.
  split; [reflexivity|]. split.
  { attr_names. each. int_array [1; 0]. }
  split; [discriminate|].
  exists [example_object], [example_locator].
  split; [reflexivity|]. split.
  - split; [simpl; lia|]. constructor; [|constructor].
    split; [reflexivity|]. split; [reflexivity|]. constructor; [|constructor].
    split; [apply tag_ok_check; reflexivity|]. split.
    { attr_names. each. int_array [0]. }
    constructor; [|constructor]. left.
    split; [reflexivity|]. split.
    { attr_names. each.
      - int_array [0; 1; -2].
      - float_array [1065353216; 3212836864]. }
    exists [example_aabb], [example_material], (@nil Element).
    split; [reflexivity|]. split; [|split].
    + split; [simpl; lia|]. constructor; [|constructor].
      split; [reflexivity|]. split; [apply tag_ok_check; reflexivity|]. split; [|reflexivity].
      attr_names. each. float_array [0].
    + split; [simpl; lia|]. constructor; [|constructor].
      split; [reflexivity|]. split; [apply tag_ok_check; reflexivity|]. split; [|reflexivity].
      attr_names. each. one_string (str_of "PdxMeshStandard").
    + split; [simpl; lia | constructor].
  - split; [simpl; lia|]. constructor; [|constructor].
    split; [reflexivity|]. split; [reflexivity|]. constructor; [|constructor].
    split; [apply tag_ok_check; reflexivity|]. split; [|reflexivity].
    attr_names. each. one_string (str_of "root").
Qed.

(** Witness of [mesh_round_trip_tree]. *)
Lemma mesh_round_trip_tree_witness :
  mesh_schema nonempty_value example_document /\
  exists datastring decoded,
    write_meshfile no_files "a.mesh" example_document =
      (fs_write no_files "a.mesh" datastring, Ok tt) /\
    same_tree example_document decoded /\
    forall fuel, (length datastring <= fuel)%nat ->
                 read_meshfile fuel (fs_write no_files "a.mesh" datastring) "a.mesh"
                 = Ok decoded.
Proof.
  split; [exact example_document_schema|].
  apply (mesh_round_trip_tree no_files "a.mesh" example_document).
  exact example_document_schema.
Defined.

(** Witness of [mesh_round_trip_bytes]. *)
Lemma mesh_round_trip_bytes_witness :
  mesh_schema nonempty_value example_document /\
  exists datastring decoded,
    write_meshfile no_files "a.mesh" example_document =
      (fs_write no_files "a.mesh" datastring, Ok tt) /\
    (forall fuel, (length datastring <= fuel)%nat ->
                  read_meshfile fuel (fs_write no_files "a.mesh" datastring) "a.mesh"
                  = Ok decoded) /\
    (forall fs' filepath',
        write_meshfile fs' filepath' decoded = (fs_write fs' filepath' datastring, Ok tt)).
Proof.
  split; [exact example_document_schema|].
  apply (mesh_round_trip_bytes no_files "a.mesh" example_document).
  exact example_document_schema.
Defined.


(** Witness of [writeProperty_empty_array]. *)
Lemma writeProperty_empty_array_witness :
  Z.of_nat (length (str_of "lod")) <= 127 /\
  encode_latin1 (str_of "lod") = Ok ["l"; "o"; "d"]%byte /\
  writeData (Some []) = Ok [] /\
  writeProperty (str_of "lod") (Some []) = Ok ["!"; x03; "l"; "o"; "d"]%byte.
Proof.
  assert (L : Z.of_nat (length (str_of "lod")) <= 127) by (simpl; lia).
  assert (E : encode_latin1 (str_of "lod") = Ok ["l"; "o"; "d"]%byte) by reflexivity.
  split; [exact L|]. split; [exact E|].
  exact (writeProperty_empty_array (str_of "lod") ["l"; "o"; "d"]%byte L E).
Defined.


(** Witness of [long_tag_rejected]. *)
Lemma long_tag_rejected_witness :
  64 <= Z.of_nat (length (tag long_shape)) /\
  writeObject long_shape 2 = Err (NotImplementedError NameTooLong) /\
  write_meshfile no_files "a.mesh" long_document =
    (no_files, Err (NotImplementedError NameTooLong)) /\
  exists name,
    encode_latin1 (tag example_aabb) = Ok name /\
    writeObject example_aabb 4 = Ok (repeat "["%byte 4 ++ name ++ [x00]).
Proof.
  assert (L : 64 <= Z.of_nat (length (tag long_shape))) by (simpl; lia).
  destruct (proj1 (long_tag_rejected long_shape 2) L) as (W & _ & F).
  split; [exact L|]. split; [exact W|]. split.
  - apply (F no_files "a.mesh"%string long_document
             [TProperty (str_of "pdxasset") (Some [PInt 1; PInt 0]);
              TObject (mkElement (str_of "object") [] [long_shape]) 1] []).
    + reflexivity.
    + reflexivity.
    + repeat constructor; eexists; vm_compute; reflexivity.
  - apply (proj2 (long_tag_rejected example_aabb 4)).
    + simpl. lia.
    + apply latin1_check. reflexivity.
Defined.


Ltac short_name :=
  split; [repeat constructor; discriminate | split; [reflexivity | discriminate]].

(** Witness of [depth_reconciliation]. *)
Lemma depth_reconciliation_witness :
  let fdata := header ++ object_bytes 1 ["a"%byte] ++ object_bytes 2 ["b"%byte]
               ++ object_bytes 2 ["c"%byte] ++ object_bytes 1 ["d"%byte]
               ++ object_bytes 2 ["e"%byte] in
  read_mesh_data 30 fdata =
    Ok (mkElement (str_of "File") []
          [mkElement (str_of "a") [] [mkElement (str_of "b") [] []; mkElement (str_of "c") [] []];
           mkElement (str_of "d") [] [mkElement (str_of "e") [] []]]).
Proof.
  intros fdata.
  assert (A : name_bytes_ok ["a"%byte]) by short_name.
  assert (B : name_bytes_ok ["b"%byte]) by short_name.
  assert (C : name_bytes_ok ["c"%byte]) by short_name.
  assert (D : name_bytes_ok ["d"%byte]) by short_name.
  assert (E : name_bytes_ok ["e"%byte]) by short_name.
  destruct (depth_reconciliation ["a"%byte] ["b"%byte] ["c"%byte] ["d"%byte] ["e"%byte]
              30 A B C D E) as (st & _ & R & T & _).
  - simpl. lia.
  - fold fdata in R. rewrite R, T. reflexivity.
Defined.

(** Witness of [property_attaches]: the property that follows the third
    object token goes to the third object, the second child of the root. *)
Lemma property_attaches_witness :
  reaches property_buffer property_state_before /\
  last_created property_state_before = [1%nat] /\
  exists owner,
    get_at [1%nat] (file_element property_state_after) = Some owner /\
    tag owner = str_of "c" /\
    get owner (str_of "x") = Some [PInt 7].
Proof.
  assert (R : reaches property_buffer property_state_before).
  { eapply (reaches_step _ _ 30%nat);
      [eapply (reaches_step _ _ 30%nat);
       [eapply (reaches_step _ _ 30%nat); [apply reaches_init | |] | |] | |];
      try reflexivity. }
  assert (U : unpack_c property_buffer (pos property_state_before) = Ok "!"%byte)
    by reflexivity.
  assert (S1 : read_step 30 property_buffer property_state_before = Ok property_state_after)
    by reflexivity.
  destruct (property_attaches property_buffer property_state_before 30
              property_state_after R U S1) as (name & values & owner & P & _ & G & A & _).
  split; [exact R|]. split; [reflexivity|].
  exists owner. split; [exact G|].
  assert (E : parseProperty property_buffer (pos property_state_before) =
              Ok (str_of "x", [PInt 7], pos property_state_after)) by reflexivity.
  rewrite E in P. inversion P; subst name values.
  split; [|exact A].
  change (get_at [1%nat] (file_element property_state_after))
    with (Some (mkElement (str_of "c") [(str_of "x", [PInt 7])] [])) in G.
  inversion G. reflexivity.
Defined.

(** Witness of [nesting_levels]. *)
Lemma nesting_levels_witness :
  read_mesh_state 30 stepwise_buffer = Ok stepwise_state /\
  steps_by_one 0 (map fst (created stepwise_state)) /\
  read_mesh_data 30 stepwise_buffer = Ok (file_element stepwise_state) /\
  Forall level_matches (created stepwise_state) /\
  (forall p, p <> [] -> get_at p (file_element stepwise_state) <> None ->
             exists depth, In (depth, p) (created stepwise_state) /\
                           Z.of_nat (length p) = depth).
Proof.
  assert (R : read_mesh_state 30 stepwise_buffer = Ok stepwise_state) by reflexivity.
  assert (G : steps_by_one 0 (map fst (created stepwise_state))).
  { simpl. repeat split; lia. }
  split; [exact R|]. split; [exact G|].
  exact (nesting_levels 30 stepwise_buffer stepwise_state R G).
Defined.

(** Witness of [format_errors]: a token that begins with "?" right after
    the header raises; two complete property tokens with the same name, the
    first with a count of zero, are read to the end. *)
Lemma format_errors_witness :
  (exists fuel,
      read_mesh_data fuel (header ++ ["?"%byte]) = Err (NotImplementedError UnknownObject)) /\
  Forall complete_token [zero_count_token; repeated_name_token] /\
  exists st,
    read_mesh_state 30 repeated_name_buffer = Ok st /\
    read_mesh_data 30 repeated_name_buffer = Ok (file_element st) /\
    pos st = Z.of_nat (length repeated_name_buffer) /\
    map fst (created st) = object_depths [zero_count_token; repeated_name_token].
Proof.
  split.
  - apply (proj1 (proj2 (format_errors (header ++ ["?"%byte]) UnknownObject))).
    right. split; [reflexivity|]. exists read_init.
    split; [apply reaches_init|]. split; [reflexivity|].
    left. split; [reflexivity|]. exists "?"%byte.
    split; [reflexivity|]. split; [reflexivity|]. split; discriminate.
  - assert (C : Forall complete_token [zero_count_token; repeated_name_token]).
    { constructor; [|constructor; [|constructor]].
      - apply (complete_property ["a"%byte] ("i"%byte :: [x00; x00; x00; x00]%byte ++ []));
          [simpl; lia|].
        apply record_ints; [reflexivity | cbn; lia | reflexivity].
      - apply (complete_property ["a"%byte]
                 ("i"%byte :: [x01; x00; x00; x00]%byte ++ [x07; x00; x00; x00]%byte));
          [simpl; lia|].
        apply record_ints; [reflexivity | cbn; lia | reflexivity]. }
    split; [exact C|].
    apply (proj1 (proj2 (proj2 (format_errors repeated_name_buffer UnknownObject)))
             [zero_count_token; repeated_name_token] 30%nat C eq_refl).
    simpl. lia.
Defined.


Ltac any_int_array zs :=
  split; [simpl; lia
         | left; exists zs; split; [reflexivity | repeat constructor; unfold int32; lia]].

Ltac any_float_array xs :=
  split; [simpl; lia
         | right; left; exists (xs : list (@pyfloat bits_packing)); split;
           [reflexivity | repeat constructor; reflexivity]].

Lemma empty_lod_document_schema : mesh_schema schema_value empty_lod_document.
Proof.
  split; [reflexivity|]. split.
  { attr_names. each. any_int_array [1; 0]. }
  split; [discriminate|].
  exists [empty_lod_object], (@nil Element).
  split; [reflexivity|]. split; [|split; [simpl; lia | constructor]].
  split; [simpl; lia|]. constructor; [|constructor].
  split; [reflexivity|]. split; [reflexivity|]. constructor; [|constructor].
  split; [apply tag_ok_check; reflexivity|]. split; [|constructor].
  attr_names. each. any_int_array (@nil Z).
Qed.

(** C2 fails on a schema-conforming tree with an empty attribute array:
    the tree is written, and what was written is never decoded into a
    tree ([struct] finds no data-type byte after the property name). *)
Lemma mesh_round_trip_tree_counterexample :
  mesh_schema schema_value empty_lod_document /\
  write_meshfile no_files "a.mesh" empty_lod_document =
    (fs_write no_files "a.mesh" empty_lod_bytes, Ok tt) /\
  read_meshfile 30 (fs_write no_files "a.mesh" empty_lod_bytes) "a.mesh" = Err StructError /\
  forall fuel decoded,
    read_meshfile fuel (fs_write no_files "a.mesh" empty_lod_bytes) "a.mesh" <> Ok decoded.
Proof.
  split; [exact empty_lod_document_schema|]. split; [reflexivity|].
  split; [reflexivity|]. intros fuel decoded.
  change (read_meshfile fuel (fs_write no_files "a.mesh" empty_lod_bytes) "a.mesh")
    with (read_mesh_data fuel empty_lod_bytes).
  apply (read_mesh_data_raises 30 empty_lod_bytes StructError). reflexivity.
Qed.

Lemma empty_tri_document_schema : mesh_schema schema_value empty_tri_document.
Proof.
  split; [reflexivity|]. split.
  { attr_names. each. any_int_array [1; 0]. }
  split; [discriminate|].
  exists [empty_tri_object], (@nil Element).
  split; [reflexivity|]. split; [|split; [simpl; lia | constructor]].
  split; [simpl; lia|]. constructor; [|constructor].
  split; [reflexivity|]. split; [reflexivity|]. constructor; [|constructor].
  split; [apply tag_ok_check; reflexivity|]. split.
  { split; [constructor | split; [intros k [] | constructor]]. }
  constructor; [|constructor]. left. split; [reflexivity|]. split.
  { attr_names. each. any_int_array (@nil Z). }
  exists [example_aabb], (@nil Element), (@nil Element).
  split; [reflexivity|]. split; [|split; split; [simpl; lia | constructor | simpl; lia | constructor]].
  split; [simpl; lia|]. constructor; [|constructor].
  split; [reflexivity|]. split; [apply tag_ok_check; reflexivity|]. split; [|reflexivity].
  attr_names. each. any_float_array [0].
Qed.

(** C1 fails on the buffer written from a schema-conforming tree with an
    empty attribute array: decoding it raises (the byte after the property
    name is the "[" of the next object token), so there is no tree to
    encode again. *)
Lemma mesh_round_trip_bytes_counterexample :
  mesh_schema schema_value empty_tri_document /\
  write_meshfile no_files "a.mesh" empty_tri_document =
    (fs_write no_files "a.mesh" empty_tri_bytes, Ok tt) /\
  read_meshfile 30 (fs_write no_files "a.mesh" empty_tri_bytes) "a.mesh" =
    Err (NotImplementedError UnknownDataTypeRead) /\
  forall fuel decoded,
    read_meshfile fuel (fs_write no_files "a.mesh" empty_tri_bytes) "a.mesh" <> Ok decoded.
Proof.
  split; [exact empty_tri_document_schema|]. split; [reflexivity|].
  split; [reflexivity|]. intros fuel decoded.
  change (read_meshfile fuel (fs_write no_files "a.mesh" empty_tri_bytes) "a.mesh")
    with (read_mesh_data fuel empty_tri_bytes).
  apply (read_mesh_data_raises 30 empty_tri_bytes (NotImplementedError UnknownDataTypeRead)).
  reflexivity.
Qed.

(** C3 fails on a buffer cut inside a token: it begins with the header, its
    only token begins with "[", no property is in it, and yet decoding
    neither returns a tree nor raises [NotImplementedError]. *)
Lemma format_errors_counterexample :
  firstn 4 cut_buffer = header /\
  skipn 4 cut_buffer = ["["%byte] /\
  read_mesh_data 30 cut_buffer = Err StructError /\
  (forall fuel decoded, read_mesh_data fuel cut_buffer <> Ok decoded) /\
  (forall fuel why, read_mesh_data fuel cut_buffer <> Err (NotImplementedError why)).
Proof.
  assert (R : read_mesh_data 30 cut_buffer = Err StructError) by reflexivity.
  split; [reflexivity|]. split; [reflexivity|]. split; [exact R|]. split.
  - apply (read_mesh_data_raises 30 cut_buffer StructError R).
  - intros fuel why H.
    pose proof (read_mesh_data_raises_same _ _ _ _ _ R H). discriminate.
Qed.

(** C4 fails on a buffer whose first object token has depth 2: decode
    accepts it and puts the element at nesting level 1, under the root. *)
Lemma nesting_levels_counterexample :
  read_mesh_state 10 deep_first_buffer = Ok deep_first_state /\
  read_mesh_data 10 deep_first_buffer =
    Ok (mkElement (str_of "File") [] [mkElement (str_of "a") [] []]) /\
  created deep_first_state = [(2, [0%nat])] /\
  ~ Forall level_matches (created deep_first_state).
Proof.
  split; [reflexivity|]. split; [reflexivity|]. split; [reflexivity|].
  intros F. inversion F as [|e l M _]; subst. unfold level_matches in M.
  simpl in M. lia.
Qed.


(** ** Instances of the further properties *)

(** Witness of [parseObject_terminates]. *)
Lemma parseObject_terminates_witness :
  (2 * length property_buffer < 60)%nat /\
  parseObject 60 property_buffer 4 <> OutOfFuel /\
  forall st, read_step 60 property_buffer st <> OutOfFuel.
Proof.
  assert (F : (2 * length property_buffer < 60)%nat) by (simpl; lia).
  split; [exact F|]. exact (parseObject_terminates 60 property_buffer 4 F).
Defined.

(** Witness of [rewinding_property_never_returns]. *)
Lemma rewinding_property_never_returns_witness :
  read_step 0 rewinding_buffer read_init =
    Ok (after_props read_init [(str_of "a", [])] 4) /\
  forall fuel, read_mesh_data fuel rewinding_buffer = OutOfFuel.
Proof.
  assert (S1 : read_step 0 rewinding_buffer read_init =
               Ok (after_props read_init [(str_of "a", [])] 4)) by reflexivity.
  split; [exact S1|].
  apply (rewinding_property_never_returns rewinding_buffer read_init 0
           (after_props read_init [(str_of "a", [])] 4)).
  - reflexivity.
  - apply reaches_init.
  - simpl. lia.
  - exact S1.
  - reflexivity.
Defined.

(** Witness of [decoded_tree_well_formed]. *)
Lemma decoded_tree_well_formed_witness :
  read_mesh_data 30 property_buffer = Ok (file_element property_state_after) /\
  tag (file_element property_state_after) = str_of "File" /\
  decoded_ok (file_element property_state_after).
Proof.
  assert (R : read_mesh_data 30 property_buffer = Ok (file_element property_state_after))
    by reflexivity.
  split; [exact R|].
  exact (decoded_tree_well_formed 30 property_buffer _ R).
Defined.

(** Witness of [levels_bounded_by_markers]: two markers, level 1. *)
Lemma levels_bounded_by_markers_witness :
  read_mesh_state 10 deep_first_buffer = Ok deep_first_state /\
  ([0%nat] = [] \/
   exists depth, In (depth, [0%nat]) (created deep_first_state) /\
                 1 <= Z.of_nat (length [0%nat]) <= depth).
Proof.
  assert (R : read_mesh_state 10 deep_first_buffer = Ok deep_first_state) by reflexivity.
  split; [exact R|].
  apply (levels_bounded_by_markers 10 deep_first_buffer deep_first_state R [0%nat]).
  simpl. discriminate.
Defined.

(** Witness of [reconciliation_finds_parent]. *)
Lemma reconciliation_finds_parent_witness :
  unpack_c cut_buffer (pos read_init) = Ok "["%byte /\
  read_step 5 cut_buffer read_init = Err StructError /\
  parseObject 5 cut_buffer (pos read_init) = Err StructError.
Proof.
  assert (U : unpack_c cut_buffer (pos read_init) = Ok "["%byte) by reflexivity.
  assert (S1 : read_step 5 cut_buffer read_init = Err StructError) by reflexivity.
  split; [exact U|]. split; [exact S1|].
  exact (proj1 (reconciliation_finds_parent 5 cut_buffer read_init StructError
                  (reaches_init _) U S1)).
Defined.

(** Witness of [object_token_round_trip]. *)
Lemma object_token_round_trip_witness :
  tag_ok (tag example_aabb) /\
  exists bs,
    writeObject example_aabb 4 = Ok bs /\
    length bs = (4 + length (tag example_aabb) + 1)%nat /\
    forall fuel fdata pos rest,
      at_suffix fdata pos (bs ++ rest) -> (length bs <= fuel)%nat ->
      parseObject fuel fdata pos =
        Ok (tag example_aabb, Z.of_nat 4, pos + Z.of_nat (length bs)).
Proof.
  assert (T : tag_ok (tag example_aabb)) by (apply tag_ok_check; reflexivity).
  split; [exact T|]. exact (object_token_round_trip example_aabb 4 T).
Defined.

(** Witness of [property_token_round_trip]. *)
Lemma property_token_round_trip_witness :
  nonempty_value [PInt 0; PInt 1; PInt (-2)] /\
  exists bs,
    writeProperty (str_of "tri") (Some [PInt 0; PInt 1; PInt (-2)]) = Ok bs /\
    forall fdata pos rest,
      at_suffix fdata pos (bs ++ rest) ->
      parseProperty fdata pos =
        Ok (str_of "tri", [PInt 0; PInt 1; PInt (-2)], pos + Z.of_nat (length bs)).
Proof.
  assert (V : nonempty_value [PInt 0; PInt 1; PInt (-2)]) by (int_array [0; 1; -2]).
  split; [exact V|].
  exact (property_token_round_trip (str_of "tri") _ eq_refl V).
Defined.

(** Witness of [parseString_terminator]: of two zero bytes one stays. *)
Lemma parseString_terminator_witness :
  at_suffix nul_ended_field 0 (nul_ended_field ++ []) /\
  parseString nul_ended_field 0 (Z.of_nat (length nul_ended_field)) =
    Ok (if Byte.byte_eq_dec (last nul_ended_field x01) x00
        then decode_latin1 (removelast nul_ended_field)
        else decode_latin1 nul_ended_field) /\
  decode_latin1 (removelast nul_ended_field) = str_of "ab" ++ [0%N].
Proof.
  assert (A : at_suffix nul_ended_field 0 (nul_ended_field ++ []))
    by (split; [simpl; lia | reflexivity]).
  assert (Ne : nul_ended_field <> []) by (unfold nul_ended_field; discriminate).
  split; [exact A|]. split; [|reflexivity].
  exact (parseString_terminator nul_ended_field 0 nul_ended_field [] Ne A).
Defined.

(** Witness of [parseString_nonpositive]: a name of length zero. *)
Lemma parseString_nonpositive_witness :
  unpack_b nameless_buffer (4 + 1) = Ok 0 /\
  parseString nameless_buffer 4 0 =
    (_ <- unpack_from 0 nameless_buffer 4 ;; Err IndexError) /\
  exists e, parseProperty nameless_buffer 4 = Err e /\ (e = IndexError \/ e = StructError).
Proof.
  assert (U : unpack_b nameless_buffer (4 + 1) = Ok 0) by reflexivity.
  destruct (parseString_nonpositive nameless_buffer 4 0 ltac:(lia)) as [P Q].
  split; [exact U|]. split; [exact P | exact (Q U)].
Defined.

(** Witness of [int_record_reencoded]. *)
Lemma int_record_reencoded_witness :
  parseData property_buffer 17 = Ok (map PInt [7], 26) /\
  exists data rest,
    writeData (Some (map PInt [7])) = Ok data /\
    at_suffix property_buffer 17 (data ++ rest) /\
    26 = 17 + Z.of_nat (length data).
Proof.
  assert (P : parseData property_buffer 17 = Ok (map PInt [7], 26)) by reflexivity.
  split; [exact P|].
  apply (int_record_reencoded property_buffer 17 [7] 26); [lia | discriminate | exact P].
Defined.

(** Witness of [writeData_first_string_only]. *)
Lemma writeData_first_string_only_witness :
  forallb is_str [PStr (str_of "b"); PStr (str_of "c")] = true /\
  writeData (Some [PStr (str_of "a"); PStr (str_of "b"); PStr (str_of "c")]) =
  writeData (Some [PStr (str_of "a")]).
Proof.
  split; [reflexivity|].
  apply (writeData_first_string_only (str_of "a")). reflexivity.
Defined.

(** Witness of [writeString_latin1]. *)
Lemma writeString_latin1_witness :
  latin1 (str_of "aabb") /\
  (exists bs, writeString (str_of "aabb") = Ok bs /\
              decode_latin1 bs = str_of "aabb" /\ length bs = length (str_of "aabb")) /\
  ~ latin1 [97%N; 960%N] /\
  writeString [97%N; 960%N] = Err UnicodeEncodeError.
Proof.
  assert (L : latin1 (str_of "aabb")) by (apply latin1_check; reflexivity).
  assert (Nl : ~ latin1 [97%N; 960%N]).
  { intros H. inversion H as [|? ? _ H1]; subst. inversion H1 as [|? ? H2 _]; subst. lia. }
  split; [exact L|]. split; [exact (proj1 (writeString_latin1 _) L)|].
  split; [exact Nl|]. exact (proj2 (writeString_latin1 _) Nl).
Defined.

(** Witness of [writeData_int_out_of_range]. *)
Lemma writeData_int_out_of_range_witness :
  Exists (fun z => ~ int32 z) [1; 2147483648] /\
  writeData (Some (map PInt [1; 2147483648])) = Err StructError.
Proof.
  assert (E : Exists (fun z => ~ int32 z) [1; 2147483648]).
  { apply Exists_cons_tl, Exists_cons_hd. unfold int32. lia. }
  split; [exact E|].
  apply (writeData_int_out_of_range [1; 2147483648]); [simpl; lia | exact E].
Defined.

(** Witness of [writers_check_root]. *)
Lemma writers_check_root_witness :
  tag wrong_root <> str_of "File" /\
  write_meshfile no_files "a.mesh" wrong_root =
    (no_files, Err (NotImplementedError UnknownXMLRoot)) /\
  write_animfile no_files "a.anim" wrong_root =
    (no_files, Err (NotImplementedError UnknownXMLRoot)) /\
  get no_asset_root (str_of "pdxasset") = None /\
  write_meshfile no_files "a.mesh" no_asset_root = (no_files, Err TypeError) /\
  write_animfile no_files "a.anim" no_asset_root = (no_files, Err TypeError).
Proof.
  assert (T : tag wrong_root <> str_of "File") by discriminate.
  assert (G : get no_asset_root (str_of "pdxasset") = None) by reflexivity.
  split; [exact T|].
  split; [exact (proj1 (proj1 (writers_check_root no_files "a.mesh" wrong_root) T))|].
  split; [exact (proj2 (proj1 (writers_check_root no_files "a.anim" wrong_root) T))|].
  split; [exact G|].
  split.
  - exact (proj1 (proj2 (writers_check_root no_files "a.mesh" no_asset_root) eq_refl G)).
  - exact (proj2 (proj2 (writers_check_root no_files "a.anim" no_asset_root) eq_refl G)).
Defined.

(** Witness of [later_children_not_written]. *)
Lemma later_children_not_written_witness :
  find example_document (str_of "object") = Some example_object /\
  find example_document (str_of "locator") = Some example_locator /\
  mesh_datastring
    (mkElement (str_of "File") [(str_of "pdxasset", [PInt 1; PInt 0])]
       ([example_object; example_locator] ++ [second_object])) =
  mesh_datastring example_document.
Proof.
  assert (O : find example_document (str_of "object") = Some example_object)
    by reflexivity.
  assert (L : find example_document (str_of "locator") = Some example_locator)
    by reflexivity.
  split; [exact O|]. split; [exact L|].
  exact (later_children_not_written _ _ _ [second_object] _ _ O L).
Defined.

Lemma example_anim_document_schema : anim_schema example_anim_document.
Proof.
  split; [reflexivity|]. split.
  { attr_names. each. int_array [1; 0]. }
  split; [discriminate|].
  exists [example_anim_info], [example_anim_samples].
  split; [reflexivity|]. split.
  - split; [simpl; lia|]. constructor; [|constructor].
    split; [reflexivity|]. split.
    { attr_names. each.
      - int_array [2].
      - float_array [1097859072].
      - int_array [3]. }
    each.
    + split; [apply tag_ok_check; reflexivity|]. split; [|reflexivity].
      attr_names. each.
      * float_array [0; 1065353216; 0].
      * one_string (str_of "tq").
    + split; [apply tag_ok_check; reflexivity|]. split; [|reflexivity].
      attr_names. each. one_string (str_of "q").
  - split; [simpl; lia|]. constructor; [|constructor].
    split; [reflexivity|]. split; [apply tag_ok_check; reflexivity|]. split; [|reflexivity].
    attr_names. each.
    + float_array [0; 0; 0; 1065353216].
    + float_array [0; 1073741824; 0].
Qed.

(** Witness of [anim_round_trip_tree]. *)
Lemma anim_round_trip_tree_witness :
  anim_schema example_anim_document /\
  exists datastring decoded,
    write_animfile no_files "a.anim" example_anim_document =
      (fs_write no_files "a.anim" datastring, Ok tt) /\
    same_tree example_anim_document decoded /\
    forall fuel, (length datastring <= fuel)%nat ->
                 read_meshfile fuel (fs_write no_files "a.anim" datastring) "a.anim"
                 = Ok decoded.
Proof.
  split; [exact example_anim_document_schema|].
  apply (anim_round_trip_tree no_files "a.anim" example_anim_document).
  exact example_anim_document_schema.
Defined.

(** Witness of [anim_round_trip_bytes]. *)
Lemma anim_round_trip_bytes_witness :
  anim_schema example_anim_document /\
  exists datastring decoded,
    write_animfile no_files "a.anim" example_anim_document =
      (fs_write no_files "a.anim" datastring, Ok tt) /\
    (forall fuel, (length datastring <= fuel)%nat ->
                  read_meshfile fuel (fs_write no_files "a.anim" datastring) "a.anim"
                  = Ok decoded) /\
    (forall fs' filepath',
        write_animfile fs' filepath' decoded = (fs_write fs' filepath' datastring, Ok tt)).
Proof.
  split; [exact example_anim_document_schema|].
  apply (anim_round_trip_bytes no_files "a.anim" example_anim_document).
  exact example_anim_document_schema.
Defined.

Lemma reordered_anim_same : same_tree example_anim_document reordered_anim_document.
Proof.
  assert (R : forall e, same_tree e e).
  { apply Element_nested_ind. intros t a cs H. constructor; [reflexivity|].
    induction H; constructor; assumption. }
  constructor; [reflexivity|].
  constructor; [apply R|]. constructor; [|constructor].
  constructor; [|constructor].
  intros k. apply dict_get_perm.
  - simpl. repeat constructor; simpl; intuition discriminate.
  - apply perm_swap.
Qed.

(** Witness of [writers_ignore_attribute_order]. *)
Lemma writers_ignore_attribute_order_witness :
  same_tree example_anim_document reordered_anim_document /\
  write_meshfile no_files "a.anim" example_anim_document =
    write_meshfile no_files "a.anim" reordered_anim_document /\
  write_animfile no_files "a.anim" example_anim_document =
    write_animfile no_files "a.anim" reordered_anim_document.
Proof.
  split; [exact reordered_anim_same|].
  exact (writers_ignore_attribute_order no_files "a.anim" _ _ reordered_anim_same).
Defined.

(** Witness of [empty_array_unreadable]. *)
Lemma empty_array_unreadable_witness :
  writeProperty (str_of "lod") (Some []) = Ok empty_lod_property /\
  at_suffix empty_lod_buffer 0 (empty_lod_property ++ object_bytes 3 ["m"%byte]) /\
  (parseProperty empty_lod_buffer 0 = Err StructError \/
   parseProperty empty_lod_buffer 0 = Err (NotImplementedError UnknownDataTypeRead)).
Proof.
  assert (W : writeProperty (str_of "lod") (Some []) = Ok empty_lod_property)
    by reflexivity.
  assert (A : at_suffix empty_lod_buffer 0 (empty_lod_property ++ object_bytes 3 ["m"%byte]))
    by (split; [simpl; lia | reflexivity]).
  split; [exact W|]. split; [exact A|].
  apply (empty_array_unreadable (str_of "lod") empty_lod_buffer 0 empty_lod_property
           (object_bytes 3 ["m"%byte]) eq_refl W A).
  left. reflexivity.
Defined.

(** Witness of [written_file_header]. *)
Lemma written_file_header_witness :
  write_meshfile no_files "a.mesh" example_document =
    (fst (write_meshfile no_files "a.mesh" example_document), Ok tt) /\
  (exists bs, fst (write_meshfile no_files "a.mesh" example_document) "a.mesh"%string
              = Some (header ++ bs)) /\
  (forall other, other <> "a.mesh"%string ->
     fst (write_meshfile no_files "a.mesh" example_document) other = no_files other) /\
  (forall fuel,
      read_meshfile fuel (fst (write_meshfile no_files "a.mesh" example_document)) "a.mesh"
      <> Err (NotImplementedError UnknownFileHeader)).
Proof.
  assert (W : write_meshfile no_files "a.mesh" example_document =
              (fst (write_meshfile no_files "a.mesh" example_document), Ok tt))
    by reflexivity.
  split; [exact W|].
  exact (written_file_header no_files _ "a.mesh" example_document (or_introl W)).
Defined.


(** Witness of [read_meshfile_terminates]; the buffer whose property
    rewinds the cursor does not pass the check. *)
Lemma read_meshfile_terminates_witness :
  data_advances property_buffer = true /\
  data_advances rewinding_buffer = false /\
  read_mesh_data 80 property_buffer <> OutOfFuel.
Proof.
  assert (A : data_advances property_buffer = true) by reflexivity.
  split; [exact A|]. split; [reflexivity|].
  apply (read_meshfile_terminates property_buffer 80 A). simpl. lia.
Defined.

(** Witness of [string_count_ignored]. *)
Lemma string_count_ignored_witness :
  at_suffix counted_string_record 0
    ("s"%byte :: [x09; x00; x00; x00]%byte
     ++ le32 (Z.of_nat (length counted_field)) ++ counted_field ++ []) /\
  parseData counted_string_record 0 =
    Ok ([PStr (if Byte.byte_eq_dec (last counted_field x01) x00
               then decode_latin1 (removelast counted_field)
               else decode_latin1 counted_field)],
        0 + 9 + Z.of_nat (length counted_field)) /\
  decode_latin1 (removelast counted_field) = str_of "ab".
Proof.
  assert (A : at_suffix counted_string_record 0
                ("s"%byte :: [x09; x00; x00; x00]%byte
                 ++ le32 (Z.of_nat (length counted_field)) ++ counted_field ++ []))
    by (split; [simpl; lia | reflexivity]).
  assert (Ne : counted_field <> []) by (unfold counted_field; discriminate).
  split; [exact A|]. split; [|reflexivity].
  apply (string_count_ignored counted_string_record 0 [x09; x00; x00; x00]%byte
           counted_field [] eq_refl Ne); [simpl; lia | exact A].
Defined.

End Checks.
